(** * nvram: the partition directory, the config-record update and the
      diagnostic decoders of [nvram.c], embedded in Rocq.

    Conventions of the embedding.

    - The target is PowerPC Linux: multi-byte fields are big-endian (so
      [ntohs] is the identity and an [unsigned short] read from the buffer
      is its two bytes, high byte first) and plain [char] is unsigned.
    - [unsigned int] is 32 bits wide; its wrap-around is written [wrap32].
    - The NVRAM image [nvram->data] is a [list byte]; a pointer into it is a
      byte offset in [Z]; a read outside the image is a [Fault].
    - [printf], [err_msg] and [warn_msg] append a [msg] to the output trace.
      [err_msg] builds its message in a buffer of [MAXLINE] bytes: where the
      format prints a string of the command line, the store into that buffer
      is followed too, and a message that does not fit is a [Fault].
    - Loops of the source that need not terminate take a [fuel] argument and
      answer [OutOfFuel] when it is exhausted. *)

From Stdlib Require Import ZArith List Lia Bool.
From Stdlib Require Import Strings.String.
From Stdlib Require Import Init.Byte Strings.Byte.
From Stdlib Require Import DecimalString.
From coqutil Require Import Byte.
Import ListNotations.
Local Open Scope Z_scope.

(* ================================================================= *)
(** ** Machine integers and bytes *)

Definition u8 (b : byte) : Z := byte.unsigned b.

Definition wrap32 (x : Z) : Z := x mod 2 ^ 32.

(** Conversion to [int] (two's complement, 32 bits). *)
Definition int32 (x : Z) : Z := (x + 2 ^ 31) mod 2 ^ 32 - 2 ^ 31.

(** A big-endian 16-bit word. *)
Definition be16 (hi lo : byte) : Z := 256 * u8 hi + u8 lo.

(** The bytes of a string literal. *)
Definition bytes (s : string) : list byte := list_byte_of_string s.

(* ================================================================= *)
(** ** Partition headers (nvram.h) *)

(** Modelled from the spec: [struct partition_header] is declared in
    nvram.h, which is not among the sources.  The header is 16 bytes:
    signature (1 byte), checksum (1 byte), length (2 bytes, a count of
    16-byte blocks) and name (12 bytes). *)
Record partition_header : Type := mk_header {
  ph_signature : byte;
  ph_checksum  : byte;
  ph_length    : Z;
  ph_name      : list byte
}.

(** Modelled from the spec: [NVRAM_BLOCK_SIZE] of nvram.h; partitions are
    made of 16-byte blocks. *)
Definition NVRAM_BLOCK_SIZE : Z := 16.

(** The field types of the C struct: [length] is an [unsigned short] and
    [name] is a [char[12]]. *)
Definition wf_header (h : partition_header) : Prop :=
  0 <= ph_length h < 65536 /\ List.length (ph_name h) = 12%nat.

(** [sp[i]]: the name viewed as six 16-bit words. *)
Definition sp (h : partition_header) (i : nat) : Z :=
  be16 (nth (2 * i) (ph_name h) x00) (nth (2 * i + 1) (ph_name h) x00).

Definition header_sum (h : partition_header) : Z :=
  u8 (ph_signature h) + ph_length h
  + sp h 0 + sp h 1 + sp h 2 + sp h 3 + sp h 4 + sp h 5.

(** [checksum], nvram.c:438. *)
Definition checksum (h : partition_header) : byte :=
  let c_sum := wrap32 (header_sum h) in
  let c_sum := Z.land (wrap32 (Z.land c_sum 65535 + Z.shiftr c_sum 16)) 65535 in
  let c_sum2 := wrap32 (Z.shiftr c_sum 8 + wrap32 (Z.shiftl c_sum 8)) in
  let c_sum := Z.land (Z.shiftr (wrap32 (c_sum + c_sum2)) 8) 255 in
  byte.of_Z c_sum.

(** *** The checksum as the specification words it *)

(** "fold the sum's bits above position 16 back into the low 16 bits once" *)
Definition fold16_once (s : Z) : Z := (s mod 65536 + s / 65536) mod 65536.

(** "then fold the resulting value's high byte and low byte together and
    mask to one byte", read literally: the two bytes are added and the sum
    is masked. *)
Definition checksum_as_worded (h : partition_header) : Z :=
  let c := fold16_once (header_sum h) in
  (c / 256 + c mod 256) mod 256.

(** What the source computes: the carry out of the byte addition is added
    back in (an end-around carry) before the mask. *)
Definition checksum_end_around (h : partition_header) : Z :=
  let c := fold16_once (header_sum h) in
  let s := c / 256 + c mod 256 in
  (s + s / 256) mod 256.

(** The header of the specification's test [signature=0x70, length=1,
    name all-zero]. *)
Definition header_70_1 : partition_header :=
  mk_header x70 x00 1 (repeat x00 12).

(** A 16-block partition named "common" with signature 0x70. *)
Definition header_common_16 : partition_header :=
  mk_header x70 x00 16 (bytes "common" ++ repeat x00 6).

(* ================================================================= *)
(** ** Results, faults and the output trace *)

(** What the C program does where the embedding cannot follow it: an access
    outside the object it points into. *)
Inductive fault : Type :=
| OutOfBounds (addr : Z)        (* read outside the NVRAM image *)
| BufferOverrun (len : Z)       (* write past the end of a local or heap buffer *)
| NullPointer.                  (* arithmetic on the NULL result of strstr *)

Inductive result (A : Type) : Type :=
| Ret (a : A)
| Fault (f : fault)
| OutOfFuel.
Arguments Ret {A} a.
Arguments Fault {A} f.
Arguments OutOfFuel {A}.

Definition bind {A B : Type} (r : result A) (k : A -> result B) : result B :=
  match r with
  | Ret a => k a
  | Fault f => Fault f
  | OutOfFuel => OutOfFuel
  end.

Notation "x <- r ;; k" := (bind r (fun x => k))
  (at level 61, r at next level, right associativity).

(** One constructor per [printf], [err_msg] or [warn_msg] of the modelled
    functions. *)
Inductive msg : Type :=
| Warn_checksum (c_sum : byte)
    (* "this partition checksum should be %02x!" *)
| Err_no_partition (pname : list byte)
    (* "there is no \"%s\" partition!" *)
| Err_no_config_var (config_var pname : list byte)
    (* "cannot update %s: The config var does not exist in the partition" *)
| Err_no_room (config_var pname : list byte)
    (* "cannot update config var ...: There is not enough room" *)
| Err_no_room_tail (config_var pname : list byte)
    (* "cannot update open firmware config var ...: not enough room" *)
| Err_corrupt (pname : list byte)
    (* "the \"%s\" partition appears to be corrupt" *)
| Err_seek_begin
    (* "could not seek to beginning of file %s" *)
| Err_fd_not_found (name : list byte)
    (* "could not find %s partition in %s" *)
| Err_invalid_read
    (* "Invalid read from %s: %s" *)
| Err_seek
    (* "seek error in file %s: %s" *)
| Err_seek_back (name : list byte)
    (* "could not seek to %s partition" *)
| Err_short_write (len : Z) (pname : list byte) (part_size : Z)
    (* "only wrote %d bytes of the \"%s\" partition back to %s, expected
       to write %d bytes" *)
| Err_no_vpd
    (* "there is no ibm,vpd partition!" *)
| Out_id_string (value : list byte)
    (* printf("%s\n", value) *)
| Out_vpd_field (fname value : list byte)
    (* printf("\t%-20s %s\n", fname, value) *)
| Warn_unknown_descriptor (b : byte)
    (* "found unknown descriptor byte 0x%x" *)
| Err_no_errlog
    (* "there is no ibm,err-log partition!" *)
| Err_corrupt_errlog
    (* "Corrupt ibm,err-log partition in nvram" *)
| Out_checkstops (checkstop_count : Z)
    (* "Checkstops detected: %d" or "No checkstops have been detected." *)
| Out_cpus (num_cpus : Z)
| Out_memctrls (num_memctrls : Z)
| Out_ioctrls (num_ioctrls : Z)
| Out_sys_regs
    (* "System Specific Registers" *)
| Out_cpu_regs (cpu len offset : Z)
    (* "CPU %d Register Data (len=%x, offset=%lx)" *)
| Out_raw_dump (addr len : Z).
    (* a call dump_raw_data(addr, len) *)

(* ================================================================= *)
(** ** The NVRAM image and its partition table *)

(** Modelled from the spec: [struct nvram] is declared in nvram.h, which is
    not among the sources.  [parts] is the ordered table of partitions; an
    entry is a pointer to a header inside [data], kept here as the byte
    offset of the header together with the header it points to ([data] is
    never written after it is loaded).  [nparts] is the length of [parts]. *)
Record nvram : Type := mk_nvram {
  data   : list byte;
  nbytes : Z;
  parts  : list (Z * partition_header)
}.

Definition nparts (nv : nvram) : Z := Z.of_nat (List.length (parts nv)).

Definition len (d : list byte) : Z := Z.of_nat (List.length d).

(** [d[off]]; [None] outside the image. *)
Definition rd (d : list byte) (off : Z) : option byte :=
  if 0 <=? off then nth_error d (Z.to_nat off) else None.

(** The 16 bytes at [off] viewed as a [struct partition_header]. *)
Definition read_header (d : list byte) (off : Z) : option partition_header :=
  if (0 <=? off) && (off + 16 <=? len d) then
    match firstn 16 (skipn (Z.to_nat off) d) with
    | sig :: ck :: lhi :: llo :: name =>
        Some (mk_header sig ck (be16 lhi llo) name)
    | _ => None
    end
  else None.

(** The 16 bytes of a header. *)
Definition encode_header (h : partition_header) : list byte :=
  ph_signature h :: ph_checksum h
  :: byte.of_Z (ph_length h / 256) :: byte.of_Z (ph_length h mod 256)
  :: ph_name h.

(** *** [nvram_parse_partitions], nvram.c:606 *)

(** The [while (p_start < nvram_end)] loop.  [sizeof(struct
    partition_header)] is 16 for the header above, so the guard before the
    loop never fires; [verbose] is 0. *)
Fixpoint parse_loop (fuel : nat) (d : list byte) (nvram_end p_start : Z)
    (tbl : list (Z * partition_header)) (out : list msg)
    : result (list (Z * partition_header) * list msg) :=
  match fuel with
  | O => OutOfFuel
  | S fuel' =>
      if p_start <? nvram_end then
        match read_header d p_start with
        | None => Fault (OutOfBounds p_start)
        | Some phead =>
            let tbl := tbl ++ [(p_start, phead)] in
            let c_sum := checksum phead in
            let out :=
              if u8 c_sum =? u8 (ph_checksum phead) then out
              else out ++ [Warn_checksum c_sum] in
            parse_loop fuel' d nvram_end
              (p_start + ph_length phead * NVRAM_BLOCK_SIZE) tbl out
        end
      else Ret (tbl, out)
  end.

(** Returns the filled-in [nvram], the messages and the return code. *)
Definition nvram_parse_partitions (fuel : nat) (nv : nvram)
    : result (nvram * list msg * Z) :=
  r <- parse_loop fuel (data nv) (nbytes nv) 0 (parts nv) [] ;;
  Ret (mk_nvram (data nv) (nbytes nv) (fst r), snd r, 0).

(** A buffer synthesized from partitions: each is a header followed by its
    payload, and the header's length counts the header block too. *)
Definition wf_partition (p : partition_header * list byte) : Prop :=
  wf_header (fst p) /\ 1 <= ph_length (fst p)
  /\ len (snd p) = (ph_length (fst p) - 1) * 16.

Definition partition_image (p : partition_header * list byte) : list byte :=
  encode_header (fst p) ++ snd p.

Definition image (ps : list (partition_header * list byte)) : list byte :=
  flat_map partition_image ps.

(** The table a walk from [base] is expected to produce. *)
Fixpoint table_from (base : Z) (ps : list (partition_header * list byte))
    : list (Z * partition_header) :=
  match ps with
  | [] => []
  | p :: ps' =>
      (base, fst p) :: table_from (base + ph_length (fst p) * 16) ps'
  end.

Definition checksum_warnings (ps : list (partition_header * list byte))
    : list msg :=
  flat_map (fun p => if u8 (checksum (fst p)) =? u8 (ph_checksum (fst p))
                     then [] else [Warn_checksum (checksum (fst p))]) ps.

(** Two partitions, both with a wrong stored checksum: a one-block
    partition and a two-block partition with 16 bytes of payload. *)
Definition two_partitions : list (partition_header * list byte) :=
  [ (header_70_1, []);
    (mk_header x70 x00 2 (bytes "common" ++ repeat x00 6),
     bytes "foo=1" ++ repeat x00 11) ].

(** The image of one partition whose header has length 0. *)
Definition zero_length_image : list byte :=
  encode_header (mk_header x70 x70 0 (repeat x00 12)).

Definition zero_length_nvram : nvram := mk_nvram zero_length_image 16 [].

(* ================================================================= *)
(** ** C strings *)

(** A C string argument is the list of its bytes before the terminating
    NUL; reading such a list at or past its end yields the NUL. *)

(** [strncmp(s1, s2, n)]: at most [n] bytes are compared and the comparison
    stops at the first difference or at a NUL. *)
Fixpoint strncmp (s1 s2 : list byte) (n : nat) : Z :=
  match n with
  | O => 0
  | S n' =>
      let c1 := hd x00 s1 in
      let c2 := hd x00 s2 in
      if u8 c1 =? u8 c2 then
        if u8 c1 =? 0 then 0 else strncmp (tl s1) (tl s2) n'
      else u8 c1 - u8 c2
  end.

(** The number of bytes before the first NUL of [l]; [None] when [l] holds
    no NUL, that is when [strlen] would run off the object. *)
Fixpoint cstrlen (l : list byte) : option Z :=
  match l with
  | [] => None
  | b :: l' =>
      if u8 b =? 0 then Some 0
      else match cstrlen l' with Some k => Some (k + 1) | None => None end
  end.

(** The bytes of [l] before its first NUL (what ["%s"] prints). *)
Fixpoint cstr (l : list byte) : list byte :=
  match l with
  | [] => []
  | b :: l' => if u8 b =? 0 then [] else b :: cstr l'
  end.

(** The bytes of the image from offset [off] on. *)
Definition from (d : list byte) (off : Z) : list byte :=
  if 0 <=? off then skipn (Z.to_nat off) d else [].

(** [strlen(d + off)], a [Fault] when no NUL follows inside the image. *)
Definition strlen_at (d : list byte) (off : Z) : result Z :=
  match cstrlen (from d off) with
  | Some k => Ret k
  | None => Fault (OutOfBounds (len d))
  end.

(** [d[off]], a [Fault] outside the image. *)
Definition rd_at (d : list byte) (off : Z) : result byte :=
  match rd d off with
  | Some b => Ret b
  | None => Fault (OutOfBounds off)
  end.

(** [strstr(s, "=") - s]: the index of the first ['='], if any. *)
Fixpoint index_of_eq (s : list byte) : option Z :=
  match s with
  | [] => None
  | b :: s' =>
      if u8 b =? 61 then Some 0
      else match index_of_eq s' with Some k => Some (k + 1) | None => None end
  end.

(* ================================================================= *)
(** ** [nvram_find_partition], nvram.c:708 *)

(** The [for] loop that looks for [start] in the table: the index of the
    first entry whose pointer is [start], or [nparts]. *)
Fixpoint index_of_start (start : Z) (tbl : list (Z * partition_header))
    : nat :=
  match tbl with
  | [] => O
  | e :: tbl' =>
      if fst e =? start then O else S (index_of_start start tbl')
  end.

(** The test of the search loop; [name = None] is the NULL name. *)
Definition partition_matches (signature : byte) (name : option (list byte))
    (phead : partition_header) : bool :=
  ((u8 signature =? 0) || (u8 signature =? u8 (ph_signature phead)))
  && match name with
     | None => true
     | Some nm => strncmp nm (ph_name phead) 12 =? 0
     end.

(** The [while (i < nvram->nparts)] loop over the entries from [i] on. *)
Fixpoint find_from (signature : byte) (name : option (list byte))
    (tbl : list (Z * partition_header)) : option (Z * partition_header) :=
  match tbl with
  | [] => None
  | e :: tbl' =>
      if partition_matches signature name (snd e) then Some e
      else find_from signature name tbl'
  end.

(** [start = None] is the NULL start. *)
Definition nvram_find_partition (nv : nvram) (signature : byte)
    (name : option (list byte)) (start : option Z)
    : option (Z * partition_header) :=
  let i := match start with
           | None => O
           | Some s => S (index_of_start s (parts nv))
           end in
  find_from signature name (skipn i (parts nv)).

(** The header carries the name [nm] followed by NUL padding: the bytes
    of [nm], a NUL, and whatever fills the rest of the field. *)
Definition named (nm : list byte) (h : partition_header) : Prop :=
  exists rest, ph_name h = nm ++ x00 :: rest.

(** A table with two partitions named "common". *)
Definition two_common_nvram : nvram :=
  mk_nvram [] 96
    [ (0, mk_header x70 x00 2 (bytes "common" ++ repeat x00 6));
      (32, mk_header x50 x00 2 (bytes "of-config" ++ repeat x00 3));
      (64, mk_header x70 x00 2 (bytes "common" ++ repeat x00 6)) ].

(* ================================================================= *)
(** ** The backing store *)

(** The file behind [nvram->fd]: its bytes, the file position, and the
    number of bytes the device accepts on the next [write] (a negative
    [f_room] makes the write fail).  Reads do not fail. *)
Record fdstate : Type := mk_fd {
  f_bytes : list byte;
  f_pos   : Z;
  f_room  : Z
}.

(** [read(fd, buf, n)]: the bytes read, and the advanced position. *)
Definition sys_read (f : fdstate) (n : Z) : list byte * fdstate :=
  let got := firstn (Z.to_nat n) (from (f_bytes f) (f_pos f)) in
  (got, mk_fd (f_bytes f) (f_pos f + len got) (f_room f)).

(** [lseek(fd, offset, SEEK_SET)]. *)
Definition sys_lseek_set (f : fdstate) (offset : Z) : Z * fdstate :=
  if offset <? 0 then (-1, f)
  else (offset, mk_fd (f_bytes f) offset (f_room f)).

(** [lseek(fd, offset, SEEK_CUR)]. *)
Definition sys_lseek_cur (f : fdstate) (offset : Z) : Z * fdstate :=
  if f_pos f + offset <? 0 then (-1, f)
  else (f_pos f + offset, mk_fd (f_bytes f) (f_pos f + offset) (f_room f)).

(** [buf] with [src] copied in at [off]. *)
Definition poke (buf : list byte) (off : Z) (src : list byte) : list byte :=
  firstn (Z.to_nat off) buf ++ src
  ++ skipn (Z.to_nat off + List.length src) buf.

(** [write(fd, buf, len buf)]: the count transferred and the new file. *)
Definition sys_write (f : fdstate) (buf : list byte) : Z * fdstate :=
  if f_room f <? 0 then (-1, f)
  else
    let n := Z.min (len buf) (f_room f) in
    let src := firstn (Z.to_nat n) buf in
    let gap := repeat x00 (Z.to_nat (f_pos f) - List.length (f_bytes f)) in
    (n, mk_fd (poke (f_bytes f ++ gap) (f_pos f) src) (f_pos f + n)
          (f_room f - n)).

(** The session: the parsed image, the backing store and the output. *)
Record world : Type := mk_world {
  w_nvram : nvram;
  w_fd    : fdstate;
  w_out   : list msg
}.

(** [say] records a message in the trace.  The store of its text into the
    buffer of [_msg] is followed by [err_msg], below. *)
Definition say (w : world) (m : msg) : world :=
  mk_world (w_nvram w) (w_fd w) (w_out w ++ [m]).

Definition with_fd (w : world) (f : fdstate) : world :=
  mk_world (w_nvram w) f (w_out w).

(* ================================================================= *)
(** ** [_msg], [err_msg] and [warn_msg], nvram.c:137-185 *)

(** ['\n'], ['\t'] and the double quote. *)
Definition nl : byte := x0a.

Definition tab : byte := x09.

Definition dq : byte := x22.

(** What ["%d"] prints. *)
Definition dec (n : Z) : list byte :=
  bytes (NilZero.string_of_int (Z.to_int n)).

Definition MAXLINE : Z := 4096.

(** [_msg] builds the message in its local [char buf[MAXLINE]]:
    [sprintf(buf, "%s: %s", nvram_cmdname, kind)], where [kind] is
    "ERROR: " or "WARNING: ", then [vsprintf(buf + n, fmt, ap)], whose
    output is [text], and the closing NUL.  [msg_bytes] is the number of
    bytes the two calls store. *)
Definition msg_bytes (nvram_cmdname kind text : list byte) : Z :=
  len nvram_cmdname + len (bytes ": ") + len kind + len text + 1.

(** Neither call is told the size of [buf]: a message of more than
    [MAXLINE] bytes is stored past its end. *)
Definition _msg (nvram_cmdname kind text : list byte) : result unit :=
  if msg_bytes nvram_cmdname kind text <=? MAXLINE then Ret tt
  else Fault (BufferOverrun (msg_bytes nvram_cmdname kind text)).

Definition err_msg (nvram_cmdname text : list byte) : result unit :=
  _msg nvram_cmdname (bytes "ERROR: ") text.

(** [nvram_cmdname] is [argv[0]] (nvram.c:1482) and [filename] is
    [nvram->filename]; both are parameters of the functions below that
    print a string of the command line, the partition name or the
    assignment, which [main] takes from [optarg] as they come.  Those calls
    run [err_msg] on the text of their format, and the message is recorded
    (by [say], or as a [note]) when the text has gone into the buffer.  A
    string is the list of its characters; ["%s"] prints them up to the
    first NUL.  The other messages are recorded only. *)

(** nvram.c:1353. *)
Definition no_partition_text (pname : list byte) : list byte :=
  bytes "there is no " ++ [dq] ++ cstr pname ++ [dq] ++ bytes " partition!"
  ++ [nl].

(** nvram.c:1383. *)
Definition no_config_var_text (config_var pname : list byte) : list byte :=
  bytes "cannot update " ++ cstr config_var ++ [nl; tab]
  ++ bytes "The config var does not exist in the " ++ [dq] ++ cstr pname
  ++ [dq] ++ bytes " partition" ++ [nl].

(** nvram.c:1401. *)
Definition no_room_text (config_var pname : list byte) : list byte :=
  bytes "cannot update config var to" ++ [dq] ++ cstr config_var ++ [dq]
  ++ bytes "." ++ [nl; tab] ++ bytes "There is not enough room in the "
  ++ [dq] ++ cstr pname ++ [dq] ++ bytes " partition" ++ [nl].

(** nvram.c:1423. *)
Definition corrupt_text (pname : list byte) : list byte :=
  bytes "the " ++ [dq] ++ cstr pname ++ [dq]
  ++ bytes " partition appears to be corrupt" ++ [nl].

(** nvram.c:1433. *)
Definition no_room_tail_text (config_var pname : list byte) : list byte :=
  bytes "cannot update open firmware config var to " ++ [dq]
  ++ cstr config_var ++ [dq] ++ bytes "." ++ [nl; tab]
  ++ bytes "There is not enough room in the " ++ [dq] ++ cstr pname ++ [dq]
  ++ bytes " partition" ++ [nl].

(** nvram.c:1454. *)
Definition short_write_text (len_ : Z) (pname filename : list byte)
    (part_size : Z) : list byte :=
  bytes "only wrote " ++ dec len_ ++ bytes " bytes of the " ++ [dq]
  ++ cstr pname ++ [dq] ++ bytes " partition back" ++ [nl; tab]
  ++ bytes "to " ++ cstr filename ++ bytes ", expected to write "
  ++ dec part_size ++ bytes " bytes" ++ [nl].

(** nvram.c:1182. *)
Definition no_such_partition_text (name : list byte) : list byte :=
  bytes "there is no " ++ cstr name ++ bytes " partition!" ++ [nl].

(** nvram.c:1279. *)
Definition no_of_partition_text (pname : list byte) : list byte :=
  bytes "There is no Open Firmware " ++ [dq] ++ cstr pname ++ [dq]
  ++ bytes " partition!" ++ [nl].

(** nvram.c:1308. *)
Definition no_of_partition_for_var_text (pname : list byte) : list byte :=
  bytes "There is no Open Firmware " ++ [dq] ++ cstr pname ++ [dq]
  ++ bytes " partition." ++ [nl].

(** *** [nvram_find_fd_partition], nvram.c:642 *)

(** The [while (! found)] loop; answers the return code when the function
    leaves from inside the loop, and [None] when the loop ends with
    [found] set. *)
Fixpoint find_fd_loop (fuel : nat) (w : world) (name : list byte)
    : result (option Z * world) :=
  match fuel with
  | O => OutOfFuel
  | S fuel' =>
      let (buf, f) := sys_read (w_fd w) 16 in
      let w := with_fd w f in
      let len_ := len buf in
      if len_ =? 0 then Ret (Some (-1), say w (Err_fd_not_found name))
      else if negb (len_ =? 16) then Ret (Some (-1), say w Err_invalid_read)
      else
        match read_header buf 0 with
        | None => Fault (OutOfBounds 0)
        | Some phead =>
            if strncmp (ph_name phead) name 12 =? 0 then Ret (None, w)
            else
              let offset := ph_length phead * NVRAM_BLOCK_SIZE - len_ in
              let (r, f) := sys_lseek_cur (w_fd w) offset in
              if r =? -1 then Ret (Some (-1), say w Err_seek)
              else find_fd_loop fuel' (with_fd w f) name
        end
  end.

Definition nvram_find_fd_partition (fuel : nat) (w : world)
    (name : list byte) : result (Z * world) :=
  let (r, f) := sys_lseek_set (w_fd w) 0 in
  if r =? -1 then Ret (-1, say w Err_seek_begin)
  else
    r <- find_fd_loop fuel (with_fd w f) name ;;
    match r with
    | (Some rc, w) => Ret (rc, w)
    | (None, w) =>
        let (r, f) := sys_lseek_cur (w_fd w) (-16) in
        if r =? -1 then Ret (-1, say w (Err_seek_back name))
        else Ret (0, with_fd w f)
    end.

(* ================================================================= *)
(** ** [update_of_config_var], nvram.c:1341 *)

(** The loop that looks for the config variable (nvram.c:1373): answers
    [found] and the final [data_offset].  A read of [strncmp] past the end
    of the image compares as a NUL; the [strlen] that follows the failed
    comparison then reports the fault. *)
Fixpoint find_config_var (fuel : nat) (d : list byte) (config_var : list byte)
    (config_name_len : Z) (data_offset : Z) : result (bool * Z) :=
  match fuel with
  | O => OutOfFuel
  | S fuel' =>
      b <- rd_at d data_offset ;;
      if u8 b =? 0 then Ret (false, data_offset)
      else if strncmp (from d data_offset) config_var
                (Z.to_nat config_name_len) =? 0
      then Ret (true, data_offset)
      else
        k <- strlen_at d data_offset ;;
        find_config_var fuel' d config_var config_name_len
          (data_offset + k + 1)
  end.

(** The loop that finds the end of the name/value pairs (nvram.c:1417). *)
Fixpoint skip_config_vars (fuel : nat) (d : list byte) (data_offset : Z)
    : result Z :=
  match fuel with
  | O => OutOfFuel
  | S fuel' =>
      b <- rd_at d data_offset ;;
      if u8 b =? 0 then Ret data_offset
      else
        k <- strlen_at d data_offset ;;
        skip_config_vars fuel' d (data_offset + k + 1)
  end.

(** [n] bytes of the image from [off] on (the source of a [memcpy]). *)
Definition block (d : list byte) (off n : Z) : list byte :=
  firstn (Z.to_nat n) (from d off).

(** What the first part of [update_of_config_var] leaves: either the
    function has returned [rc], or the new image of the partition is
    ready to be written. *)
Inductive prepared : Type :=
| Refused (rc : Z) (w : world)
| Image (new_part : list byte) (part_size : Z) (new_phead : partition_header).

(** nvram.c:1351-1443: the partition and the variable are looked up and
    the new image [new_part] is built.  The two scans of the partition
    advance by at least one byte per step and are given the length of the
    image as fuel.  [malloc] is assumed to succeed. *)
Definition update_prepare (nvram_cmdname : list byte) (w : world)
    (config_var pname : list byte) : result prepared :=
  let d := data (w_nvram w) in
  match nvram_find_partition (w_nvram w) x00 (Some pname) None with
  | None =>
      _ <- err_msg nvram_cmdname (no_partition_text pname) ;;
      Ret (Refused (-1) (say w (Err_no_partition pname)))
  | Some (phead, ph) =>
      let part_size := ph_length ph * NVRAM_BLOCK_SIZE in
      let data_offset := phead + 16 in
      let new_part := repeat x00 (Z.to_nat part_size) in
      match index_of_eq config_var with
      | None => Fault NullPointer
      | Some eq_idx =>
          let config_name_len := eq_idx + 1 in
          r <- find_config_var (S (List.length d)) d config_var
                 config_name_len data_offset ;;
          let (found, data_offset) := r in
          if negb found then
            _ <- err_msg nvram_cmdname (no_config_var_text config_var pname) ;;
            Ret (Refused (-1) (say w (Err_no_config_var config_var pname)))
          else
            (* memcpy(new_part, phead, data_offset - (char * )phead) *)
            if part_size <? data_offset - phead then
              Fault (BufferOverrun (data_offset - phead))
            else
            let new_part :=
              poke new_part 0 (block d phead (data_offset - phead)) in
            let new_part_offset := data_offset - phead in
            let new_part_end := part_size in
            if new_part_offset + len config_var + 1 >=? new_part_end then
              _ <- err_msg nvram_cmdname (no_room_text config_var pname) ;;
              Ret (Refused (-1) (say w (Err_no_room config_var pname)))
            else
            let new_part :=
              poke new_part new_part_offset (config_var ++ [x00]) in
            let new_part_offset := new_part_offset + len config_var + 1 in
            k <- strlen_at d data_offset ;;
            let data_offset := data_offset + k + 1 in
            let tmp_offset := data_offset in
            data_offset <- skip_config_vars (S (List.length d)) d data_offset ;;
            b1 <- rd_at d (data_offset - 1) ;;
            b0 <- rd_at d data_offset ;;
            if negb (u8 b1 =? 0) && negb (u8 b0 =? 0) then
              _ <- err_msg nvram_cmdname (corrupt_text pname) ;;
              Ret (Refused (-1) (say w (Err_corrupt pname)))
            else
            let data_offset := data_offset + 1 in
            if new_part_offset + (data_offset - tmp_offset) >? new_part_end
            then
              _ <- err_msg nvram_cmdname
                     (no_room_tail_text config_var pname) ;;
              Ret (Refused (-1) (say w (Err_no_room_tail config_var pname)))
            else
            let new_part :=
              poke new_part new_part_offset
                (block d tmp_offset (data_offset - tmp_offset)) in
            match read_header new_part 0 with
            | None => Fault (BufferOverrun 16)
            | Some new_phead =>
                Ret (Image (poke new_part 1 [checksum new_phead]) part_size
                       new_phead)
            end
      end
  end.

(** nvram.c:1446-1460: the partition is located in the backing store and
    the new image is written with one [write]. *)
Definition update_commit (nvram_cmdname filename : list byte) (fuel : nat)
    (w : world) (pname : list byte)
    (new_part : list byte) (part_size : Z) (new_phead : partition_header)
    : result (Z * world) :=
  r <- nvram_find_fd_partition fuel w (ph_name new_phead) ;;
  let (rc, w) := r in
  if negb (rc =? 0) then Ret (-1, w)
  else
    let (len_, f) := sys_write (w_fd w) new_part in
    let w := with_fd w f in
    if negb (len_ =? part_size) then
      _ <- err_msg nvram_cmdname
             (short_write_text len_ pname filename part_size) ;;
      Ret (0, say w (Err_short_write len_ pname part_size))
    else Ret (0, w).

(** [fuel] bounds the header walk of [nvram_find_fd_partition]. *)
Definition update_of_config_var (nvram_cmdname filename : list byte)
    (fuel : nat) (w : world) (config_var pname : list byte)
    : result (Z * world) :=
  r <- update_prepare nvram_cmdname w config_var pname ;;
  match r with
  | Refused rc w => Ret (rc, w)
  | Image new_part part_size new_phead =>
      update_commit nvram_cmdname filename fuel w pname new_part part_size
        new_phead
  end.

(** *** Config records, as the specification describes them *)

(** Consecutive NUL-terminated strings. *)
Definition records_image (recs : list (list byte)) : list byte :=
  flat_map (fun r => r ++ [x00]) recs.

Definition no_nul (s : list byte) : Prop := Forall (fun b => u8 b <> 0) s.

Definition no_eq (s : list byte) : Prop := Forall (fun b => u8 b <> 61) s.

(** A record is a non-empty string. *)
Definition wf_record (r : list byte) : Prop := r <> [] /\ no_nul r.

(** The name portion of ["name=value"]: the text before the first ['=']. *)
Definition name_portion (s : list byte) : option (list byte) :=
  match index_of_eq s with
  | Some k => Some (firstn (Z.to_nat k) s)
  | None => None
  end.

(** A small image: one 2-block partition "common" holding ["foo=1"] and
    ["bar=2"]. *)
Definition common_header : partition_header :=
  mk_header x70 x00 2 (bytes "common" ++ repeat x00 6).

Definition common_payload : list byte :=
  records_image [bytes "foo=1"; bytes "bar=2"] ++ repeat x00 4.

Definition common_image : list byte :=
  encode_header common_header ++ common_payload.

Definition common_nvram : nvram :=
  mk_nvram common_image 32 [(0, common_header)].

Definition common_world (room : Z) : world :=
  mk_world common_nvram (mk_fd common_image 0 room) [].

(** Assignments with a value of 4096 bytes, the longest value a config
    record may have. *)
Definition long_assignment_foo : list byte :=
  bytes "foo=" ++ repeat x41 4096.

Definition long_assignment_baz : list byte :=
  bytes "baz=" ++ repeat x41 4096.

(* ================================================================= *)
(** ** The VPD decoder: [dump_vpd], nvram.c:861 *)

(** The decoder runs in a state that logs every access to the image, as
    the byte range [(addr, n)] it covers, and collects the output.  A read
    that leaves the image is logged and then faults. *)
Record dstate : Type := mk_dstate {
  d_reads : list (Z * Z);
  d_out   : list msg
}.

Definition D (A : Type) : Type := dstate -> result A * dstate.

Definition dret {A : Type} (a : A) : D A := fun s => (Ret a, s).

Definition dbind {A B : Type} (m : D A) (k : A -> D B) : D B :=
  fun s =>
    match m s with
    | (Ret a, s') => k a s'
    | (Fault f, s') => (Fault f, s')
    | (OutOfFuel, s') => (OutOfFuel, s')
    end.

Notation "x <~ m ;; k" := (dbind m (fun x => k))
  (at level 61, m at next level, right associativity).

Definition dfault {A : Type} (f : fault) : D A := fun s => (Fault f, s).

Definition dfuel {A : Type} : D A := fun s => (OutOfFuel, s).

Definition emit (m : msg) : D unit :=
  fun s => (Ret tt, mk_dstate (d_reads s) (d_out s ++ [m])).

(** [*p]: one byte of the image. *)
Definition rdb (d : list byte) (p : Z) : D byte :=
  fun s =>
    let s' := mk_dstate (d_reads s ++ [(p, 1)]) (d_out s) in
    match rd d p with
    | Some b => (Ret b, s')
    | None => (Fault (OutOfBounds p), s')
    end.

(** The source of [memcpy(buf, p, n)]: [n] bytes of the image. *)
Definition rdblock (d : list byte) (p n : Z) : D (list byte) :=
  fun s =>
    let s' := mk_dstate (d_reads s ++ [(p, n)]) (d_out s) in
    if (0 <=? p) && (p + n <=? len d) then (Ret (block d p n), s')
    else (Fault (OutOfBounds (len d)), s').

(** [getvalue], nvram.c:775: a two-byte length, low byte first, then the
    value; [buf] is the 4096-byte [value] of [dump_vpd], so that
    [buf[len] = 0] needs [len < 4096]. *)
Definition getvalue (d : list byte) (p : Z) : D (Z * list byte) :=
  lo <~ rdb d p ;;
  hi <~ rdb d (p + 1) ;;
  let len_ := Z.lor (u8 lo) (Z.shiftl (u8 hi) 8) in
  let p := p + 2 in
  buf <~ rdblock d p len_ ;;
  if 4096 <=? len_ then dfault (BufferOverrun len_)
  else dret (p + len_, buf).

(** [getsmallvalue], nvram.c:794: a one-byte length, then the value; [buf]
    is the 256-byte [value] of [printVPDfield]. *)
Definition getsmallvalue (d : list byte) (p : Z) : D (Z * list byte) :=
  n <~ rdb d p ;;
  let len_ := u8 n in
  let p := p + 1 in
  buf <~ rdblock d p len_ ;;
  dret (p + len_, buf).

(** [strcmp(a, b) == 0] on the strings held in two buffers. *)
Definition cstr_eqb (a b : list byte) : bool :=
  if list_eq_dec Byte.byte_eq_dec (cstr a) (cstr b) then true else false.

(** [lookupfield], nvram.c:813.  The table [descs] is defined in nvram.h,
    which is not among the sources; it is a parameter here: a list of
    (field name, description). *)
Definition lookupfield (descs : list (list byte * list byte))
    (field : list byte) : option (list byte) :=
  match find (fun e => cstr_eqb field (fst e)) descs with
  | Some e => Some (snd e)
  | None => None
  end.

(** [printVPDfield], nvram.c:834. *)
Definition printVPDfield (descs : list (list byte * list byte))
    (d : list byte) (p : Z) (show_all : bool) : D Z :=
  f0 <~ rdb d p ;;
  f1 <~ rdb d (p + 1) ;;
  let field := [f0; f1] in
  let p := p + 2 in
  r <~ getsmallvalue d p ;;
  let (p, value) := r in
  match lookupfield descs field with
  | Some fname =>
      _ <~ emit (Out_vpd_field fname (cstr value)) ;; dret p
  | None =>
      if show_all then
        _ <~ emit (Out_vpd_field (cstr field) (cstr value)) ;; dret p
      else dret p
  end.

(** [while (p < vpd_endp) p = printVPDfield(p, show_all);] *)
Fixpoint vpd_fields (fuel : nat) (descs : list (list byte * list byte))
    (d : list byte) (p vpd_endp : Z) (show_all : bool) : D Z :=
  match fuel with
  | O => dfuel
  | S fuel' =>
      if p <? vpd_endp then
        p <~ printVPDfield descs d p show_all ;;
        vpd_fields fuel' descs d p vpd_endp show_all
      else dret p
  end.

(** [while ( *p != 0x79)]: the keyword blocks up to the end tag. *)
Fixpoint vpd_blocks (fuel : nat) (descs : list (list byte * list byte))
    (d : list byte) (p : Z) (show_all : bool) : D Z :=
  match fuel with
  | O => dfuel
  | S fuel' =>
      b <~ rdb d p ;;
      if u8 b =? 121 then dret p
      else
        let p := p + 1 in
        lo <~ rdb d p ;;
        hi <~ rdb d (p + 1) ;;
        let vpdlen := Z.lor (u8 lo) (Z.shiftl (u8 hi) 8) in
        let p := p + 2 in
        let vpd_endp := p + vpdlen in
        p <~ vpd_fields fuel' descs d p vpd_endp show_all ;;
        vpd_blocks fuel' descs d p show_all
  end.

(** [while ( *p && p < p_end)], nvram.c:877: [*p] is read before [p] is
    compared with [p_end].  The tests of [*p] inside the body look at the
    byte just read.  Answers the final [p]. *)
Fixpoint vpd_descriptors (fuel : nat) (descs : list (list byte * list byte))
    (d : list byte) (p p_end : Z) (show_all : bool) : D Z :=
  match fuel with
  | O => dfuel
  | S fuel' =>
      b <~ rdb d p ;;
      if negb (u8 b =? 0) && (p <? p_end) then
        if u8 b =? 130 then
          let p := p + 1 in
          r <~ getvalue d p ;;
          let (p, value) := r in
          _ <~ emit (Out_id_string (cstr value)) ;;
          p <~ vpd_blocks fuel' descs d p show_all ;;
          let p := p + 1 in
          let p := p + 1 in
          vpd_descriptors fuel' descs d p p_end show_all
        else if u8 b =? 0 then dret p
        else vpd_descriptors fuel' descs d p p_end show_all
      else dret p
  end.

(** The decoding of one payload [p .. p_end), with the test after the
    loop (nvram.c:903). *)
Definition vpd_decode (fuel : nat) (descs : list (list byte * list byte))
    (d : list byte) (p p_end : Z) (show_all : bool) : D Z :=
  p <~ vpd_descriptors fuel descs d p p_end show_all ;;
  b <~ rdb d p ;;
  if negb (u8 b =? 0) && (p <? p_end) then
    _ <~ emit (Warn_unknown_descriptor b) ;; dret 0
  else dret 0.

(** [NVRAM_SIG_HW] is defined in nvram.h and is a parameter here. *)
Definition dump_vpd (fuel : nat) (NVRAM_SIG_HW : byte)
    (descs : list (list byte * list byte)) (nv : nvram) (show_all : bool)
    : D Z :=
  match nvram_find_partition nv NVRAM_SIG_HW (Some (bytes "ibm,vpd")) None with
  | None => _ <~ emit Err_no_vpd ;; dret (-1)
  | Some (phead, ph) =>
      let p := phead + 16 in
      let p_end := phead + ph_length ph * 16 in
      vpd_decode fuel descs (data nv) p p_end show_all
  end.

Definition dstart : dstate := mk_dstate [] [].

(** Some access of the log reaches a byte at or beyond [p_end]. *)
Definition reads_beyond (p_end : Z) (s : dstate) : bool :=
  existsb (fun r => (0 <? snd r) && (p_end <? fst r + snd r)) (d_reads s).

(** An "ibm,vpd" partition of [blocks] 16-byte blocks around [payload]. *)
Definition vpd_header (sig : byte) (blocks : Z) : partition_header :=
  mk_header sig x00 blocks (bytes "ibm,vpd" ++ repeat x00 5).

Definition vpd_nvram (sig : byte) (payload : list byte) : nvram :=
  let blocks := 1 + len payload / 16 in
  let img := encode_header (vpd_header sig blocks) ++ payload in
  mk_nvram img (len img) [(0, vpd_header sig blocks)].

(** The five bytes [0x82, 0x02, 'I', 'D', 0x79] of the specification's
    test, padded with NULs to one block. *)
Definition vpd_id_payload : list byte :=
  [x82; x02] ++ bytes "ID" ++ [x79] ++ repeat x00 11.

(** The same identification string with the two-byte length [getvalue]
    reads, the end tag and its checksum byte, filling one block exactly. *)
Definition vpd_full_payload : list byte :=
  [x82; x0b; x00] ++ bytes "IDSTRING012" ++ [x79; x00].

(** *** Well-formed VPD, in the format the decoder reads *)

(** A field: a two-byte key, a one-byte length and the value. *)
Record vpd_field : Type := mk_field {
  vf_key0  : byte;
  vf_key1  : byte;
  vf_value : list byte
}.

Definition wf_field (f : vpd_field) : Prop := len (vf_value f) < 256.

Definition field_image (f : vpd_field) : list byte :=
  [vf_key0 f; vf_key1 f; byte.of_Z (len (vf_value f))] ++ vf_value f.

Definition fields_image (fs : list vpd_field) : list byte :=
  flat_map field_image fs.

(** A keyword block: a tag byte other than the end tag, the two-byte
    length (low byte first) of its fields, and the fields. *)
Record vpd_block : Type := mk_block {
  vb_tag    : byte;
  vb_fields : list vpd_field
}.

Definition wf_block (b : vpd_block) : Prop :=
  u8 (vb_tag b) <> 121
  /\ Forall wf_field (vb_fields b)
  /\ len (fields_image (vb_fields b)) < 65536.

Definition block_image (b : vpd_block) : list byte :=
  [vb_tag b;
   byte.of_Z (len (fields_image (vb_fields b)) mod 256);
   byte.of_Z (len (fields_image (vb_fields b)) / 256)]
  ++ fields_image (vb_fields b).

Definition blocks_image (bs : list vpd_block) : list byte :=
  flat_map block_image bs.

(** The identification string, the keyword blocks, the end tag 0x79 with
    its checksum byte, and the end byte 0. *)
Definition vpd_image (s : list byte) (bs : list vpd_block) (ck : byte)
    : list byte :=
  [x82; byte.of_Z (len s mod 256); byte.of_Z (len s / 256)]
  ++ s ++ blocks_image bs ++ [x79; ck; x00].

(** The line [printVPDfield] prints for a field, if any. *)
Definition field_lines (descs : list (list byte * list byte))
    (show_all : bool) (f : vpd_field) : list msg :=
  match lookupfield descs [vf_key0 f; vf_key1 f] with
  | Some fname => [Out_vpd_field fname (cstr (vf_value f))]
  | None =>
      if show_all
      then [Out_vpd_field (cstr [vf_key0 f; vf_key1 f]) (cstr (vf_value f))]
      else []
  end.

Definition vpd_lines (descs : list (list byte * list byte))
    (show_all : bool) (s : list byte) (bs : list vpd_block) : list msg :=
  Out_id_string (cstr s)
  :: flat_map (fun b => flat_map (field_lines descs show_all) (vb_fields b)) bs.

(** [m], started in [st], returns [v], prints [out] and only reads bytes
    of the image in [lo, hi). *)
Definition runs {A : Type} (m : D A) (st : dstate) (v : A) (out : list msg)
    (lo hi : Z) : Prop :=
  exists rs,
    m st = (Ret v, mk_dstate (d_reads st ++ rs) (d_out st ++ out))
    /\ Forall (fun r => lo <= fst r /\ fst r + snd r <= hi /\ 0 <= snd r) rs.

(** The identification string "ID" in that format, 0x82, 0x02, 0x00, 'I',
    'D', 0x79, checksum byte, 0x00, padded with NULs to one block. *)
Definition vpd_id_image : list byte :=
  vpd_image (bytes "ID") [] x00 ++ repeat x00 8.

(** The same with one keyword block that holds the field SN = "ab",
    padded to two blocks. *)
Definition vpd_sn_image : list byte :=
  vpd_image (bytes "ID") [mk_block x84 [mk_field "S" "N" (bytes "ab")]] x00
  ++ repeat x00 16.

(** A payload that starts with a byte that is neither 0x82 nor 0. *)
Definition vpd_unknown_payload : list byte := x01 :: repeat x00 15.

(* ================================================================= *)
(** ** The error-log decoder: [dump_errlog], nvram.c:920 *)

(** Pointers of this function are subtracted and tested against NULL, so
    they are kept as machine addresses: [data_addr] is the address of
    [nvram->data], NULL is 0, and a [uint16_t *] into the payload at word
    index [i] is [p + 2 * i]. *)

(** [p[i]] for the [uint16_t *p] at image offset [p_off]. *)
Definition word_at (d : list byte) (p_off i : Z) : result Z :=
  hi <- rd_at d (p_off + 2 * i) ;;
  lo <- rd_at d (p_off + 2 * i + 1) ;;
  Ret (be16 hi lo).

(** [offset + i < p_max ? p + offset + i : 0] with [offset = p[i]/2 + 1]. *)
Definition resolve (p_addr p_max i raw : Z) : Z :=
  let offset := raw / 2 + 1 in
  if offset + i <? p_max then p_addr + 2 * (offset + i) else 0.

(** The difference of two [uint16_t *], converted to [int]. *)
Definition ptrdiff16 (a b : Z) : Z := int32 ((a - b) / 2).

(** The loop over the per-cpu offsets (nvram.c:972): [i] is advanced for
    every cpu, the offset is read for the first [MAX_CPUS] only. *)
Fixpoint errlog_cpu_offsets (n : nat) (MAX_CPUS : Z) (d : list byte)
    (p_off p_addr p_max : Z) (cpu i : Z) (cpu_regs : list Z)
    : result (Z * list Z) :=
  match n with
  | O => Ret (i, cpu_regs)
  | S n' =>
      let i := i + 1 in
      if cpu <? MAX_CPUS then
        raw <- word_at d p_off i ;;
        errlog_cpu_offsets n' MAX_CPUS d p_off p_addr p_max (cpu + 1) i
          (cpu_regs ++ [resolve p_addr p_max i raw])
      else
        errlog_cpu_offsets n' MAX_CPUS d p_off p_addr p_max (cpu + 1) i
          cpu_regs
  end.

(** The loop that dumps the cpu blocks (nvram.c:1018); [regs] is
    [cpu_regs] from index [cpu] on, closed by the artificial entry. *)
Fixpoint errlog_dump_cpus (p_addr : Z) (cpu : Z) (regs : list Z)
    : list msg :=
  match regs with
  | this :: ((next :: _) as regs') =>
      let len_ := ptrdiff16 next this in
      Out_cpu_regs cpu len_ ((this - p_addr) / 2)
      :: (if len_ <? 4096 then [Out_raw_dump this len_] else [])
      ++ errlog_dump_cpus p_addr (cpu + 1) regs'
  | _ => []
  end.

(** The decoded header: the four kinds of block pointers. *)
Record errlog_header : Type := mk_errlog {
  sys_regs     : Z;
  cpu_regs     : list Z;
  memctrl_data : Z;
  ioctrl_data  : Z
}.

(** [MAX_CPUS] and [NVRAM_SIG_SP] are defined in nvram.h and are
    parameters here.  Answers the return code, the output and, once the
    header is read, the block pointers. *)
Definition dump_errlog (MAX_CPUS : Z) (NVRAM_SIG_SP : byte) (data_addr : Z)
    (nv : nvram) : result (Z * list msg * option errlog_header) :=
  match nvram_find_partition nv NVRAM_SIG_SP (Some (bytes "ibm,err-log"))
          None with
  | None => Ret (-1, [Err_no_errlog], None)
  | Some (phead, ph) =>
      let d := data nv in
      let p_off := phead + 16 in
      let p_addr := data_addr + p_off in
      let p_max := ((ph_length ph - 1) * 16) / 2 in
      if p_max <? 4 then Ret (-1, [Err_corrupt_errlog], None)
      else
        w0 <- word_at d p_off 0 ;;
        let checkstop_count := Z.shiftr w0 8 in
        let out := [Out_checkstops checkstop_count] in
        w1 <- word_at d p_off 1 ;;
        let sys_regs := resolve p_addr p_max 1 w1 in
        num_cpus <- word_at d p_off 2 ;;
        let out := out ++ [Out_cpus num_cpus] in
        r <- errlog_cpu_offsets (Z.to_nat num_cpus) MAX_CPUS d p_off p_addr
               p_max 0 2 [] ;;
        let (i, cpu_regs) := r in
        let num_cpus := if num_cpus >? MAX_CPUS then MAX_CPUS else num_cpus in
        let i := i + 1 in
        num_memctrls <- word_at d p_off i ;;
        let out := out ++ [Out_memctrls num_memctrls] in
        let i := i + 1 in
        wm <- word_at d p_off i ;;
        let memctrl_data := resolve p_addr p_max i wm in
        let i := i + 1 in
        num_ioctrls <- word_at d p_off i ;;
        let out := out ++ [Out_ioctrls num_ioctrls] in
        let i := i + 1 in
        wi <- word_at d p_off i ;;
        let ioctrl_data := resolve p_addr p_max i wi in
        let out :=
          if negb (sys_regs =? 0) && (num_cpus >? 0) then
            out ++ [Out_sys_regs;
                    Out_raw_dump sys_regs
                      (ptrdiff16 (nth 0 cpu_regs 0) sys_regs)]
          else out in
        let out := out ++ errlog_dump_cpus p_addr 0 (cpu_regs ++ [ioctrl_data]) in
        Ret (0, out, Some (mk_errlog sys_regs cpu_regs memctrl_data ioctrl_data))
  end.

(** A block pointer is absent (NULL) or points to a word inside the
    payload of [p_max] words at [p_addr]. *)
Definition null_or_inside (p_addr p_max ptr : Z) : Prop :=
  ptr = 0 \/ exists k, 0 < k < p_max /\ ptr = p_addr + 2 * k.

(** The 16-bit words of a payload, high byte first. *)
Definition words_image (ws : list Z) : list byte :=
  flat_map (fun w => [byte.of_Z (w / 256); byte.of_Z (w mod 256)]) ws.

Definition errlog_header_of (sig : byte) (blocks : Z) : partition_header :=
  mk_header sig x00 blocks (bytes "ibm,err-log" ++ [x00]).

(** An "ibm,err-log" partition of 3 blocks around 16 payload words. *)
Definition errlog_nvram (sig : byte) (ws : list Z) : nvram :=
  let img := encode_header (errlog_header_of sig 3) ++ words_image ws in
  mk_nvram img (len img) [(0, errlog_header_of sig 3)].

(** One cpu whose offset (0xfffe) resolves far outside the 16-word
    payload, and an I/O-controller offset of 0, which resolves to word 8. *)
Definition errlog_absent_cpu : list Z :=
  [0; 65534; 1; 65534; 0; 65534; 0; 0; 0; 0; 0; 0; 0; 0; 0; 0].

(** The same with an I/O-controller offset that resolves outside as well:
    both ends of the cpu block are absent. *)
Definition errlog_absent_cpu_and_io : list Z :=
  [0; 65534; 1; 65534; 0; 65534; 0; 65534; 0; 0; 0; 0; 0; 0; 0; 0].

(** The address of the image in a 64-bit process whose allocator took it
    from a mapping. *)
Definition mapped_data_addr : Z := 0x7fff9c5e0010.

(** [dump_raw_data], nvram.c:467, as far as its first access goes: with
    [end = data + data_len] the loop [while (h < end)] starts at
    [h = data] and its body reads [*h].  Pointers are 64 bits wide and are
    compared as unsigned addresses.  Answers the address of the first byte
    read, if the loop is entered. *)
Definition dump_raw_data_first_read (data data_len : Z) : option Z :=
  let end_ := (data + data_len) mod 2 ^ 64 in
  if data <? end_ then Some data else None.

(* ================================================================= *)
(** ** Text on stdout *)

(** The functions below print text whose layout matters; what they write
    to stdout is kept character for character, as a list of bytes. *)

Definition hex_digit (v : Z) : byte :=
  nth (Z.to_nat v) (bytes "0123456789abcdef") x30.

(** The [w] low hexadecimal digits of [v]: what ["%0wx"] prints for an
    unsigned value below [16 ^ w]. *)
Fixpoint hex (w : nat) (v : Z) : list byte :=
  match w with
  | O => []
  | S w' => hex w' (v / 16) ++ [hex_digit (v mod 16)]
  end.

(** Messages of [err_msg] and [warn_msg] in the functions below. *)
Inductive note : Type :=
| Err_no_such_partition (name : list byte)
    (* "there is no %s partition!" *)
| Err_no_of_partition (pname : list byte)
    (* "There is no Open Firmware \"%s\" partition!" *)
| Err_no_of_partition_for_var (pname : list byte)
    (* "There is no Open Firmware \"%s\" partition." *)
| Err_ran_off_name
    (* "partition corrupt:  ran off end parsing name" *)
| Err_no_eq_sign
    (* "corrupt data:  no = sign found or name > 31 chars" *)
| Err_ran_off_quoted
    (* "partition corrupt: ran off end parsing quoted value" *)
| Err_ran_off_value
    (* "partition corrupt:  ran off end parsing value" *)
| Err_value_too_long
    (* "data value too long for this utility (>4k)" *)
| Warn_short_read (nbytes got : Z)
    (* "expected %d bytes, but only read %d!" *)
| Err_corrupt_eslogs
    (* "Corrupt ibm,es-logs partition in nvram" *)
| Err_no_eslogs
    (* "there is no ibm,es-logs partition!" *)
| Warn_program_limit (num_logs : Z)
    (* "limiting to %d log entries (program limit)" *)
| Warn_partition_limit (num_logs : Z).
    (* "limiting to %d log entries (partition limit)" *)

(* ================================================================= *)
(** ** [dump_raw_data], nvram.c:467 *)

(** [data] is a pointer into the image, kept as a byte offset, and
    [end = data + data_len].  [char] is unsigned, so ["%02x"] prints two
    digits.  A read outside the image is a [Fault], which drops the text
    printed so far. *)

(** The loop over [j]: up to four bytes in hexadecimal, blanks once [h] has
    passed [end].  Answers the advanced [h] and the text. *)
Fixpoint dump_hex_bytes (n : nat) (d : list byte) (h end_ : Z)
    : result (Z * list byte) :=
  match n with
  | O => Ret (h, [])
  | S n' =>
      if h <=? end_ then
        b <- rd_at d h ;;
        r <- dump_hex_bytes n' d (h + 1) end_ ;;
        Ret (fst r, hex 2 (u8 b) ++ snd r)
      else
        r <- dump_hex_bytes n' d h end_ ;;
        Ret (fst r, bytes "  " ++ snd r)
  end.

(** The loop over [i]: four groups, each followed by a blank. *)
Fixpoint dump_hex_groups (n : nat) (d : list byte) (h end_ : Z)
    : result (Z * list byte) :=
  match n with
  | O => Ret (h, [])
  | S n' =>
      g <- dump_hex_bytes 4 d h end_ ;;
      r <- dump_hex_groups n' d (fst g) end_ ;;
      Ret (fst r, snd g ++ bytes " " ++ snd r)
  end.

(** The character shown for a byte: itself from [' '] to ['~'], else a
    dot. *)
Definition printable (b : byte) : byte :=
  if (32 <=? u8 b) && (u8 b <=? 126) then b else x2e.

(** The second loop over [i]: sixteen characters. *)
Fixpoint dump_ascii (n : nat) (d : list byte) (a end_ : Z)
    : result (Z * list byte) :=
  match n with
  | O => Ret (a, [])
  | S n' =>
      if a <=? end_ then
        b <- rd_at d a ;;
        r <- dump_ascii n' d (a + 1) end_ ;;
        Ret (fst r, printable b :: snd r)
      else
        r <- dump_ascii n' d a end_ ;;
        Ret (fst r, bytes " " ++ snd r)
  end.

(** [while (h < end)]: one row per round.  [offset] is an [int] printed
    with ["%08x"]. *)
Fixpoint dump_raw_rows (fuel : nat) (d : list byte) (h a end_ offset : Z)
    : result (list byte) :=
  match fuel with
  | O => OutOfFuel
  | S fuel' =>
      if h <? end_ then
        hx <- dump_hex_groups 4 d h end_ ;;
        asc <- dump_ascii 16 d a end_ ;;
        rest <- dump_raw_rows fuel' d (fst hx) (fst asc) end_ (offset + 16) ;;
        Ret (bytes "0x" ++ hex 8 (wrap32 offset) ++ bytes "  " ++ snd hx
             ++ bytes "|" ++ snd asc ++ bytes "|" ++ [nl] ++ rest)
      else Ret []
  end.

(** Every row advances [h], so [data_len] rounds are enough. *)
Definition dump_raw_data (d : list byte) (data data_len : Z)
    : result (list byte) :=
  dump_raw_rows (S (Z.to_nat data_len)) d data data (data + data_len) 0.

(** A row of the dump, for sixteen bytes [row] at [offset]: 67
    characters. *)
Definition hexdump_group (g : list byte) : list byte :=
  flat_map (fun b => hex 2 (u8 b)) g ++ bytes " ".

Definition hexdump_row (offset : Z) (row : list byte) : list byte :=
  bytes "0x" ++ hex 8 offset ++ bytes "  "
  ++ hexdump_group (firstn 4 row)
  ++ hexdump_group (firstn 4 (skipn 4 row))
  ++ hexdump_group (firstn 4 (skipn 8 row))
  ++ hexdump_group (firstn 4 (skipn 12 row))
  ++ bytes "|" ++ map printable row ++ bytes "|" ++ [nl].

(** The dump of [rows] rows of sixteen bytes. *)
Fixpoint hexdump (rows : nat) (offset : Z) (blk : list byte) : list byte :=
  match rows with
  | O => []
  | S rows' =>
      hexdump_row offset (firstn 16 blk)
      ++ hexdump rows' (offset + 16) (skipn 16 blk)
  end.

(** *** [dump_raw_partition], nvram.c:1175 *)

(** Answers the return code, the text on stdout and the messages. *)
Definition dump_raw_partition (nvram_cmdname : list byte) (nv : nvram)
    (name : list byte) : result (Z * list byte * list note) :=
  match nvram_find_partition nv x00 (Some name) None with
  | None =>
      _ <- err_msg nvram_cmdname (no_such_partition_text name) ;;
      Ret (-1, [], [Err_no_such_partition name])
  | Some (phead, ph) =>
      t <- dump_raw_data (data nv) phead (ph_length ph * NVRAM_BLOCK_SIZE) ;;
      Ret (0, t, [])
  end.

(** A three-block partition "common" after a one-block partition. *)
Definition raw_partitions : list (partition_header * list byte) :=
  [ (header_70_1, []);
    (mk_header x70 x00 3 (bytes "common" ++ repeat x00 6),
     bytes "boot-device=disk" ++ repeat x00 16) ].

(** The [nvram] that [nvram_parse_partitions] leaves for the image of the
    partitions [ps]. *)
Definition parsed (ps : list (partition_header * list byte)) : nvram :=
  mk_nvram (image ps) (len (image ps)) (table_from 0 ps).

(* ================================================================= *)
(** ** [parse_of_common], nvram.c:524 *)

(** [data] is a pointer into the image, kept as a byte offset.  [outname]
    and [outval] are buffers of the caller whose sizes the function does
    not know; each is kept as the bytes written to it, from its start
    on. *)

(** How the first loop ends: inside, by [return 0], or behind it. *)
Inductive name_scan : Type :=
| Name_ran_off (outname : list byte)
| Name_end (p : Z) (outname : list byte).

(** [for (p = data, np = outname; *p && *p != '='; p++)]. *)
Fixpoint parse_name (fuel : nat) (d : list byte) (p p_end : Z)
    (outname : list byte) : result name_scan :=
  match fuel with
  | O => OutOfFuel
  | S fuel' =>
      b <- rd_at d p ;;
      if negb (u8 b =? 0) && negb (u8 b =? 61) then
        let outname := outname ++ [b] in
        if len outname >? 32 then Ret (Name_end p outname)
        else if p >=? p_end then Ret (Name_ran_off outname)
        else parse_name fuel' d (p + 1) p_end outname
      else Ret (Name_end p outname)
  end.

Inductive value_scan : Type :=
| Value_ran_off_quoted (outval : list byte)
| Value_ran_off (outval : list byte)
| Value_end (p : Z) (outval : list byte).

(** [for (np = outval; *p; p++)]: a byte 0xff is followed by a count byte
    whose low seven bits say how often 0xff (high bit set) or 0x00 is
    repeated. *)
Fixpoint parse_value (fuel : nat) (d : list byte) (p p_end : Z)
    (outval : list byte) : result value_scan :=
  match fuel with
  | O => OutOfFuel
  | S fuel' =>
      b <- rd_at d p ;;
      if u8 b =? 0 then Ret (Value_end p outval)
      else if u8 b =? 255 then
        let p := p + 1 in
        if p >=? p_end then Ret (Value_ran_off_quoted outval)
        else
          c <- rd_at d p ;;
          let num := Z.land (u8 c) 127 in
          let ch := if Z.land (u8 c) 128 =? 0 then x00 else xff in
          if len outval + num >? 4096 then Ret (Value_end p outval)
          else
            let outval := outval ++ repeat ch (Z.to_nat num) in
            if p >=? p_end then Ret (Value_ran_off outval)
            else parse_value fuel' d (p + 1) p_end outval
      else
        let outval := outval ++ [b] in
        if len outval >? 4096 then Ret (Value_end p outval)
        else if p >=? p_end then Ret (Value_ran_off outval)
        else parse_value fuel' d (p + 1) p_end outval
  end.

(** Answers the return value, the bytes written to [outname] and to
    [outval], and the messages.  Both loops advance [p] in every round and
    a read outside the image ends them, so the length of the image bounds
    their rounds. *)
Definition parse_of_common (d : list byte) (data data_len : Z)
    : result (Z * list byte * list byte * list note) :=
  let p_end := data + data_len in
  r <- parse_name (S (List.length d)) d data p_end [] ;;
  match r with
  | Name_ran_off outname => Ret (0, outname, [], [Err_ran_off_name])
  | Name_end p outname =>
      let outname := outname ++ [x00] in
      b <- rd_at d p ;;
      if negb (u8 b =? 61) then Ret (0, outname, [], [Err_no_eq_sign])
      else
        let p := p + 1 in
        r <- parse_value (S (List.length d)) d p p_end [] ;;
        match r with
        | Value_ran_off_quoted outval =>
            Ret (0, outname, outval, [Err_ran_off_quoted])
        | Value_ran_off outval =>
            Ret (0, outname, outval, [Err_ran_off_value])
        | Value_end p outval =>
            let outval := outval ++ [x00] in
            b <- rd_at d p ;;
            if negb (u8 b =? 0) then
              Ret (0, outname, outval, [Err_value_too_long])
            else Ret (p - data, outname, outval, [])
        end
  end.

(** *** Quoted values *)

(** A value is a sequence of plain bytes and of runs. *)
Inductive token : Type :=
| Lit (b : byte)
| Run (hi : bool) (n : Z).

Definition wf_token (t : token) : Prop :=
  match t with
  | Lit b => u8 b <> 0 /\ u8 b <> 255
  | Run _ n => 0 <= n < 128
  end.

(** The bytes that stand for a token in the partition. *)
Definition quote (t : token) : list byte :=
  match t with
  | Lit b => [b]
  | Run hi n => [xff; byte.of_Z (n + (if hi then 128 else 0))]
  end.

(** The bytes a token stands for. *)
Definition unquote (t : token) : list byte :=
  match t with
  | Lit b => [b]
  | Run hi n => repeat (if hi then xff else x00) (Z.to_nat n)
  end.

(* ================================================================= *)
(** ** [print_of_config_part], nvram.c:1199 *)

(** [while ( *data != '\0') { printf("%s\n", data); data += strlen(data) + 1; }]:
    every round steps over at least one byte of the image. *)
Fixpoint print_config_vars (fuel : nat) (d : list byte) (data_ : Z)
    : result (list byte) :=
  match fuel with
  | O => OutOfFuel
  | S fuel' =>
      b <- rd_at d data_ ;;
      if u8 b =? 0 then Ret []
      else
        k <- strlen_at d data_ ;;
        rest <- print_config_vars fuel' d (data_ + k + 1) ;;
        Ret (cstr (from d data_) ++ [nl] ++ rest)
  end.

(** The title: the name between double quotes, " Partition", and a line
    of [strlen(pname) + 15] dashes. *)
Definition config_part_title (pname : list byte) : list byte :=
  [x22] ++ pname ++ [x22] ++ bytes " Partition" ++ [nl]
  ++ repeat x2d (Z.to_nat (len pname + 15)) ++ [nl].

(** Answers the return code and the text on stdout. *)
Definition print_of_config_part (nv : nvram) (pname : list byte)
    : result (Z * list byte) :=
  match nvram_find_partition nv x00 (Some pname) None with
  | None => Ret (-1, [])
  | Some (phead, _) =>
      let data_ := phead + 16 in
      vars <- print_config_vars (S (List.length (data nv))) (data nv) data_ ;;
      Ret (0, config_part_title pname ++ vars ++ [nl])
  end.

(* ================================================================= *)
(** ** [print_of_config], nvram.c:1254 *)

Definition name_value_parts : list (list byte) :=
  [bytes "common"; bytes "ibm,setupcfg"; bytes "of-config"].

(** The loop that prints the value of every definition of [config_var] in
    one partition; [rc] becomes 0 at the first one. *)
Fixpoint print_config_var (fuel : nat) (d : list byte)
    (config_var : list byte) (data_ : Z) (rc : Z) : result (Z * list byte) :=
  match fuel with
  | O => OutOfFuel
  | S fuel' =>
      b <- rd_at d data_ ;;
      if u8 b =? 0 then Ret (rc, [])
      else
        let varlen := len config_var in
        e <- rd_at d (data_ + varlen) ;;
        if (u8 e =? 61)
           && (strncmp config_var (from d data_) (Z.to_nat varlen) =? 0)
        then
          _ <- strlen_at d (data_ + varlen + 1) ;;
          k <- strlen_at d data_ ;;
          r <- print_config_var fuel' d config_var (data_ + k + 1) 0 ;;
          Ret (fst r, cstr (from d (data_ + varlen + 1)) ++ [nl] ++ snd r)
        else
          k <- strlen_at d data_ ;;
          print_config_var fuel' d config_var (data_ + k + 1) rc
  end.

(** The first branch with [pname == NULL]: every partition of
    [name_value_parts] is printed and the result is ignored. *)
Fixpoint print_all_parts (nv : nvram) (names : list (list byte))
    : result (list byte) :=
  match names with
  | [] => Ret []
  | nm :: names' =>
      r <- print_of_config_part nv nm ;;
      rest <- print_all_parts nv names' ;;
      Ret (snd r ++ rest)
  end.

(** The first branch with a [pname]: the partition is printed for every
    entry of [name_value_parts] that equals [pname]. *)
Fixpoint print_named_part (nv : nvram) (pname : list byte)
    (names : list (list byte)) (rc : Z) : result (Z * list byte) :=
  match names with
  | [] => Ret (rc, [])
  | nm :: names' =>
      if cstr_eqb pname nm then
        r <- print_of_config_part nv nm ;;
        rest <- print_named_part nv pname names' 0 ;;
        Ret (fst rest, snd r ++ snd rest)
      else print_named_part nv pname names' rc
  end.

(** The second branch with [pname == NULL]: the variable is looked up in
    every partition of [name_value_parts] that exists. *)
Fixpoint print_var_in_parts (nv : nvram) (config_var : list byte)
    (names : list (list byte)) (rc : Z) : result (Z * list byte) :=
  match names with
  | [] => Ret (rc, [])
  | nm :: names' =>
      match nvram_find_partition nv x00 (Some nm) None with
      | None => print_var_in_parts nv config_var names' rc
      | Some (phead, _) =>
          r <- print_config_var (S (List.length (data nv))) (data nv)
                 config_var (phead + 16) rc ;;
          rest <- print_var_in_parts nv config_var names' (fst r) ;;
          Ret (fst rest, snd r ++ snd rest)
      end
  end.

(** [config_var = None] and [pname = None] are the NULL arguments.
    Answers the return code, the text on stdout and the messages. *)
Definition print_of_config (nvram_cmdname : list byte) (nv : nvram)
    (config_var pname : option (list byte))
    : result (Z * list byte * list note) :=
  match config_var with
  | None =>
      match pname with
      | None =>
          t <- print_all_parts nv name_value_parts ;;
          Ret (-1, t, [])
      | Some pname =>
          r <- print_named_part nv pname name_value_parts (-1) ;;
          if negb (fst r =? 0) then
            _ <- err_msg nvram_cmdname (no_of_partition_text pname) ;;
            Ret (fst r, snd r, [Err_no_of_partition pname])
          else Ret (fst r, snd r, [])
      end
  | Some config_var =>
      match pname with
      | None =>
          r <- print_var_in_parts nv config_var name_value_parts (-1) ;;
          Ret (fst r, snd r, [])
      | Some pname =>
          match nvram_find_partition nv x00 (Some pname) None with
          | None =>
              _ <- err_msg nvram_cmdname
                     (no_of_partition_for_var_text pname) ;;
              Ret (-1, [], [Err_no_of_partition_for_var pname])
          | Some (phead, _) =>
              r <- print_config_var (S (List.length (data nv))) (data nv)
                     config_var (phead + 16) (-1) ;;
              Ret (fst r, snd r, [])
          end
      end
  end.

(** *** The definitions of a variable among the records *)

(** The value of the record [r] if it is a definition [var=value]. *)
Fixpoint value_of (var r : list byte) : option (list byte) :=
  match var, r with
  | [], b :: v => if u8 b =? 61 then Some v else None
  | c :: var', b :: r' => if u8 b =? u8 c then value_of var' r' else None
  | _, [] => None
  end.

(** The lines [print_of_config] prints for [var]: the values of its
    definitions, in the order of the records. *)
Definition value_lines (var : list byte) (recs : list (list byte))
    : list byte :=
  flat_map (fun r => match value_of var r with
                     | Some v => v ++ [nl]
                     | None => []
                     end) recs.

Definition defines (var : list byte) (recs : list (list byte)) : bool :=
  existsb (fun r => match value_of var r with
                    | Some _ => true
                    | None => false
                    end) recs.

(** A partition "common" in which [foo] is defined twice, followed by a
    second partition. *)
Definition twice_payload : list byte :=
  records_image [bytes "foo=1"; bytes "bar=2"; bytes "foo=3"] ++ repeat x00 14.

Definition twice_image : list byte :=
  encode_header (mk_header x70 x00 3 (bytes "common" ++ repeat x00 6))
  ++ twice_payload ++ encode_header header_70_1.

Definition twice_nvram : nvram :=
  mk_nvram twice_image 64
    [(0, mk_header x70 x00 3 (bytes "common" ++ repeat x00 6));
     (48, header_70_1)].

(** The partition that [update_of_config_var] writes for the partition
    with the header [ph] whose records are [before], the record to
    replace, and [tail]: the header with its checksum computed anew, the
    records with [config_var] in the place of the old record, the empty
    record and NULs up to the size [payload_len] of the payload. *)
Definition updated_header (ph : partition_header) : partition_header :=
  mk_header (ph_signature ph) (checksum ph) (ph_length ph) (ph_name ph).

Definition updated_payload (before : list (list byte)) (config_var : list byte)
    (tail : list (list byte)) (payload_len : Z) : list byte :=
  records_image (before ++ config_var :: tail)
  ++ repeat x00
       (Z.to_nat (payload_len
                  - len (records_image (before ++ config_var :: tail)))).

(** The payload of a partition of name/value pairs: the records [before],
    the record [old], the records [tail], the empty record that closes
    them, and whatever fills the rest of the partition. *)
Definition config_payload (before : list (list byte)) (old : list byte)
    (tail : list (list byte)) (rest : list byte) : list byte :=
  records_image before ++ old ++ x00 :: records_image tail ++ x00 :: rest.

(* ================================================================= *)
(** ** [nvram_read], nvram.c:387 *)

(** [nvram->data] is the buffer [main] allocates, kept with its allocated
    length; [read] stores what it transfers at [p], and a store past the
    end of the buffer is a [Fault].  Reads of the backing store do not
    fail, so the branch for [len == -1] is not taken; [verbose] is 0. *)

(** The [for] loop: [read(nvram->fd, p, 512)] until it transfers nothing.
    The test of [remaining] comes after the transfer.  Answers the file,
    the buffer, [p] and [remaining]. *)
Fixpoint read_chunks (fuel : nat) (f : fdstate) (buf : list byte)
    (p remaining : Z) : result (fdstate * list byte * Z * Z) :=
  match fuel with
  | O => OutOfFuel
  | S fuel' =>
      let (got, f') := sys_read f 512 in
      if len got >? 0 then
        if p + len got >? len buf then Fault (BufferOverrun (p + len got))
        else
          let buf := poke buf p got in
          if remaining <=? 0 then Ret (f', buf, p, 0)
          else read_chunks fuel' f' buf (p + len got) (remaining - len got)
      else Ret (f', buf, p, remaining)
  end.

(** [DEFAULT_NVRAM_SZ] is defined in nvram.h and is a parameter here.
    Every round of the loop takes at least one byte of the file, so the
    length of the file bounds the rounds.  Answers the return code, the
    world with the filled buffer, and the messages. *)
Definition nvram_read (DEFAULT_NVRAM_SZ : Z) (w : world)
    : result (Z * world * list note) :=
  let nv := w_nvram w in
  r <- read_chunks (S (List.length (f_bytes (w_fd w)))) (w_fd w) (data nv) 0
         (nbytes nv) ;;
  let '(f, buf, p, remaining) := r in
  let nbytes_ :=
    if nbytes nv =? DEFAULT_NVRAM_SZ then nbytes nv - remaining
    else nbytes nv in
  let remaining :=
    if nbytes nv =? DEFAULT_NVRAM_SZ
    then DEFAULT_NVRAM_SZ - (remaining + nbytes_)
    else remaining in
  if negb (remaining =? 0) then
    (* memset(p, 0, remaining) *)
    if (remaining <? 0) || (p + remaining >? len buf) then
      Fault (BufferOverrun (p + remaining))
    else
      Ret (0,
           mk_world
             (mk_nvram (poke buf p (repeat x00 (Z.to_nat remaining))) nbytes_
                (parts nv))
             f (w_out w),
           [Warn_short_read nbytes_ (nbytes_ - remaining)])
  else
    Ret (0, mk_world (mk_nvram buf nbytes_ (parts nv)) f (w_out w), []).

(* ================================================================= *)
(** ** [print_partition_table], nvram.c:751 *)

(** Blanks on the left up to a width of [w]: ["%2d"] is
    [pad_left 2 (dec i)]. *)
Definition pad_left (w : nat) (s : list byte) : list byte :=
  repeat x20 (w - List.length s) ++ s.

(** ["%2d  %02x  %02x  %04x %.12s\n"] for the entry [i]: the name is
    printed up to its first NUL and never beyond its twelve bytes. *)
Definition partition_line (i : Z) (phead : partition_header) : list byte :=
  pad_left 2 (dec i) ++ bytes "  "
  ++ hex 2 (u8 (ph_signature phead)) ++ bytes "  "
  ++ hex 2 (u8 (ph_checksum phead)) ++ bytes "  "
  ++ hex 4 (ph_length phead) ++ bytes " "
  ++ cstr (firstn 12 (ph_name phead)) ++ [nl].

(** [for (i = 0; i < nvram->nparts; i++)], from the entry [i] on. *)
Fixpoint print_partition_rows (i : Z) (tbl : list (Z * partition_header))
    : list byte :=
  match tbl with
  | [] => []
  | e :: tbl' => partition_line i (snd e) ++ print_partition_rows (i + 1) tbl'
  end.

Definition print_partition_table (nv : nvram) : list byte :=
  bytes " # Sig Chk  Len  Name" ++ [nl] ++ print_partition_rows 0 (parts nv).

(** The lines for a sequence of headers, numbered from [i]. *)
Fixpoint partition_lines (i : Z) (hs : list partition_header) : list byte :=
  match hs with
  | [] => []
  | h :: hs' => partition_line i h ++ partition_lines (i + 1) hs'
  end.

(* ================================================================= *)
(** ** [dump_eventscanlog], nvram.c:1099 *)

Definition MAX_EVENTLOGS : Z := 100.

(** [ntohl(p[i])] for the [uint32_t *p] at image offset [p_off]. *)
Definition word32_at (d : list byte) (p_off i : Z) : result Z :=
  b0 <- rd_at d (p_off + 4 * i) ;;
  b1 <- rd_at d (p_off + 4 * i + 1) ;;
  b2 <- rd_at d (p_off + 4 * i + 2) ;;
  b3 <- rd_at d (p_off + 4 * i + 3) ;;
  Ret (((u8 b0 * 256 + u8 b1) * 256 + u8 b2) * 256 + u8 b3).

(** [loghdr[i] = v] for the local array [loghdr]: a store outside the
    array, before its start or past its end, is a [BufferOverrun] that
    carries the index. *)
Definition store_word (a : list Z) (i v : Z) : result (list Z) :=
  if (0 <=? i) && (i <? Z.of_nat (List.length a)) then
    Ret (firstn (Z.to_nat i) a ++ v :: skipn (S (Z.to_nat i)) a)
  else Fault (BufferOverrun i).

(** [dump_rtas_event_entry], nvram.c:1045.  The event is decoded by
    librtasevent, which the function loads at run time and which is no part
    of this program: [rtas] stands for it.  It is [None] when the library or
    one of its three symbols is missing; else it answers, for the image, the
    offset of the entry and its length, [None] when [parse_rtas_event] fails
    and the text of [rtas_print_event] otherwise.  The function returns 0
    after it has printed and 1 in every other case. *)
Definition dump_rtas_event_entry
    (rtas : option (list byte -> Z -> Z -> option (list byte)))
    (d : list byte) (data_ len_ : Z) : Z * list byte :=
  match rtas with
  | None => (1, [])
  | Some lib =>
      match lib d data_ len_ with
      | None => (1, [])
      | Some t => (0, t)
      end
  end.

(** The first loop, [loghdr[lognum] = ntohl(p[lognum+1])], for [n] more
    rounds. *)
Fixpoint eventscan_headers (n : nat) (d : list byte) (p_off lognum : Z)
    (loghdr : list Z) : result (list Z) :=
  match n with
  | O => Ret loghdr
  | S n' =>
      w <- word32_at d p_off (lognum + 1) ;;
      a <- store_word loghdr lognum w ;;
      eventscan_headers n' d p_off (lognum + 1) a
  end.

(** ["Log Entry %d:  flags: 0x%02x  type: 0x%02x\n"]. *)
Definition log_entry_line (lognum hdr : Z) : list byte :=
  bytes "Log Entry " ++ dec lognum ++ bytes ":  flags: 0x"
  ++ hex 2 (Z.land (Z.shiftr hdr 24) 255) ++ bytes "  type: 0x"
  ++ hex 2 (Z.land (Z.shiftr hdr 16) 255) ++ [nl].

(** The second loop, for [n] more rounds: the entry lies from [start] to
    the [start] of the next header; it is dumped raw when
    [dump_rtas_event_entry] does not return 0. *)
Fixpoint eventscan_entries (n : nat)
    (rtas : option (list byte -> Z -> Z -> option (list byte)))
    (d : list byte) (p_off lognum : Z) (loghdr : list Z)
    : result (list byte) :=
  match n with
  | O => Ret []
  | S n' =>
      let hdr := nth (Z.to_nat lognum) loghdr 0 in
      let start := Z.land hdr 65535 in
      let end_ := Z.land (nth (Z.to_nat (lognum + 1)) loghdr 0) 65535 in
      let r := dump_rtas_event_entry rtas d (p_off + start) (end_ - start) in
      body <- (if fst r =? 0 then Ret (snd r)
               else
                 raw <- dump_raw_data d (p_off + start) (end_ - start) ;;
                 Ret (bytes "==== Log " ++ dec lognum ++ bytes " ===="
                      ++ [nl] ++ raw)) ;;
      rest <- eventscan_entries n' rtas d p_off (lognum + 1) loghdr ;;
      Ret (log_entry_line lognum hdr ++ body ++ rest)
  end.

(** [NVRAM_SIG_SP] is defined in nvram.h and is a parameter here.  The
    local array [loghdr] has [MAX_EVENTLOGS + 1] entries; it is not
    initialised, and no entry is read before it is written, so it starts as
    zeros here.  Answers the return code, the text on stdout and the
    messages. *)
Definition dump_eventscanlog (NVRAM_SIG_SP : byte)
    (rtas : option (list byte -> Z -> Z -> option (list byte)))
    (nv : nvram) : result (Z * list byte * list note) :=
  match nvram_find_partition nv NVRAM_SIG_SP (Some (bytes "ibm,es-logs"))
          None with
  | None => Ret (-1, [], [Err_no_eslogs])
  | Some (phead, ph) =>
      let d := data nv in
      let p_off := phead + 16 in
      let p_max := ((ph_length ph - 1) * 16) / 4 in
      if p_max <? 1 then Ret (-1, [], [Err_corrupt_eslogs])
      else
        w <- word32_at d p_off 0 ;;
        let num_logs := int32 w in
        let out := bytes "Number of Logs: " ++ dec num_logs ++ [nl] in
        let program :=
          if num_logs >? MAX_EVENTLOGS then [Warn_program_limit MAX_EVENTLOGS]
          else [] in
        let num_logs :=
          if num_logs >? MAX_EVENTLOGS then MAX_EVENTLOGS else num_logs in
        let partition :=
          if num_logs >? p_max - 1 then [Warn_partition_limit (p_max - 1)]
          else [] in
        let num_logs :=
          if num_logs >? p_max - 1 then p_max - 1 else num_logs in
        loghdr <- eventscan_headers (Z.to_nat num_logs) d p_off 0
                    (repeat 0 (Z.to_nat (MAX_EVENTLOGS + 1))) ;;
        loghdr <- store_word loghdr num_logs (wrap32 (p_max * 4)) ;;
        t <- eventscan_entries (Z.to_nat num_logs) rtas d p_off 0 loghdr ;;
        Ret (0, out ++ t, program ++ partition)
  end.

(** The 32-bit words of a payload, high byte first. *)
Definition words32_image (ws : list Z) : list byte :=
  flat_map (fun w => [byte.of_Z (w / 16777216); byte.of_Z (w / 65536);
                      byte.of_Z (w / 256); byte.of_Z w]) ws.

(** The text for a sequence of log headers closed by the artificial one,
    when librtasevent prints [print d data len] for every entry: each
    header with the [start] of the next. *)
Fixpoint log_entries (print : list byte -> Z -> Z -> list byte)
    (d : list byte) (p_off lognum : Z) (hdrs : list Z) : list byte :=
  match hdrs with
  | hdr :: ((next :: _) as hdrs') =>
      log_entry_line lognum hdr
      ++ print d (p_off + Z.land hdr 65535)
           (Z.land next 65535 - Z.land hdr 65535)
      ++ log_entries print d p_off (lognum + 1) hdrs'
  | _ => []
  end.

(** A two-block "ibm,es-logs" partition that announces two logs. *)
Definition eslogs_header : partition_header :=
  mk_header x02 x00 2 (bytes "ibm,es-logs" ++ [x00]).

Definition eslogs_partitions : list (partition_header * list byte) :=
  [(header_70_1, []);
   (eslogs_header, words32_image [2; 0x01020008; 0x0304000c; 0])].

(** The same partition, erased: every payload byte is 0xff. *)
Definition eslogs_erased : list (partition_header * list byte) :=
  [(header_70_1, []); (eslogs_header, repeat xff 16)].



(* ================================================================= *)
(** * Properties *)

(** Boolean comparisons of hypotheses, turned into propositions. *)
Ltac zbool :=
  repeat match goal with
  | H : (_ <=? _) = true |- _ => apply Z.leb_le in H
  | H : (_ <=? _) = false |- _ => apply Z.leb_gt in H
  | H : (_ <? _) = true |- _ => apply Z.ltb_lt in H
  | H : (_ <? _) = false |- _ => apply Z.ltb_ge in H
  | H : (_ =? _) = true |- _ => apply Z.eqb_eq in H
  | H : (_ =? _) = false |- _ => apply Z.eqb_neq in H
  | H : (_ >=? _) = true |- _ => rewrite Z.geb_leb in H
  | H : (_ >=? _) = false |- _ => rewrite Z.geb_leb in H
  | H : (_ >? _) = true |- _ => rewrite Z.gtb_ltb in H
  | H : (_ >? _) = false |- _ => rewrite Z.gtb_ltb in H
  end.

(** ** Bytes *)

Lemma u8_range (b : byte) : 0 <= u8 b < 256.
Proof. unfold u8. pose proof (byte.unsigned_range b). lia. Qed.

Lemma u8_inj (a b : byte) : u8 a = u8 b -> a = b.
Proof. apply byte.unsigned_inj. Qed.

Lemma u8_of_Z (z : Z) : 0 <= z < 256 -> u8 (byte.of_Z z) = z.
Proof.
  intros Hz. unfold u8. rewrite byte.unsigned_of_Z. unfold byte.wrap.
  apply Z.mod_small. lia.
Qed.

Lemma be16_range (hi lo : byte) : 0 <= be16 hi lo < 65536.
Proof.
  unfold be16. pose proof (u8_range hi). pose proof (u8_range lo). lia.
Qed.

(** ** The checksum *)

Lemma sp_range (h : partition_header) (i : nat) : 0 <= sp h i < 65536.
Proof. apply be16_range. Qed.

Lemma header_sum_range (h : partition_header) :
  0 <= ph_length h < 65536 -> 0 <= header_sum h < 8 * 65536.
Proof.
  intros Hl. unfold header_sum.
  pose proof (u8_range (ph_signature h)).
  pose proof (sp_range h 0). pose proof (sp_range h 1).
  pose proof (sp_range h 2). pose proof (sp_range h 3).
  pose proof (sp_range h 4). pose proof (sp_range h 5). lia.
Qed.

Lemma fold16_once_range (s : Z) : 0 <= fold16_once s < 65536.
Proof. unfold fold16_once. apply Z.mod_pos_bound. lia. Qed.

(** The second fold of the source, on a 16-bit value. *)
Lemma second_fold (c : Z) :
  0 <= c < 65536 ->
  Z.land
    (Z.shiftr (wrap32 (c + wrap32 (Z.shiftr c 8 + wrap32 (Z.shiftl c 8)))) 8)
    255
  = (c / 256 + c mod 256 + (c / 256 + c mod 256) / 256) mod 256.
Proof.
  intros Hc.
  rewrite Z.shiftl_mul_pow2, !Z.shiftr_div_pow2 by lia.
  change 255 with (Z.ones 8). rewrite Z.land_ones by lia.
  change (2 ^ 8) with 256.
  unfold wrap32.
  assert (H1 : 0 <= c / 256 < 256)
    by (split; [ apply Z.div_pos; lia | apply Z.div_lt_upper_bound; lia ]).
  pose proof (Z.mod_pos_bound c 256 ltac:(lia)) as H2.
  pose proof (Z.div_mod c 256 ltac:(lia)) as H3.
  rewrite (Z.mod_small (c * 256)) by lia.
  rewrite (Z.mod_small (c / 256 + c * 256)) by lia.
  rewrite (Z.mod_small (c + _)) by lia.
  set (hi := c / 256) in *. set (lo := c mod 256) in *.
  replace (c + (hi + c * 256))
    with ((hi + lo) + (256 * hi + hi + lo) * 256) by lia.
  rewrite Z.div_add by lia.
  replace ((hi + lo) / 256 + (256 * hi + hi + lo))
    with ((hi + lo + (hi + lo) / 256) + hi * 256) by lia.
  rewrite Z.mod_add by lia. reflexivity.
Qed.

Lemma first_fold (s : Z) :
  0 <= s < 8 * 65536 ->
  Z.land (wrap32 (Z.land (wrap32 s) 65535 + Z.shiftr (wrap32 s) 16)) 65535
  = fold16_once s.
Proof.
  intros Hs. unfold wrap32, fold16_once.
  rewrite (Z.mod_small s) by lia.
  change 65535 with (Z.ones 16). rewrite !Z.land_ones by lia.
  rewrite Z.shiftr_div_pow2 by lia. change (2 ^ 16) with 65536.
  pose proof (Z.mod_pos_bound s 65536 ltac:(lia)).
  assert (0 <= s / 65536 < 8)
    by (split; [ apply Z.div_pos; lia | apply Z.div_lt_upper_bound; lia ]).
  rewrite (Z.mod_small (_ + _) (2 ^ 32)) by lia. reflexivity.
Qed.

Lemma checksum_value (h : partition_header) :
  0 <= ph_length h < 65536 -> u8 (checksum h) = checksum_end_around h.
Proof.
  intros Hl. unfold checksum, checksum_end_around.
  pose proof (header_sum_range h Hl) as Hs.
  cbv zeta. rewrite first_fold by exact Hs.
  rewrite second_fold by apply fold16_once_range.
  apply u8_of_Z. apply Z.mod_pos_bound. lia.
Qed.

(** The literal reading and the source agree exactly when adding the two
    bytes produces no carry. *)
Lemma checksum_as_worded_no_carry (h : partition_header) :
  0 <= ph_length h < 65536 ->
  fold16_once (header_sum h) / 256 + fold16_once (header_sum h) mod 256 < 256 ->
  u8 (checksum h) = checksum_as_worded h.
Proof.
  intros Hl Hc. rewrite (checksum_value h Hl).
  unfold checksum_end_around, checksum_as_worded. cbv zeta.
  pose proof (fold16_once_range (header_sum h)) as Hr.
  assert (0 <= fold16_once (header_sum h) / 256) by (apply Z.div_pos; lia).
  pose proof (Z.mod_pos_bound (fold16_once (header_sum h)) 256 ltac:(lia)).
  rewrite (Z.div_small (_ + _) 256) by lia. rewrite Z.add_0_r. reflexivity.
Qed.

(** C4, as stated, fails: for the 16-block "common" partition with
    signature 0x70 the folded 16-bit sum is 0x40cb; adding its two bytes and
    masking gives 0x0b, while [checksum] returns 0x0c. *)
Lemma checksum_not_as_worded :
  wf_header header_common_16 /\
  u8 (checksum header_common_16) <> checksum_as_worded header_common_16.
Proof.
  split.
  - split; [ cbv; intuition discriminate | reflexivity ].
  - vm_compute. discriminate.
Qed.

(** C4 (amended): for every 16-byte header, [checksum] is a total function
    whose one-byte value is: sum = signature + length + the six 16-bit words
    of the name; the bits above position 16 are folded back into the low 16
    bits once; the high byte and the low byte of the result are added, the
    carry out of that byte addition is added back in, and the result is
    masked to one byte.  For signature=0x70, length=1, name all-zero it is
    0x71. *)
Theorem checksum_end_around_carry (h : partition_header) :
  wf_header h ->
  u8 (checksum h) =
    (let c := (header_sum h mod 65536 + header_sum h / 65536) mod 65536 in
     let s := c / 256 + c mod 256 in
     (s + s / 256) mod 256)
  /\ 0 <= u8 (checksum h) < 256
  /\ checksum header_70_1 = x71.
Proof.
  intros [Hl _]. split; [ | split ].
  - rewrite checksum_value by exact Hl. reflexivity.
  - apply u8_range.
  - vm_compute. reflexivity.
Qed.

Lemma checksum_end_around_carry_witness :
  wf_header header_common_16 /\ u8 (checksum header_common_16) = 12.
Proof.
  assert (W : wf_header header_common_16)
    by (split; [ cbv; intuition discriminate | reflexivity ]).
  split; [ exact W | ].
  rewrite (proj1 (checksum_end_around_carry header_common_16 W)).
  vm_compute. reflexivity.
Defined.

(** ** Reading the image *)

Lemma len_app (a b : list byte) : len (a ++ b) = len a + len b.
Proof. unfold len. rewrite length_app. lia. Qed.

Lemma len_cons (b : byte) (a : list byte) : len (b :: a) = len a + 1.
Proof. unfold len. cbn [List.length]. lia. Qed.

Lemma len_nonneg (a : list byte) : 0 <= len a.
Proof. unfold len. lia. Qed.

Lemma len_nil : len [] = 0.
Proof. reflexivity. Qed.

(** Lengths of concatenations, pushed to the leaves. *)
Ltac len_norm :=
  repeat (rewrite len_app || rewrite len_cons || rewrite len_nil).

Lemma from_app (pre l : list byte) : from (pre ++ l) (len pre) = l.
Proof.
  unfold from, len.
  destruct (0 <=? Z.of_nat (List.length pre)) eqn:E; [ | zbool; lia ].
  rewrite Nat2Z.id, skipn_app, skipn_all, Nat.sub_diag. reflexivity.
Qed.

Lemma rd_app (pre : list byte) (b : byte) (l : list byte) :
  rd (pre ++ b :: l) (len pre) = Some b.
Proof.
  unfold rd, len.
  destruct (0 <=? Z.of_nat (List.length pre)) eqn:E; [ | zbool; lia ].
  rewrite Nat2Z.id, nth_error_app2, Nat.sub_diag by lia. reflexivity.
Qed.

Lemma be16_split (l : Z) :
  0 <= l < 65536 -> be16 (byte.of_Z (l / 256)) (byte.of_Z (l mod 256)) = l.
Proof.
  intros Hl. unfold be16.
  assert (0 <= l / 256 < 256)
    by (split; [ apply Z.div_pos; lia | apply Z.div_lt_upper_bound; lia ]).
  pose proof (Z.mod_pos_bound l 256 ltac:(lia)).
  rewrite !u8_of_Z by lia.
  pose proof (Z.div_mod l 256 ltac:(lia)). lia.
Qed.

Lemma encode_header_length (h : partition_header) :
  wf_header h -> List.length (encode_header h) = 16%nat.
Proof. intros [_ Hn]. unfold encode_header. simpl. rewrite Hn. reflexivity. Qed.

Lemma read_header_encode (pre rest : list byte) (h : partition_header) :
  wf_header h ->
  read_header (pre ++ encode_header h ++ rest) (len pre) = Some h.
Proof.
  intros Hwf. pose proof (encode_header_length h Hwf) as Hlen.
  destruct Hwf as [Hl Hn].
  unfold read_header.
  assert (Hb : (0 <=? len pre) && (len pre + 16 <=? len (pre ++ encode_header h ++ rest)) = true).
  { rewrite !len_app.
    assert (len (encode_header h) = 16) by (unfold len; rewrite Hlen; reflexivity).
    pose proof (len_nonneg pre). pose proof (len_nonneg rest).
    apply andb_true_iff. split; apply Z.leb_le; lia. }
  rewrite Hb.
  pose proof (from_app pre (encode_header h ++ rest)) as Hf.
  unfold from in Hf.
  destruct (0 <=? len pre) eqn:E; [ | discriminate ].
  rewrite Hf.
  rewrite firstn_app, Hlen, Nat.sub_diag, firstn_O, app_nil_r.
  rewrite firstn_all2 by lia.
  unfold encode_header. rewrite be16_split by exact Hl.
  destruct h; reflexivity.
Qed.

(** ** Parsing the partition directory *)

Lemma parse_loop_zero_length (d : list byte) (nvram_end p_start : Z)
    (phead : partition_header) :
  read_header d p_start = Some phead ->
  ph_length phead = 0 ->
  p_start < nvram_end ->
  forall fuel tbl out, parse_loop fuel d nvram_end p_start tbl out = OutOfFuel.
Proof.
  intros Hrd Hz Hlt. induction fuel as [ | fuel IH ]; intros tbl out.
  - reflexivity.
  - cbn [parse_loop]. apply Z.ltb_lt in Hlt. rewrite Hlt, Hrd, Hz.
    unfold NVRAM_BLOCK_SIZE. rewrite Z.mul_0_l, Z.add_0_r. apply IH.
Qed.

(** On every step at a zero-length header the walk stays where it is and
    enters the same header once more. *)
Lemma parse_loop_zero_length_step (d : list byte) (nvram_end p_start : Z)
    (phead : partition_header) (fuel : nat) tbl out :
  read_header d p_start = Some phead ->
  ph_length phead = 0 ->
  p_start < nvram_end ->
  exists out',
    parse_loop (S fuel) d nvram_end p_start tbl out
    = parse_loop fuel d nvram_end p_start (tbl ++ [(p_start, phead)]) out'.
Proof.
  intros Hrd Hz Hlt. cbn [parse_loop]. apply Z.ltb_lt in Hlt.
  rewrite Hlt, Hrd, Hz.
  unfold NVRAM_BLOCK_SIZE. rewrite Z.mul_0_l, Z.add_0_r. eauto.
Qed.

(** C1 (the code at the failing input): on the 16-byte image of one
    header whose length field is 0, [nvram_parse_partitions] neither fails
    nor returns: whatever the number of loop iterations allowed, the walk
    is still at offset 0. *)
Theorem parse_zero_length_never_returns :
  forall fuel, nvram_parse_partitions fuel zero_length_nvram = OutOfFuel.
Proof.
  intros fuel. unfold nvram_parse_partitions.
  rewrite (parse_loop_zero_length _ _ _ (mk_header x70 x70 0 (repeat x00 12)));
    [ reflexivity | vm_compute; reflexivity | reflexivity | reflexivity ].
Qed.

Lemma table_from_length base ps :
  List.length (table_from base ps) = List.length ps.
Proof. revert base. induction ps; intros; simpl; auto. Qed.

Lemma image_cons p ps : image (p :: ps) = partition_image p ++ image ps.
Proof. reflexivity. Qed.

Lemma partition_image_len p :
  wf_partition p -> len (partition_image p) = ph_length (fst p) * 16.
Proof.
  intros (Hwf & Hl & Hp). unfold partition_image.
  rewrite len_app, Hp. unfold len at 1.
  rewrite (encode_header_length _ Hwf). lia.
Qed.

Lemma parse_loop_image (ps : list (partition_header * list byte)) :
  Forall wf_partition ps ->
  forall (fuel : nat) (pre : list byte) tbl out,
    (List.length ps < fuel)%nat ->
    parse_loop fuel (pre ++ image ps) (len (pre ++ image ps)) (len pre) tbl out
    = Ret (tbl ++ table_from (len pre) ps, out ++ checksum_warnings ps).
Proof.
  induction 1 as [ | p ps Hp Hps IH ]; intros fuel pre tbl out Hfuel.
  - destruct fuel as [ | fuel ]; [ simpl in Hfuel; lia | ].
    cbn [parse_loop image flat_map table_from checksum_warnings].
    rewrite !app_nil_r, Z.ltb_irrefl. reflexivity.
  - destruct fuel as [ | fuel ]; [ simpl in Hfuel; lia | ].
    simpl in Hfuel. cbn [parse_loop].
    pose proof (partition_image_len p Hp) as Hlen.
    destruct Hp as (Hwf & Hl & Hpay).
    rewrite image_cons, !len_app, Hlen.
    pose proof (len_nonneg (image ps)).
    replace (len pre <? len pre + (ph_length (fst p) * 16 + len (image ps)))
      with true by (symmetry; apply Z.ltb_lt; lia).
    unfold partition_image at 1. rewrite <- !app_assoc.
    rewrite read_header_encode by exact Hwf.
    unfold NVRAM_BLOCK_SIZE.
    specialize (IH fuel (pre ++ partition_image p)
                  (tbl ++ [(len pre, fst p)])
                  (if u8 (checksum (fst p)) =? u8 (ph_checksum (fst p))
                   then out else out ++ [Warn_checksum (checksum (fst p))])
                  ltac:(lia)).
    rewrite !len_app, Hlen, <- !app_assoc, <- Z.add_assoc in IH.
    rewrite IH. cbn [table_from checksum_warnings flat_map].
    fold (checksum_warnings ps).
    destruct (u8 (checksum (fst p)) =? u8 (ph_checksum (fst p)));
      cbn [app]; rewrite <- ?app_assoc; reflexivity.
Qed.

(** C7: a buffer synthesized from N partitions, whose headers have a
    length of at least 1 and exactly cover the buffer, parses to exactly N
    table entries, the headers in their original order at their original
    offsets, whatever the stored checksums are; each wrong checksum adds one
    WARNING and the entry is appended all the same. *)
Theorem parse_recovers_all_partitions
    (ps : list (partition_header * list byte)) (fuel : nat) :
  Forall wf_partition ps ->
  (List.length ps < fuel)%nat ->
  nvram_parse_partitions fuel (mk_nvram (image ps) (len (image ps)) [])
  = Ret (mk_nvram (image ps) (len (image ps)) (table_from 0 ps),
         checksum_warnings ps, 0)
  /\ List.length (table_from 0 ps) = List.length ps
  /\ map snd (table_from 0 ps) = map fst ps.
Proof.
  intros Hwf Hfuel.
  unfold nvram_parse_partitions. cbn [data nbytes parts].
  pose proof (parse_loop_image ps Hwf fuel [] [] [] Hfuel) as H.
  cbn [app] in H. change (len []) with 0 in H. rewrite H.
  cbn [bind fst snd]. split; [ reflexivity | ].
  split; [ apply table_from_length | ].
  generalize 0. clear. induction ps; intros; simpl; [ reflexivity | ].
  f_equal. apply IHps.
Qed.

Lemma two_partitions_wf : Forall wf_partition two_partitions.
Proof.
  repeat apply Forall_cons; [ | | apply Forall_nil ];
    (split; [ split; [ cbv; intuition discriminate | reflexivity ]
            | split; [ cbv; discriminate | reflexivity ] ]).
Qed.

Lemma parse_recovers_all_partitions_witness :
  nvram_parse_partitions 3
    (mk_nvram (image two_partitions) (len (image two_partitions)) [])
  = Ret (mk_nvram (image two_partitions) (len (image two_partitions))
           (table_from 0 two_partitions),
         checksum_warnings two_partitions, 0)
  /\ List.length (table_from 0 two_partitions) = 2%nat
  /\ map snd (table_from 0 two_partitions) = map fst two_partitions.
Proof.
  apply (parse_recovers_all_partitions two_partitions 3).
  - exact two_partitions_wf.
  - simpl. lia.
Defined.

(** The table and the warnings of [two_partitions]: offsets 0 and 16, and
    one warning per partition. *)
Lemma two_partitions_table :
  map fst (table_from 0 two_partitions) = [0; 16].
Proof. reflexivity. Qed.

Lemma two_partitions_warnings :
  checksum_warnings two_partitions = [Warn_checksum x71; Warn_checksum xfd].
Proof. vm_compute. reflexivity. Qed.

(** ** C strings *)

Lemma u8_x00 : u8 x00 = 0.
Proof. reflexivity. Qed.

Lemma u8_zero (b : byte) : u8 b = 0 -> b = x00.
Proof. intros H. apply u8_inj. rewrite H. reflexivity. Qed.

(** [strncmp] answers 0 exactly when the two strings, each taken with its
    terminating NUL, agree on their first [n] bytes. *)
Lemma strncmp_eq_iff (n : nat) :
  forall s1 s2,
    strncmp s1 s2 n = 0 <->
    firstn n (cstr s1 ++ [x00]) = firstn n (cstr s2 ++ [x00]).
Proof.
  induction n as [ | n IH ]; intros s1 s2.
  - simpl. tauto.
  - cbn [strncmp].
    assert (Hhd : forall s, firstn (S n) (cstr s ++ [x00])
                  = if u8 (hd x00 s) =? 0 then [x00]
                    else hd x00 s :: firstn n (cstr (tl s) ++ [x00])).
    { intros [ | c s ]; cbn [cstr hd tl].
      - rewrite u8_x00. cbn [app firstn]. rewrite firstn_nil. reflexivity.
      - destruct (u8 c =? 0); cbn [app firstn]; rewrite ?firstn_nil; reflexivity. }
    rewrite !Hhd.
    destruct (u8 (hd x00 s1) =? u8 (hd x00 s2)) eqn:E; zbool.
    + apply u8_inj in E. rewrite <- E.
      destruct (u8 (hd x00 s1) =? 0) eqn:E0; [ tauto | ].
      rewrite IH. split; [ intros ->; reflexivity | intros H; injection H; auto ].
    + split; [ lia | ]. intros H. exfalso.
      destruct (u8 (hd x00 s1) =? 0) eqn:E1;
        destruct (u8 (hd x00 s2) =? 0) eqn:E2; zbool.
      * lia.
      * injection H as H _. rewrite <- H, u8_x00 in E2. lia.
      * injection H as H _. rewrite H, u8_x00 in E1. lia.
      * injection H as H _. rewrite H in E. lia.
Qed.

Lemma cstr_no_nul (s rest : list byte) :
  no_nul s -> cstr (s ++ x00 :: rest) = s.
Proof.
  induction 1 as [ | b s Hb Hs IH ]; cbn [cstr app].
  - rewrite u8_x00. reflexivity.
  - apply Z.eqb_neq in Hb. rewrite Hb, IH. reflexivity.
Qed.

Lemma cstr_no_nul_nil (s : list byte) : no_nul s -> cstr s = s.
Proof.
  induction 1 as [ | b s Hb Hs IH ]; cbn [cstr]; [ reflexivity | ].
  apply Z.eqb_neq in Hb. rewrite Hb, IH. reflexivity.
Qed.

Lemma cstrlen_no_nul (s rest : list byte) :
  no_nul s -> cstrlen (s ++ x00 :: rest) = Some (len s).
Proof.
  induction 1 as [ | b s Hb Hs IH ]; cbn [cstrlen app].
  - rewrite u8_x00. reflexivity.
  - apply Z.eqb_neq in Hb. rewrite Hb, IH. f_equal. unfold len. cbn [List.length]. lia.
Qed.

(** ** Finding a partition *)

Lemma no_nul_app (a b : list byte) : no_nul (a ++ b) <-> no_nul a /\ no_nul b.
Proof. apply Forall_app. Qed.

Lemma no_nul_firstn (n : nat) (s : list byte) :
  no_nul s -> no_nul (firstn n s).
Proof.
  unfold no_nul. intros H. revert n.
  induction H as [ | b s Hb Hs IH ]; intros [ | n ]; cbn [firstn];
    constructor; auto.
Qed.

Lemma no_nul_has_no_nul (a rest : list byte) : ~ no_nul (a ++ x00 :: rest).
Proof.
  intros H. apply no_nul_app in H. destruct H as [_ H].
  inversion H as [ | ? ? Hb _ ]. apply Hb. reflexivity.
Qed.

Lemma cstr_is_no_nul (s : list byte) : no_nul (cstr s).
Proof.
  induction s as [ | b s IH ]; cbn [cstr]; [ constructor | ].
  destruct (u8 b =? 0) eqn:E; [ constructor | ].
  zbool. constructor; assumption.
Qed.

(** A buffer either holds no NUL or splits at its first NUL. *)
Lemma cstr_split (s : list byte) :
  (s = cstr s) \/ (exists rest, s = cstr s ++ x00 :: rest).
Proof.
  induction s as [ | b s IH ]; cbn [cstr]; [ left; reflexivity | ].
  destruct (u8 b =? 0) eqn:E; zbool.
  - right. exists s. apply u8_zero in E. subst b. reflexivity.
  - destruct IH as [ IH | [rest IH] ].
    + left. f_equal. exact IH.
    + right. exists rest. cbn [app]. f_equal. exact IH.
Qed.

Lemma firstn_exact (n : nat) (s t : list byte) :
  List.length s = n -> firstn n (s ++ t) = s.
Proof.
  intros <-. rewrite firstn_app, Nat.sub_diag, firstn_all, firstn_O, app_nil_r.
  reflexivity.
Qed.

Lemma firstn_whole (n : nat) (s : list byte) :
  (List.length s <= n)%nat -> firstn n s = s.
Proof. apply firstn_all2. Qed.

(** A candidate shorter than the field matches exactly the headers whose
    name is the candidate followed by a NUL. *)
Lemma strncmp_short_name (nm hname : list byte) :
  no_nul nm -> (List.length nm < 12)%nat -> List.length hname = 12%nat ->
  strncmp nm hname 12 = 0 <-> exists rest, hname = nm ++ x00 :: rest.
Proof.
  intros Hnn Hlen Hh. rewrite strncmp_eq_iff, (cstr_no_nul_nil nm Hnn).
  rewrite (firstn_whole 12 (nm ++ [x00])) by (rewrite length_app; simpl; lia).
  split.
  - intros H. destruct (cstr_split hname) as [ Hs | [rest Hs] ].
    + exfalso. rewrite <- Hs in H.
      rewrite (firstn_exact 12 hname) in H by exact Hh.
      pose proof (cstr_is_no_nul hname) as Hc. rewrite <- Hs, <- H in Hc.
      exact (no_nul_has_no_nul _ _ Hc).
    + exists rest. rewrite Hs at 1. f_equal.
      assert (Hc : (List.length (cstr hname) < 12)%nat).
      { rewrite Hs, length_app in Hh. simpl in Hh. lia. }
      rewrite (firstn_whole 12 (cstr hname ++ [x00])) in H
        by (rewrite length_app; simpl; lia).
      apply app_inj_tail in H. symmetry. exact (proj1 H).
  - intros [rest ->]. rewrite (cstr_no_nul nm rest Hnn).
    rewrite (firstn_whole 12 (nm ++ [x00])) by (rewrite length_app; simpl; lia).
    reflexivity.
Qed.

(** A candidate that fills the field or is longer is compared on its first
    12 bytes only. *)
Lemma strncmp_long_name (nm hname : list byte) :
  no_nul nm -> (12 <= List.length nm)%nat -> List.length hname = 12%nat ->
  strncmp nm hname 12 = 0 <-> hname = firstn 12 nm.
Proof.
  intros Hnn Hlen Hh. rewrite strncmp_eq_iff, (cstr_no_nul_nil nm Hnn).
  rewrite (firstn_app 12 nm).
  replace (12 - List.length nm)%nat with 0%nat by lia.
  rewrite firstn_O, app_nil_r.
  split.
  - intros H. destruct (cstr_split hname) as [ Hs | [rest Hs] ].
    + rewrite <- Hs in H.
      rewrite (firstn_exact 12 hname) in H by exact Hh.
      symmetry. exact H.
    + exfalso.
      assert (Hc : (List.length (cstr hname) < 12)%nat).
      { rewrite Hs, length_app in Hh. simpl in Hh. lia. }
      rewrite (firstn_whole 12 (cstr hname ++ [x00])) in H
        by (rewrite length_app; simpl; lia).
      pose proof (no_nul_firstn 12 nm Hnn) as Hf.
      rewrite H in Hf. exact (no_nul_has_no_nul _ [] Hf).
  - intros ->.
    pose proof (no_nul_firstn 12 nm Hnn) as Hf.
    rewrite (cstr_no_nul_nil _ Hf).
    symmetry. apply firstn_exact. exact Hh.
Qed.

Lemma find_from_none sig nm tbl :
  Forall (fun e => partition_matches sig nm (snd e) = false) tbl ->
  find_from sig nm tbl = None.
Proof.
  induction 1 as [ | e tbl He _ IH ]; cbn [find_from]; [ reflexivity | ].
  rewrite He. exact IH.
Qed.

Lemma find_from_first sig nm t e rest :
  Forall (fun e => partition_matches sig nm (snd e) = false) t ->
  partition_matches sig nm (snd e) = true ->
  find_from sig nm (t ++ e :: rest) = Some e.
Proof.
  induction 1 as [ | e' t He _ IH ]; intros Hm; cbn [find_from app].
  - rewrite Hm. reflexivity.
  - rewrite He. apply IH. exact Hm.
Qed.

Lemma index_of_start_app (t : list (Z * partition_header)) e rest :
  ~ In (fst e) (map fst t) ->
  index_of_start (fst e) (t ++ e :: rest) = List.length t.
Proof.
  induction t as [ | e' t IH ]; intros Hn; cbn [index_of_start app].
  - rewrite Z.eqb_refl. reflexivity.
  - destruct (fst e' =? fst e) eqn:E; zbool.
    + exfalso. apply Hn. left. exact E.
    + cbn [List.length]. f_equal. apply IH. intros Hin. apply Hn. right. exact Hin.
Qed.

(** Resuming after an entry of a table without repeated pointers searches
    the entries that follow it. *)
Lemma find_partition_after (nv : nvram) sig nm t e rest :
  parts nv = t ++ e :: rest ->
  NoDup (map fst (parts nv)) ->
  nvram_find_partition nv sig nm (Some (fst e)) = find_from sig nm rest.
Proof.
  intros Hp Hnd. unfold nvram_find_partition. rewrite Hp in *.
  rewrite map_app in Hnd. cbn [map] in Hnd.
  apply NoDup_remove_2 in Hnd.
  rewrite index_of_start_app
    by (intros Hin; apply Hnd; apply in_or_app; left; exact Hin).
  replace (S (List.length t)) with (List.length t + 1)%nat by lia.
  rewrite skipn_app, skipn_all2 by lia.
  replace (List.length t + 1 - List.length t)%nat with 1%nat by lia.
  reflexivity.
Qed.

Lemma partition_matches_iff sig nm h :
  partition_matches sig nm h = true <->
  (u8 sig = 0 \/ sig = ph_signature h)
  /\ match nm with
     | None => True
     | Some n => strncmp n (ph_name h) 12 = 0
     end.
Proof.
  unfold partition_matches. rewrite andb_true_iff, orb_true_iff, !Z.eqb_eq.
  split; intros [Hs Hn]; split.
  - destruct Hs as [ Hs | Hs ]; [ left; exact Hs | right; apply u8_inj; exact Hs ].
  - destruct nm; [ apply Z.eqb_eq; exact Hn | exact I ].
  - destruct Hs as [ Hs | Hs ]; [ left; exact Hs | right; rewrite Hs; reflexivity ].
  - destruct nm; [ apply Z.eqb_eq; exact Hn | reflexivity ].
Qed.

Lemma common_no_nul : no_nul (bytes "common").
Proof. repeat constructor; vm_compute; discriminate. Qed.

Lemma matches_common_iff (h : partition_header) :
  List.length (ph_name h) = 12%nat ->
  partition_matches x00 (Some (bytes "common")) h = true
  <-> named (bytes "common") h.
Proof.
  intros Hl. rewrite partition_matches_iff.
  rewrite (strncmp_short_name (bytes "common") (ph_name h) common_no_nul)
    by (try exact Hl; simpl; lia).
  unfold named. split; [ intros [_ H]; exact H | intros H; split; [ left; reflexivity | exact H ] ].
Qed.

Lemma not_matching_common (t : list (Z * partition_header)) :
  Forall (fun e => List.length (ph_name (snd e)) = 12%nat) t ->
  Forall (fun e => ~ named (bytes "common") (snd e)) t ->
  Forall (fun e => partition_matches x00 (Some (bytes "common")) (snd e) = false) t.
Proof.
  intros Hl Hn. rewrite Forall_forall in *. intros e He.
  destruct (partition_matches x00 (Some (bytes "common")) (snd e)) eqn:E;
    [ | reflexivity ].
  exfalso. apply (Hn e He). apply matches_common_iff; auto.
Qed.

(** C8: in [nvram_find_partition], signature 0 and a NULL name match any
    entry; the name comparison is bounded to the 12-byte field: a candidate
    shorter than the field matches exactly the headers that carry it up to
    its own length followed by (NUL) padding, a longer one is compared on
    its first 12 bytes; without [start] the search begins at index 0, and
    with [start] it begins at the entry that follows [start] in table order;
    so with two partitions named "common" the search finds the first,
    resumed after the first it finds the second, and resumed after the
    second it finds none. *)
Theorem find_partition_wildcards_and_resume
    (nv : nvram) (t0 t1 t2 : list (Z * partition_header))
    (e1 e2 : Z * partition_header) :
  parts nv = t0 ++ e1 :: t1 ++ e2 :: t2 ->
  NoDup (map fst (parts nv)) ->
  Forall (fun e => List.length (ph_name (snd e)) = 12%nat) (parts nv) ->
  named (bytes "common") (snd e1) ->
  named (bytes "common") (snd e2) ->
  Forall (fun e => ~ named (bytes "common") (snd e)) (t0 ++ t1 ++ t2) ->
  (forall h, partition_matches x00 None h = true)
  /\ (forall sig nm h,
        partition_matches sig nm h = true <->
        (u8 sig = 0 \/ sig = ph_signature h)
        /\ match nm with
           | None => True
           | Some n => strncmp n (ph_name h) 12 = 0
           end)
  /\ (forall nm h,
        no_nul nm -> List.length (ph_name h) = 12%nat ->
        ((List.length nm < 12)%nat ->
         (strncmp nm (ph_name h) 12 = 0 <-> named nm h))
        /\ ((12 <= List.length nm)%nat ->
            (strncmp nm (ph_name h) 12 = 0 <-> ph_name h = firstn 12 nm)))
  /\ (forall sig nm,
        nvram_find_partition nv sig nm None = find_from sig nm (parts nv))
  /\ (forall sig nm t e rest,
        parts nv = t ++ e :: rest ->
        nvram_find_partition nv sig nm (Some (fst e)) = find_from sig nm rest)
  /\ nvram_find_partition nv x00 (Some (bytes "common")) None = Some e1
  /\ nvram_find_partition nv x00 (Some (bytes "common")) (Some (fst e1))
     = Some e2
  /\ nvram_find_partition nv x00 (Some (bytes "common")) (Some (fst e2))
     = None.
Proof.
  intros Hp Hnd Hlen Hn1 Hn2 Hothers.
  assert (Hl := Hlen). rewrite Hp in Hl.
  apply Forall_app in Hl. destruct Hl as [Hl0 Hl].
  inversion Hl as [ | ? ? Hle1 Hl' ]; subst.
  apply Forall_app in Hl'. destruct Hl' as [Hl1 Hl'].
  inversion Hl' as [ | ? ? Hle2 Hl2 ]; subst.
  apply Forall_app in Hothers. destruct Hothers as [Ho0 Ho].
  apply Forall_app in Ho. destruct Ho as [Ho1 Ho2].
  pose proof (not_matching_common t0 Hl0 Ho0) as Hm0.
  pose proof (not_matching_common t1 Hl1 Ho1) as Hm1.
  pose proof (not_matching_common t2 Hl2 Ho2) as Hm2.
  pose proof (proj2 (matches_common_iff (snd e1) Hle1) Hn1) as Hme1.
  pose proof (proj2 (matches_common_iff (snd e2) Hle2) Hn2) as Hme2.
  split; [ | split; [ | split; [ | split; [ | split; [ | split; [ | split ] ] ] ] ] ].
  - intros h. reflexivity.
  - intros sig nm h. apply partition_matches_iff.
  - intros nm h Hnn Hh. split; intros Hk.
    + apply strncmp_short_name; assumption.
    + apply strncmp_long_name; assumption.
  - intros sig nm. reflexivity.
  - intros sig nm t e rest Hpe.
    apply (find_partition_after nv sig nm t e rest Hpe Hnd).
  - unfold nvram_find_partition. cbn [skipn]. rewrite Hp.
    apply find_from_first; assumption.
  - rewrite (find_partition_after nv _ _ t0 e1 (t1 ++ e2 :: t2) Hp Hnd).
    apply find_from_first; assumption.
  - assert (Hp' : parts nv = (t0 ++ e1 :: t1) ++ e2 :: t2)
      by (rewrite Hp, <- app_assoc; reflexivity).
    rewrite (find_partition_after nv _ _ _ e2 t2 Hp' Hnd).
    apply find_from_none; assumption.
Qed.

Lemma find_partition_wildcards_and_resume_witness :
  nvram_find_partition two_common_nvram x00 (Some (bytes "common")) None
  = Some (0, mk_header x70 x00 2 (bytes "common" ++ repeat x00 6))
  /\ nvram_find_partition two_common_nvram x00 (Some (bytes "common")) (Some 0)
     = Some (64, mk_header x70 x00 2 (bytes "common" ++ repeat x00 6))
  /\ nvram_find_partition two_common_nvram x00 (Some (bytes "common")) (Some 64)
     = None.
Proof.
  refine (let H := find_partition_wildcards_and_resume two_common_nvram
            [] [(32, mk_header x50 x00 2 (bytes "of-config" ++ repeat x00 3))] []
            (0, mk_header x70 x00 2 (bytes "common" ++ repeat x00 6))
            (64, mk_header x70 x00 2 (bytes "common" ++ repeat x00 6))
            eq_refl _ _ _ _ _ in _).
  - exact (proj2 (proj2 (proj2 (proj2 (proj2 H))))).
  Unshelve.
  + repeat constructor; simpl; intuition discriminate.
  + repeat constructor.
  + exists (repeat x00 5). reflexivity.
  + exists (repeat x00 5). reflexivity.
  + repeat constructor. intros [rest Hr]. discriminate Hr.
Defined.

(** ** Updating a config variable *)

Lemma index_of_eq_split (s : list byte) (k : Z) :
  index_of_eq s = Some k ->
  exists nm v, s = nm ++ x3d :: v /\ no_eq nm /\ k = len nm.
Proof.
  revert k. induction s as [ | b s IH ]; intros k H; cbn [index_of_eq] in H.
  - discriminate.
  - destruct (u8 b =? 61) eqn:E; zbool.
    + injection H as <-. exists [], s. split; [ | split ].
      * cbn [app]. f_equal. apply u8_inj. rewrite E. reflexivity.
      * constructor.
      * reflexivity.
    + destruct (index_of_eq s) as [ k' | ] eqn:Es; [ | discriminate ].
      injection H as <-. destruct (IH k' eq_refl) as (nm & v & -> & Hn & ->).
      exists (b :: nm), v. split; [ reflexivity | split ].
      * constructor; assumption.
      * unfold len. cbn [List.length]. lia.
Qed.

Lemma index_of_eq_app (nm v : list byte) :
  no_eq nm -> index_of_eq (nm ++ x3d :: v) = Some (len nm).
Proof.
  induction 1 as [ | b nm Hb Hn IH ]; cbn [index_of_eq app].
  - reflexivity.
  - apply Z.eqb_neq in Hb. rewrite Hb, IH. f_equal.
    unfold len. cbn [List.length]. lia.
Qed.

Lemma name_portion_iff (s nm : list byte) :
  name_portion s = Some nm <-> exists v, s = nm ++ x3d :: v /\ no_eq nm.
Proof.
  unfold name_portion. split.
  - destruct (index_of_eq s) as [ k | ] eqn:E; [ | discriminate ].
    destruct (index_of_eq_split s k E) as (nm' & v & -> & Hn & ->).
    unfold len. rewrite Nat2Z.id, (firstn_exact _ nm') by reflexivity.
    intros H. injection H as <-. exists v. split; [ reflexivity | exact Hn ].
  - intros (v & -> & Hn). rewrite (index_of_eq_app nm v Hn).
    unfold len. rewrite Nat2Z.id, (firstn_exact _ nm) by reflexivity.
    reflexivity.
Qed.

Lemma firstn_succ_app (nm : list byte) (c : byte) (t : list byte) :
  firstn (S (List.length nm)) (nm ++ c :: t) = nm ++ [c].
Proof.
  induction nm as [ | a nm IH ]; cbn [List.length app firstn].
  - reflexivity.
  - f_equal. exact IH.
Qed.

Lemma firstn_name_eq (nm r : list byte) :
  firstn (S (List.length nm)) (r ++ [x00]) = nm ++ [x3d] ->
  exists v, r = nm ++ x3d :: v.
Proof.
  revert r. induction nm as [ | a nm IH ]; intros r H.
  - destruct r as [ | b r ]; cbn in H.
    + discriminate H.
    + injection H as ->. exists r. reflexivity.
  - destruct r as [ | b r ]; cbn [List.length app firstn] in H.
    + destruct nm; discriminate H.
    + injection H as -> H. destruct (IH r H) as [v ->]. exists v. reflexivity.
Qed.

(** The comparison of the scan: a record matches exactly when it starts
    with the name of the assignment followed by ['=']. *)
Lemma strncmp_config_name (r rest nm v : list byte) :
  no_nul r -> no_nul (nm ++ x3d :: v) ->
  strncmp (r ++ x00 :: rest) (nm ++ x3d :: v) (Z.to_nat (len nm + 1)) = 0
  <-> exists v', r = nm ++ x3d :: v'.
Proof.
  intros Hr Hc. rewrite strncmp_eq_iff.
  rewrite (cstr_no_nul r rest Hr), (cstr_no_nul_nil _ Hc).
  replace (Z.to_nat (len nm + 1)) with (S (List.length nm)) by (unfold len; lia).
  rewrite <- app_assoc. cbn [app]. rewrite firstn_succ_app.
  split.
  - apply firstn_name_eq.
  - intros [v' ->]. rewrite <- app_assoc. cbn [app]. apply firstn_succ_app.
Qed.

Lemma records_image_cons r recs :
  records_image (r :: recs) = r ++ x00 :: records_image recs.
Proof. unfold records_image. cbn [flat_map]. rewrite <- app_assoc. reflexivity. Qed.

Lemma records_image_len_ge (recs : list (list byte)) :
  Z.of_nat (List.length recs) <= len (records_image recs).
Proof.
  induction recs as [ | r recs IH ].
  - reflexivity.
  - rewrite records_image_cons, len_app, len_cons. cbn [List.length].
    pose proof (len_nonneg r). lia.
Qed.

Lemma rd_at_app (pre : list byte) (b : byte) (l : list byte) (off : Z) :
  off = len pre -> rd_at (pre ++ b :: l) off = Ret b.
Proof. intros ->. unfold rd_at. rewrite rd_app. reflexivity. Qed.

Lemma strlen_at_app (pre s rest : list byte) (off : Z) :
  off = len pre -> no_nul s ->
  strlen_at (pre ++ s ++ x00 :: rest) off = Ret (len s).
Proof.
  intros -> Hs. unfold strlen_at. rewrite from_app, (cstrlen_no_nul s rest Hs).
  reflexivity.
Qed.

Lemma rd_at_inside (d : list byte) (off : Z) :
  0 <= off < len d -> exists b, rd_at d off = Ret b.
Proof.
  intros H. unfold rd_at, rd.
  destruct (0 <=? off) eqn:E; zbool; [ | lia ].
  destruct (nth_error d (Z.to_nat off)) as [ b | ] eqn:En.
  - exists b. reflexivity.
  - apply nth_error_None in En. unfold len in H. lia.
Qed.

(** The scan steps over the records that do not match. *)
Lemma find_config_var_skips (config_var : list byte) (n : Z)
    (before : list (list byte)) :
  Forall wf_record before ->
  Forall (fun r => forall rest,
            strncmp (r ++ x00 :: rest) config_var (Z.to_nat n) <> 0) before ->
  forall (fuel : nat) (pre rest : list byte) (off : Z),
    off = len pre ->
    find_config_var (List.length before + fuel)
      (pre ++ records_image before ++ rest) config_var n off
    = find_config_var fuel
        (pre ++ records_image before ++ rest) config_var n
        (off + len (records_image before)).
Proof.
  intros Hwf. induction Hwf as [ | r before [Hne Hnn] Hwf IH ];
    intros Hnm fuel pre rest off Hoff.
  - cbn [List.length records_image flat_map Nat.add app].
    change (len []) with 0. rewrite Z.add_0_r. reflexivity.
  - inversion Hnm as [ | ? ? Hr Hnm' ]; subst.
    cbn [List.length Nat.add find_config_var].
    rewrite records_image_cons, <- !app_assoc. cbn [app].
    destruct r as [ | b r ]; [ contradiction | ]. cbn [app].
    rewrite rd_at_app by reflexivity. cbn [bind].
    inversion Hnn as [ | ? ? Hb Hr' ]; subst.
    apply Z.eqb_neq in Hb. rewrite Hb.
    rewrite (from_app pre).
    specialize (Hr (records_image before ++ rest)). cbn [app] in Hr.
    apply Z.eqb_neq in Hr. rewrite Hr.
    change (b :: r ++ x00 :: records_image before ++ rest)
      with ((b :: r) ++ x00 :: records_image before ++ rest).
    rewrite strlen_at_app by (try reflexivity; exact Hnn). cbn [bind].
    specialize (IH Hnm' fuel (pre ++ (b :: r) ++ [x00]) rest
                  (len pre + len (b :: r) + 1)).
    rewrite <- !app_assoc in IH. cbn [app] in IH. cbn [app].
    rewrite IH.
    + apply f_equal. len_norm. lia.
    + len_norm. lia.
Qed.

Lemma find_config_var_found (config_var : list byte) (n : Z) (fuel : nat)
    (pre old rest : list byte) (off : Z) :
  off = len pre -> old <> [] -> no_nul old ->
  strncmp (old ++ x00 :: rest) config_var (Z.to_nat n) = 0 ->
  find_config_var (S fuel) (pre ++ old ++ x00 :: rest) config_var n off
  = Ret (true, off).
Proof.
  intros -> Hne Hnn Hm. cbn [find_config_var].
  destruct old as [ | b old ]; [ contradiction | ]. cbn [app].
  rewrite rd_at_app by reflexivity. cbn [bind].
  inversion Hnn as [ | ? ? Hb _ ]; subst. apply Z.eqb_neq in Hb. rewrite Hb.
  rewrite from_app. cbn [app] in Hm. rewrite Hm. reflexivity.
Qed.

Lemma find_config_var_end (config_var : list byte) (n : Z) (fuel : nat)
    (pre rest : list byte) (off : Z) :
  off = len pre ->
  find_config_var (S fuel) (pre ++ x00 :: rest) config_var n off
  = Ret (false, off).
Proof.
  intros ->. cbn [find_config_var]. rewrite rd_at_app by reflexivity.
  cbn [bind]. rewrite u8_x00. reflexivity.
Qed.

Lemma skip_config_vars_end (tail : list (list byte)) :
  Forall wf_record tail ->
  forall (fuel : nat) (pre rest : list byte) (off : Z),
    off = len pre ->
    skip_config_vars (List.length tail + S fuel)
      (pre ++ records_image tail ++ x00 :: rest) off
    = Ret (off + len (records_image tail)).
Proof.
  induction 1 as [ | r tail [Hne Hnn] Hwf IH ]; intros fuel pre rest off Hoff.
  - cbn [List.length records_image flat_map Nat.add app skip_config_vars].
    rewrite rd_at_app by exact Hoff. cbn [bind]. rewrite u8_x00.
    change (len []) with 0. rewrite Z.add_0_r. reflexivity.
  - cbn [List.length Nat.add skip_config_vars].
    rewrite records_image_cons, <- !app_assoc. cbn [app].
    destruct r as [ | b r ]; [ contradiction | ]. cbn [app].
    rewrite rd_at_app by exact Hoff. cbn [bind].
    inversion Hnn as [ | ? ? Hb Hr' ]; subst.
    apply Z.eqb_neq in Hb. rewrite Hb.
    change (b :: r ++ x00 :: records_image tail ++ x00 :: rest)
      with ((b :: r) ++ x00 :: records_image tail ++ x00 :: rest).
    rewrite strlen_at_app by (try reflexivity; exact Hnn). cbn [bind].
    specialize (IH fuel (pre ++ (b :: r) ++ [x00]) rest
                  (len pre + len (b :: r) + 1)).
    rewrite <- !app_assoc in IH. cbn [app] in IH. cbn [app].
    rewrite IH.
    + apply f_equal. len_norm. lia.
    + len_norm. lia.
Qed.

Lemma no_match_strncmp (nm v : list byte) (recs : list (list byte)) :
  no_nul (nm ++ x3d :: v) -> no_eq nm ->
  Forall wf_record recs ->
  Forall (fun r => name_portion r <> Some nm) recs ->
  Forall (fun r => forall rest,
            strncmp (r ++ x00 :: rest) (nm ++ x3d :: v)
              (Z.to_nat (len nm + 1)) <> 0) recs.
Proof.
  intros Hc Hn Hwf Hnp. rewrite Forall_forall in *. intros r Hr rest Hs.
  apply (Hnp r Hr). apply name_portion_iff.
  apply strncmp_config_name in Hs; [ | apply (Hwf r Hr) | exact Hc ].
  destruct Hs as [v' ->]. exists v'. split; [ reflexivity | exact Hn ].
Qed.

Lemma fuel_split (n m : nat) : (n < m)%nat -> exists f, m = (n + S f)%nat.
Proof. intros H. exists (m - n - 1)%nat. lia. Qed.

(** A string without NUL, by evaluation. *)
Lemma no_nul_forallb (s : list byte) :
  forallb (fun b => negb (u8 b =? 0)) s = true -> no_nul s.
Proof.
  induction s as [ | b s IH ]; cbn [forallb]; intros H.
  - constructor.
  - apply andb_true_iff in H. destruct H as [H1 H2].
    apply negb_true_iff, Z.eqb_neq in H1.
    constructor; [ exact H1 | exact (IH H2) ].
Qed.

(** [err_msg] on a text that fits, and on one that does not. *)
Lemma err_msg_fits (nvram_cmdname text : list byte) :
  msg_bytes nvram_cmdname (bytes "ERROR: ") text <= MAXLINE ->
  err_msg nvram_cmdname text = Ret tt.
Proof.
  intros H. unfold err_msg, _msg. apply Z.leb_le in H. rewrite H. reflexivity.
Qed.

Lemma err_msg_overrun (nvram_cmdname text : list byte) :
  MAXLINE < msg_bytes nvram_cmdname (bytes "ERROR: ") text ->
  err_msg nvram_cmdname text
  = Fault (BufferOverrun (msg_bytes nvram_cmdname (bytes "ERROR: ") text)).
Proof.
  intros H. unfold err_msg, _msg. apply Z.leb_gt in H. rewrite H. reflexivity.
Qed.

(** The first part of the update, when the named partition exists and none
    of its records has the name portion of the assignment: the function
    goes to report that the variable does not exist. *)
Lemma update_prepare_unknown_var
    (nvram_cmdname : list byte) (w : world) (config_var pname : list byte)
    (phead : Z) (ph : partition_header)
    (pre : list byte) (recs : list (list byte)) (rest : list byte) :
  nvram_find_partition (w_nvram w) x00 (Some pname) None = Some (phead, ph) ->
  data (w_nvram w) = pre ++ records_image recs ++ x00 :: rest ->
  len pre = phead + 16 ->
  Forall wf_record recs ->
  no_nul config_var ->
  name_portion config_var <> None ->
  Forall (fun r => name_portion r <> name_portion config_var) recs ->
  update_prepare nvram_cmdname w config_var pname
  = (_ <- err_msg nvram_cmdname (no_config_var_text config_var pname) ;;
     Ret (Refused (-1) (say w (Err_no_config_var config_var pname)))).
Proof.
  intros Hfind Hdata Hpre Hwf Hnn Hname Hnone.
  unfold update_prepare. rewrite Hfind.
  destruct (name_portion config_var) as [ nm | ] eqn:Hnp; [ | contradiction ].
  apply name_portion_iff in Hnp. destruct Hnp as (v & -> & Hne).
  rewrite (index_of_eq_app nm v Hne). cbv zeta.
  pose proof (no_match_strncmp nm v recs Hnn Hne Hwf Hnone) as Hs.
  rewrite Hdata.
  destruct (fuel_split (List.length recs)
              (S (List.length (pre ++ records_image recs ++ x00 :: rest))))
    as [f Hf].
  { pose proof (records_image_len_ge recs) as Hge.
    rewrite !length_app. unfold len in Hge. lia. }
  rewrite Hf.
  rewrite (find_config_var_skips _ _ recs Hwf Hs (S f) pre (x00 :: rest))
    by (symmetry; exact Hpre).
  rewrite app_assoc.
  rewrite find_config_var_end by (len_norm; lia).
  reflexivity.
Qed.

(** X25: when the named partition exists and none of its records has the
    name portion of the assignment, and the message fits the buffer of
    [_msg], [update_of_config_var] fails with the "config var does not
    exist" error and creates no variable: the backing store is not touched
    (neither written nor repositioned) and the image, hence the record set
    of the partition, is unchanged. *)
Theorem update_unknown_var_not_found
    (nvram_cmdname filename : list byte)
    (fuel : nat) (w : world) (config_var pname : list byte)
    (phead : Z) (ph : partition_header)
    (pre : list byte) (recs : list (list byte)) (rest : list byte) :
  nvram_find_partition (w_nvram w) x00 (Some pname) None = Some (phead, ph) ->
  data (w_nvram w) = pre ++ records_image recs ++ x00 :: rest ->
  len pre = phead + 16 ->
  Forall wf_record recs ->
  no_nul config_var ->
  name_portion config_var <> None ->
  Forall (fun r => name_portion r <> name_portion config_var) recs ->
  msg_bytes nvram_cmdname (bytes "ERROR: ")
    (no_config_var_text config_var pname) <= MAXLINE ->
  update_of_config_var nvram_cmdname filename fuel w config_var pname
  = Ret (-1, mk_world (w_nvram w) (w_fd w)
               (w_out w ++ [Err_no_config_var config_var pname])).
Proof.
  intros Hfind Hdata Hpre Hwf Hnn Hname Hnone Hfits.
  unfold update_of_config_var.
  rewrite (update_prepare_unknown_var nvram_cmdname w config_var pname phead
             ph pre recs rest) by assumption.
  rewrite (err_msg_fits _ _ Hfits). reflexivity.
Qed.

(** C3: when the named partition exists and none of its records has the
    name portion of the assignment, [update_of_config_var] goes to report
    that the variable does not exist, and creates none; but for an
    assignment so long that the message needs more than the [MAXLINE] bytes
    of the buffer of [_msg], the message is stored past the end of that
    buffer and the function does not return its -1 (NotFound). *)
Theorem update_unknown_var_overruns_msg
    (nvram_cmdname filename : list byte)
    (fuel : nat) (w : world) (config_var pname : list byte)
    (phead : Z) (ph : partition_header)
    (pre : list byte) (recs : list (list byte)) (rest : list byte) :
  nvram_find_partition (w_nvram w) x00 (Some pname) None = Some (phead, ph) ->
  data (w_nvram w) = pre ++ records_image recs ++ x00 :: rest ->
  len pre = phead + 16 ->
  Forall wf_record recs ->
  no_nul config_var ->
  name_portion config_var <> None ->
  Forall (fun r => name_portion r <> name_portion config_var) recs ->
  MAXLINE < msg_bytes nvram_cmdname (bytes "ERROR: ")
              (no_config_var_text config_var pname) ->
  update_of_config_var nvram_cmdname filename fuel w config_var pname
  = Fault (BufferOverrun
             (msg_bytes nvram_cmdname (bytes "ERROR: ")
                (no_config_var_text config_var pname))).
Proof.
  intros Hfind Hdata Hpre Hwf Hnn Hname Hnone Hbig.
  unfold update_of_config_var.
  rewrite (update_prepare_unknown_var nvram_cmdname w config_var pname phead
             ph pre recs rest) by assumption.
  rewrite (err_msg_overrun _ _ Hbig). reflexivity.
Qed.

(** Facts about concrete bytes and strings, by evaluation. *)
Ltac by_eval :=
  repeat match goal with
  | |- _ /\ _ => split
  | |- Forall _ _ => constructor
  | |- wf_record _ => split
  | |- no_nul _ => unfold no_nul
  | |- no_eq _ => unfold no_eq
  | |- _ <> _ => let H := fresh in intro H; vm_compute in H; discriminate H
  | |- _ = _ => vm_compute; reflexivity
  | |- (_ <= _)%Z => vm_compute; discriminate
  | |- (_ < _)%Z => vm_compute; reflexivity
  end.

Lemma update_unknown_var_not_found_witness :
  update_of_config_var (bytes "nvram") (bytes "/dev/nvram") 5
    (common_world 32) (bytes "baz=2222") (bytes "common")
  = Ret (-1, mk_world common_nvram (mk_fd common_image 0 32)
               [Err_no_config_var (bytes "baz=2222") (bytes "common")]).
Proof.
  apply (update_unknown_var_not_found (bytes "nvram") (bytes "/dev/nvram") 5
           (common_world 32) (bytes "baz=2222")
           (bytes "common") 0 common_header (encode_header common_header)
           [bytes "foo=1"; bytes "bar=2"] (repeat x00 3)); by_eval.
Defined.

(** An assignment of the variable "baz" to a value of 4096 bytes, the
    longest the data model has. *)
Lemma update_unknown_var_overruns_msg_witness :
  update_of_config_var (bytes "nvram") (bytes "/dev/nvram") 5
    (common_world 32) long_assignment_baz (bytes "common")
  = Fault (BufferOverrun 4187).
Proof.
  apply (update_unknown_var_overruns_msg (bytes "nvram") (bytes "/dev/nvram")
           5 (common_world 32) long_assignment_baz
           (bytes "common") 0 common_header (encode_header common_header)
           [bytes "foo=1"; bytes "bar=2"] (repeat x00 3)).
  - vm_compute. reflexivity.
  - vm_compute. reflexivity.
  - vm_compute. reflexivity.
  - by_eval.
  - apply no_nul_forallb. vm_compute. reflexivity.
  - intro H. vm_compute in H. discriminate H.
  - by_eval.
  - vm_compute. reflexivity.
Defined.

(** The scans, on an image given by its layout. *)
Lemma find_config_var_layout_found (d : list byte) (config_var : list byte)
    (n : Z) (fuel : nat) (pre : list byte) (before : list (list byte))
    (old rest : list byte) (off : Z) :
  d = pre ++ records_image before ++ old ++ x00 :: rest ->
  off = len pre ->
  Forall wf_record before ->
  Forall (fun r => forall rest,
            strncmp (r ++ x00 :: rest) config_var (Z.to_nat n) <> 0) before ->
  old <> [] -> no_nul old ->
  strncmp (old ++ x00 :: rest) config_var (Z.to_nat n) = 0 ->
  (List.length before < fuel)%nat ->
  find_config_var fuel d config_var n off
  = Ret (true, off + len (records_image before)).
Proof.
  intros -> Hoff Hwf Hs Hne Hnn Hm Hfuel.
  destruct (fuel_split _ _ Hfuel) as [f ->].
  rewrite (find_config_var_skips _ _ before Hwf Hs (S f) pre) by exact Hoff.
  rewrite app_assoc.
  apply find_config_var_found; try assumption. len_norm. lia.
Qed.

Lemma skip_config_vars_layout (d : list byte) (fuel : nat) (pre : list byte)
    (tail : list (list byte)) (rest : list byte) (off : Z) :
  d = pre ++ records_image tail ++ x00 :: rest ->
  off = len pre ->
  Forall wf_record tail ->
  (List.length tail < fuel)%nat ->
  skip_config_vars fuel d off = Ret (off + len (records_image tail)).
Proof.
  intros -> Hoff Hwf Hfuel. destruct (fuel_split _ _ Hfuel) as [f ->].
  apply skip_config_vars_end; assumption.
Qed.

Lemma strlen_at_layout (d pre s rest : list byte) (off : Z) :
  d = pre ++ s ++ x00 :: rest -> off = len pre -> no_nul s ->
  strlen_at d off = Ret (len s).
Proof. intros -> Hoff Hs. apply strlen_at_app; assumption. Qed.

Lemma rd_at_layout (d pre : list byte) (b : byte) (rest : list byte) (off : Z) :
  d = pre ++ b :: rest -> off = len pre -> rd_at d off = Ret b.
Proof. intros -> Hoff. apply rd_at_app; assumption. Qed.

(** The two "not enough room" messages: the second is the longer one. *)
Lemma no_room_text_shorter (config_var pname : list byte) :
  len (no_room_tail_text config_var pname)
  = len (no_room_text config_var pname) + 15.
Proof.
  unfold no_room_tail_text, no_room_text. rewrite !len_app.
  change (len (bytes "cannot update open firmware config var to ")) with 42.
  change (len (bytes "cannot update config var to")) with 27.
  lia.
Qed.

(** The first part of the update, when the new assignment and the retained
    tail do not fit in the partition: the function goes to report one of its
    two "not enough room" errors.  The partition holds the records
    [before], then the record [old] that carries the name of the
    assignment, then the records [tail] and the terminating empty record;
    [old] starts inside the partition. *)
Lemma update_prepare_no_room
    (nvram_cmdname : list byte) (w : world) (config_var pname : list byte)
    (phead : Z) (ph : partition_header)
    (pre : list byte) (before : list (list byte)) (old : list byte)
    (tail : list (list byte)) (rest : list byte) :
  nvram_find_partition (w_nvram w) x00 (Some pname) None = Some (phead, ph) ->
  data (w_nvram w)
  = pre ++ records_image before ++ old ++ x00 :: records_image tail
        ++ x00 :: rest ->
  len pre = phead + 16 ->
  Forall wf_record before -> no_nul old -> Forall wf_record tail ->
  no_nul config_var ->
  name_portion config_var <> None ->
  Forall (fun r => name_portion r <> name_portion config_var) before ->
  name_portion old = name_portion config_var ->
  16 + len (records_image before) <= ph_length ph * 16 ->
  ph_length ph * 16
    < 16 + len (records_image before) + (len config_var + 1)
      + (len (records_image tail) + 1) ->
  exists m text,
    ((m = Err_no_room config_var pname
      /\ text = no_room_text config_var pname)
     \/ (m = Err_no_room_tail config_var pname
         /\ text = no_room_tail_text config_var pname))
    /\ update_prepare nvram_cmdname w config_var pname
       = (_ <- err_msg nvram_cmdname text ;; Ret (Refused (-1) (say w m))).
Proof.
  intros Hfind Hdata Hpre Hwfb Hold Hwft Hnn Hname Hnone Hsame Hin Hbig.
  unfold update_prepare. rewrite Hfind.
  destruct (name_portion config_var) as [ nm | ] eqn:Hnp; [ | contradiction ].
  apply name_portion_iff in Hnp. destruct Hnp as (v & -> & Hne).
  apply name_portion_iff in Hsame. destruct Hsame as (v' & -> & _).
  rewrite (index_of_eq_app nm v Hne). cbv zeta.
  pose proof (no_match_strncmp nm v before Hnn Hne Hwfb Hnone) as Hs.
  remember (nm ++ x3d :: v) as cfg eqn:Hcfg.
  remember (nm ++ x3d :: v') as old eqn:Hold'.
  remember (data (w_nvram w)) as d eqn:Hd.
  remember (len (records_image before)) as lb eqn:Hlb.
  remember (len (records_image tail)) as lt eqn:Hlt.
  assert (Hlen : len d = len pre + lb + len old + 1 + lt + 1 + len rest).
  { rewrite Hdata. len_norm. lia. }
  pose proof (len_nonneg pre). pose proof (len_nonneg old).
  pose proof (len_nonneg rest).
  pose proof (records_image_len_ge before) as Hgb. rewrite <- Hlb in Hgb.
  pose proof (records_image_len_ge tail) as Hgt. rewrite <- Hlt in Hgt.
  assert (Hm : strncmp (old ++ x00 :: records_image tail ++ x00 :: rest) cfg
                 (Z.to_nat (len nm + 1)) = 0).
  { subst cfg old.
    apply strncmp_config_name; [ exact Hold | exact Hnn | exists v'; reflexivity ]. }
  (* the scan for the variable *)
  rewrite (find_config_var_layout_found d cfg _ _ pre before old
             (records_image tail ++ x00 :: rest) (phead + 16) Hdata);
    [ | lia | assumption | assumption
      | subst old; destruct nm; discriminate | assumption | assumption
      | unfold len in Hlen, Hgb; lia ].
  cbn [bind negb]. unfold NVRAM_BLOCK_SIZE. rewrite <- Hlb.
  replace (phead + 16 + lb - phead) with (16 + lb) by lia.
  destruct (ph_length ph * 16 <? 16 + lb) eqn:E1; zbool; [ lia | ].
  destruct (16 + lb + len cfg + 1 >=? ph_length ph * 16) eqn:E2.
  { exists (Err_no_room cfg pname), (no_room_text cfg pname).
    split; [ left; split; reflexivity | reflexivity ]. }
  zbool.
  (* the scan for the end of the records *)
  rewrite (strlen_at_layout d (pre ++ records_image before) old
             (records_image tail ++ x00 :: rest));
    [ | rewrite Hdata, <- !app_assoc; reflexivity
      | len_norm; lia | assumption ].
  cbn [bind].
  rewrite (skip_config_vars_layout d _
             ((pre ++ records_image before) ++ old ++ [x00]) tail rest);
    [ | rewrite Hdata, <- !app_assoc; reflexivity
      | len_norm; lia | assumption
      | unfold len in Hlen, Hgt; lia ].
  cbn [bind]. rewrite <- Hlt.
  destruct (rd_at_inside d (phead + 16 + lb + len old + 1 + lt - 1))
    as [b1 Hb1]; [ lia | ].
  rewrite Hb1. cbn [bind].
  rewrite (rd_at_layout d
             (((pre ++ records_image before) ++ old ++ [x00])
                ++ records_image tail) x00 rest);
    [ | rewrite Hdata, <- !app_assoc; reflexivity
      | len_norm; lia ].
  cbn [bind]. rewrite u8_x00. cbn [Z.eqb negb]. rewrite andb_false_r.
  destruct (16 + lb + len cfg + 1
            + (phead + 16 + lb + len old + 1 + lt + 1
               - (phead + 16 + lb + len old + 1)) >? ph_length ph * 16) eqn:E3.
  { exists (Err_no_room_tail cfg pname), (no_room_tail_text cfg pname).
    split; [ right; split; reflexivity | reflexivity ]. }
  zbool. lia.
Qed.

(** X24: when the new assignment plus the retained tail records would not
    fit in the partition's capacity [length * 16], and the message fits the
    buffer of [_msg], [update_of_config_var] fails with one of its two "not
    enough room" errors before any access to the backing store: the store
    is neither written nor repositioned and the in-memory image is
    unchanged. *)
Theorem update_insufficient_space
    (nvram_cmdname filename : list byte)
    (fuel : nat) (w : world) (config_var pname : list byte)
    (phead : Z) (ph : partition_header)
    (pre : list byte) (before : list (list byte)) (old : list byte)
    (tail : list (list byte)) (rest : list byte) :
  nvram_find_partition (w_nvram w) x00 (Some pname) None = Some (phead, ph) ->
  data (w_nvram w)
  = pre ++ records_image before ++ old ++ x00 :: records_image tail
        ++ x00 :: rest ->
  len pre = phead + 16 ->
  Forall wf_record before -> no_nul old -> Forall wf_record tail ->
  no_nul config_var ->
  name_portion config_var <> None ->
  Forall (fun r => name_portion r <> name_portion config_var) before ->
  name_portion old = name_portion config_var ->
  16 + len (records_image before) <= ph_length ph * 16 ->
  ph_length ph * 16
    < 16 + len (records_image before) + (len config_var + 1)
      + (len (records_image tail) + 1) ->
  msg_bytes nvram_cmdname (bytes "ERROR: ")
    (no_room_tail_text config_var pname) <= MAXLINE ->
  exists m,
    (m = Err_no_room config_var pname \/ m = Err_no_room_tail config_var pname)
    /\ update_of_config_var nvram_cmdname filename fuel w config_var pname
       = Ret (-1, mk_world (w_nvram w) (w_fd w) (w_out w ++ [m])).
Proof.
  intros Hfind Hdata Hpre Hwfb Hold Hwft Hnn Hname Hnone Hsame Hin Hbig Hfits.
  destruct (update_prepare_no_room nvram_cmdname w config_var pname phead ph
              pre before old tail rest) as (m & text & Hm & Hprep);
    try assumption.
  exists m. unfold update_of_config_var. rewrite Hprep.
  pose proof (no_room_text_shorter config_var pname) as Hlen.
  unfold msg_bytes in Hfits.
  destruct Hm as [ [-> ->] | [-> ->] ];
    (rewrite err_msg_fits by (unfold msg_bytes; lia));
    (split; [ | reflexivity ]); [ left | right ]; reflexivity.
Qed.

(** C2: when the new assignment plus the retained tail records would not
    fit in the partition's capacity [length * 16], [update_of_config_var]
    goes to report one of its two "not enough room" errors before any
    access to the backing store; but for an assignment so long that the
    message needs more than the [MAXLINE] bytes of the buffer of [_msg],
    the message is stored past the end of that buffer and the function
    does not return its -1 (InsufficientSpace). *)
Theorem update_insufficient_space_overruns_msg
    (nvram_cmdname filename : list byte)
    (fuel : nat) (w : world) (config_var pname : list byte)
    (phead : Z) (ph : partition_header)
    (pre : list byte) (before : list (list byte)) (old : list byte)
    (tail : list (list byte)) (rest : list byte) :
  nvram_find_partition (w_nvram w) x00 (Some pname) None = Some (phead, ph) ->
  data (w_nvram w)
  = pre ++ records_image before ++ old ++ x00 :: records_image tail
        ++ x00 :: rest ->
  len pre = phead + 16 ->
  Forall wf_record before -> no_nul old -> Forall wf_record tail ->
  no_nul config_var ->
  name_portion config_var <> None ->
  Forall (fun r => name_portion r <> name_portion config_var) before ->
  name_portion old = name_portion config_var ->
  16 + len (records_image before) <= ph_length ph * 16 ->
  ph_length ph * 16
    < 16 + len (records_image before) + (len config_var + 1)
      + (len (records_image tail) + 1) ->
  MAXLINE < msg_bytes nvram_cmdname (bytes "ERROR: ")
              (no_room_text config_var pname) ->
  exists n,
    MAXLINE < n
    /\ update_of_config_var nvram_cmdname filename fuel w config_var pname
       = Fault (BufferOverrun n).
Proof.
  intros Hfind Hdata Hpre Hwfb Hold Hwft Hnn Hname Hnone Hsame Hin Hbig Hover.
  destruct (update_prepare_no_room nvram_cmdname w config_var pname phead ph
              pre before old tail rest) as (m & text & Hm & Hprep);
    try assumption.
  exists (msg_bytes nvram_cmdname (bytes "ERROR: ") text).
  pose proof (no_room_text_shorter config_var pname) as Hlen.
  unfold msg_bytes in Hover.
  assert (Htext : MAXLINE < msg_bytes nvram_cmdname (bytes "ERROR: ") text).
  { destruct Hm as [ [_ ->] | [_ ->] ]; unfold msg_bytes; lia. }
  split; [ exact Htext | ].
  unfold update_of_config_var. rewrite Hprep.
  rewrite (err_msg_overrun _ _ Htext). reflexivity.
Qed.

Lemma update_insufficient_space_witness :
  exists m,
    (m = Err_no_room (bytes "foo=22222") (bytes "common")
     \/ m = Err_no_room_tail (bytes "foo=22222") (bytes "common"))
    /\ update_of_config_var (bytes "nvram") (bytes "/dev/nvram") 5
         (common_world 32) (bytes "foo=22222") (bytes "common")
       = Ret (-1, mk_world common_nvram (mk_fd common_image 0 32) [m]).
Proof.
  apply (update_insufficient_space (bytes "nvram") (bytes "/dev/nvram") 5
           (common_world 32) (bytes "foo=22222")
           (bytes "common") 0 common_header (encode_header common_header)
           [] (bytes "foo=1") [bytes "bar=2"] (repeat x00 3)); by_eval.
Defined.

(** An assignment of the variable "foo", which the partition defines, to a
    value of 4096 bytes. *)
Lemma update_insufficient_space_overruns_msg_witness :
  exists n,
    MAXLINE < n
    /\ update_of_config_var (bytes "nvram") (bytes "/dev/nvram") 5
         (common_world 32) long_assignment_foo (bytes "common")
       = Fault (BufferOverrun n).
Proof.
  apply (update_insufficient_space_overruns_msg (bytes "nvram")
           (bytes "/dev/nvram") 5 (common_world 32) long_assignment_foo
           (bytes "common") 0 common_header (encode_header common_header)
           [] (bytes "foo=1") [bytes "bar=2"] (repeat x00 3)).
  - vm_compute. reflexivity.
  - vm_compute. reflexivity.
  - vm_compute. reflexivity.
  - by_eval.
  - by_eval.
  - by_eval.
  - apply no_nul_forallb. vm_compute. reflexivity.
  - intro H. vm_compute in H. discriminate H.
  - by_eval.
  - vm_compute. reflexivity.
  - vm_compute. discriminate.
  - vm_compute. reflexivity.
  - vm_compute. reflexivity.
Defined.

(** The two runs, evaluated: the message of the first needs 4198 bytes and
    the message of the second 4187, of a buffer of 4096. *)
Lemma update_long_assignment_examples :
  update_of_config_var (bytes "nvram") (bytes "/dev/nvram") 5
    (common_world 32) long_assignment_foo (bytes "common")
  = Fault (BufferOverrun 4198)
  /\ update_of_config_var (bytes "nvram") (bytes "/dev/nvram") 5
       (common_world 32) long_assignment_baz (bytes "common")
     = Fault (BufferOverrun 4187).
Proof. split; vm_compute; reflexivity. Qed.

Lemma update_prepare_image (nvram_cmdname : list byte) (w : world)
    (config_var pname : list byte)
    (new_part : list byte) (part_size : Z) (new_phead : partition_header) :
  update_prepare nvram_cmdname w config_var pname
  = Ret (Image new_part part_size new_phead) ->
  exists phead ph,
    nvram_find_partition (w_nvram w) x00 (Some pname) None = Some (phead, ph)
    /\ part_size = ph_length ph * 16.
Proof.
  unfold update_prepare.
  destruct (nvram_find_partition (w_nvram w) x00 (Some pname) None)
    as [ [phead ph] | ].
  2: { intros H. unfold bind in H. destruct (err_msg _ _); discriminate H. }
  intros H. exists phead, ph. split; [ reflexivity | ].
  unfold bind in H.
  repeat match type of H with
         | context [match ?x with _ => _ end] => destruct x; try discriminate H
         end.
  injection H as _ <- _. reflexivity.
Qed.


(** After a complete write the return value is the same 0. *)
Lemma update_complete_write
    (nvram_cmdname filename : list byte)
    (fuel : nat) (w : world) (config_var pname : list byte)
    (new_part : list byte) (part_size : Z) (new_phead : partition_header)
    (w1 : world) (f : fdstate) :
  update_prepare nvram_cmdname w config_var pname
  = Ret (Image new_part part_size new_phead) ->
  nvram_find_fd_partition fuel w (ph_name new_phead) = Ret (0, w1) ->
  sys_write (w_fd w1) new_part = (part_size, f) ->
  update_of_config_var nvram_cmdname filename fuel w config_var pname
  = Ret (0, mk_world (w_nvram w1) f (w_out w1)).
Proof.
  intros Hprep Hfd Hwr.
  unfold update_of_config_var, update_commit. rewrite Hprep. cbn [bind].
  rewrite Hfd. cbn [bind]. rewrite Hwr, !Z.eqb_refl. reflexivity.
Qed.


(** ** The VPD decoder *)

Lemma rd_layout (d pre : list byte) (b : byte) (rest : list byte) (off : Z) :
  d = pre ++ b :: rest -> off = len pre -> rd d off = Some b.
Proof. intros -> ->. apply rd_app. Qed.

Lemma rdb_ok (d : list byte) (p : Z) (b : byte) (s : dstate) :
  rd d p = Some b ->
  rdb d p s = (Ret b, mk_dstate (d_reads s ++ [(p, 1)]) (d_out s)).
Proof. intros H. unfold rdb. rewrite H. reflexivity. Qed.

Lemma block_layout (d pre s rest : list byte) (off : Z) :
  d = pre ++ s ++ rest -> off = len pre -> block d off (len s) = s.
Proof.
  intros -> ->. unfold block. rewrite from_app. unfold len.
  rewrite Nat2Z.id. apply firstn_exact. reflexivity.
Qed.

Lemma rdblock_ok (d pre blk rest : list byte) (p : Z) (s : dstate) :
  d = pre ++ blk ++ rest -> p = len pre ->
  rdblock d p (len blk) s
  = (Ret blk, mk_dstate (d_reads s ++ [(p, len blk)]) (d_out s)).
Proof.
  intros Hd Hp. unfold rdblock.
  rewrite (block_layout d pre blk rest p Hd Hp).
  assert (H : (0 <=? p) && (p + len blk <=? len d) = true).
  { subst d p. len_norm. pose proof (len_nonneg pre).
    pose proof (len_nonneg rest).
    apply andb_true_iff. split; apply Z.leb_le; lia. }
  rewrite H. reflexivity.
Qed.

(** At a descriptor byte that is neither 0x82 nor 0, inside the payload,
    the loop of [dump_vpd] reads the same byte again on every iteration
    and prints nothing. *)
Lemma vpd_descriptors_stuck (descs : list (list byte * list byte))
    (d : list byte) (p p_end : Z) (show_all : bool) (b : byte) :
  rd d p = Some b -> u8 b <> 0 -> u8 b <> 130 -> p < p_end ->
  forall (fuel : nat) (s : dstate),
    exists s',
      vpd_descriptors fuel descs d p p_end show_all s = (OutOfFuel, s')
      /\ d_out s' = d_out s.
Proof.
  intros Hrd H0 H82 Hlt. induction fuel as [ | fuel IH ]; intros s.
  - exists s. split; reflexivity.
  - cbn [vpd_descriptors]. unfold dbind at 1. rewrite (rdb_ok d p b s Hrd).
    apply Z.eqb_neq in H0, H82. apply Z.ltb_lt in Hlt.
    rewrite H0, H82, Hlt. cbn [negb andb].
    destruct (IH (mk_dstate (d_reads s ++ [(p, 1)]) (d_out s))) as (s' & Hs & Ho).
    exists s'. split; [ exact Hs | exact Ho ].
Qed.

Lemma vpd_header_matches (sig : byte) (blocks : Z) :
  partition_matches sig (Some (bytes "ibm,vpd")) (vpd_header sig blocks) = true.
Proof.
  unfold partition_matches. cbn [ph_signature vpd_header].
  rewrite Z.eqb_refl, orb_true_r. reflexivity.
Qed.

Lemma find_vpd_nvram (sig : byte) (payload : list byte) :
  nvram_find_partition (vpd_nvram sig payload) sig (Some (bytes "ibm,vpd")) None
  = Some (0, vpd_header sig (1 + len payload / 16)).
Proof.
  unfold nvram_find_partition, vpd_nvram. cbn [parts skipn find_from snd].
  rewrite vpd_header_matches. reflexivity.
Qed.

(** C6 (the code at the failing input): on a payload whose first byte is
    0x01, neither 0x82 nor 0, [dump_vpd] neither reports the unknown
    descriptor nor stops: whatever the number of loop iterations allowed,
    the loop is still at that byte and nothing has been printed. *)
Theorem dump_vpd_unknown_descriptor_loops :
  forall (fuel : nat) (sig : byte) (descs : list (list byte * list byte))
         (show_all : bool),
    fst (dump_vpd fuel sig descs (vpd_nvram sig vpd_unknown_payload)
           show_all dstart) = OutOfFuel
    /\ d_out (snd (dump_vpd fuel sig descs (vpd_nvram sig vpd_unknown_payload)
                     show_all dstart)) = [].
Proof.
  intros fuel sig descs show_all. unfold dump_vpd.
  rewrite find_vpd_nvram. unfold vpd_decode, dbind.
  destruct (vpd_descriptors_stuck descs
              (data (vpd_nvram sig vpd_unknown_payload)) (0 + 16)
              (0 + ph_length (vpd_header sig (1 + len vpd_unknown_payload / 16)) * 16)
              show_all x01 eq_refl ltac:(discriminate) ltac:(discriminate)
              eq_refl fuel dstart) as (s' & Hs & Ho).
  rewrite Hs. split; [ reflexivity | exact Ho ].
Qed.

Lemma le16_join (n : Z) :
  0 <= n < 65536 ->
  Z.lor (u8 (byte.of_Z (n mod 256))) (Z.shiftl (u8 (byte.of_Z (n / 256))) 8)
  = n.
Proof.
  intros Hn.
  assert (0 <= n / 256 < 256)
    by (split; [ apply Z.div_pos; lia | apply Z.div_lt_upper_bound; lia ]).
  pose proof (Z.mod_pos_bound n 256 ltac:(lia)).
  rewrite !u8_of_Z by lia.
  rewrite Z.shiftl_mul_pow2 by lia. change (2 ^ 8) with 256.
  set (lo := n mod 256) in *. set (hi := n / 256) in *.
  assert (Hland : Z.land lo (hi * 256) = 0).
  { apply Z.bits_inj'. intros k Hk. rewrite Z.land_spec, Z.bits_0.
    destruct (Z.ltb_spec k 8).
    - change 256 with (2 ^ 8). rewrite Z.mul_pow2_bits_low by lia.
      apply andb_false_r.
    - unfold lo. change 256 with (2 ^ 8).
      rewrite (Z.mod_pow2_bits_high n 8 k) by lia. reflexivity. }
  pose proof (Z.add_lor_land lo (hi * 256)) as Hadd.
  pose proof (Z.div_mod n 256 ltac:(lia)) as Hdm. fold lo hi in Hdm. lia.
Qed.

Lemma dbind_ret {A B : Type} (m : D A) (k : A -> D B) (s s' : dstate) (a : A) :
  m s = (Ret a, s') -> dbind m k s = k a s'.
Proof. intros H. unfold dbind. rewrite H. reflexivity. Qed.

(** C5, as stated, fails on its own example: on the five bytes 0x82, 0x02,
    'I', 'D', 0x79 (padded with NULs to the one block of the partition,
    whose declared end is offset 32) [getvalue] takes 0x02 and 'I' for the
    length 0x4902, so the decoder copies 18690 bytes from offset 19 on, far
    beyond the declared end, and prints no line. *)
Lemma dump_vpd_five_bytes :
  fst (dump_vpd 20 x52 [] (vpd_nvram x52 vpd_id_payload) true dstart)
  = Fault (OutOfBounds 32)
  /\ d_out (snd (dump_vpd 20 x52 [] (vpd_nvram x52 vpd_id_payload) true
                   dstart)) = []
  /\ d_reads (snd (dump_vpd 20 x52 [] (vpd_nvram x52 vpd_id_payload) true
                     dstart)) = [(16, 1); (17, 1); (18, 1); (19, 18690)]
  /\ reads_beyond 32
       (snd (dump_vpd 20 x52 [] (vpd_nvram x52 vpd_id_payload) true dstart))
     = true.
Proof. vm_compute. repeat split. Qed.

(** The same holds whatever the fuel, the signature, the table of field
    names and the verbosity are. *)
Lemma dump_vpd_five_bytes_any (fuel : nat) (sig : byte)
    (descs : list (list byte * list byte)) (show_all : bool) :
  dump_vpd (S fuel) sig descs (vpd_nvram sig vpd_id_payload) show_all dstart
  = (Fault (OutOfBounds 32),
     mk_dstate [(16, 1); (17, 1); (18, 1); (19, 18690)] []).
Proof.
  unfold dump_vpd. rewrite find_vpd_nvram. reflexivity.
Qed.

(** The check of [p_end] comes after the read of [*p]: a descriptor that
    ends exactly at the declared end of the partition makes the loop read
    the byte at the declared end, here the first byte after the image. *)
Lemma dump_vpd_reads_declared_end (fuel : nat) (sig : byte)
    (descs : list (list byte * list byte)) (show_all : bool) :
  dump_vpd (S (S fuel)) sig descs (vpd_nvram sig vpd_full_payload) show_all
    dstart
  = (Fault (OutOfBounds 32),
     mk_dstate [(16, 1); (17, 1); (18, 1); (19, 11); (30, 1); (32, 1)]
       [Out_id_string (bytes "IDSTRING012")]).
Proof.
  unfold dump_vpd. rewrite find_vpd_nvram. reflexivity.
Qed.

(** *** Well-formed VPD *)

Lemma runs_ret {A : Type} (a : A) (st : dstate) (lo hi : Z) :
  runs (dret a) st a [] lo hi.
Proof.
  exists []. split; [ | constructor ].
  unfold dret. rewrite !app_nil_r. destruct st; reflexivity.
Qed.

Lemma runs_bind {A B : Type} (m : D A) (k : A -> D B) (st : dstate)
    (a : A) (b : B) (out1 out2 : list msg) (lo hi : Z) :
  runs m st a out1 lo hi ->
  (forall st', runs (k a) st' b out2 lo hi) ->
  runs (dbind m k) st b (out1 ++ out2) lo hi.
Proof.
  intros (rs1 & H1 & F1) Hk.
  destruct (Hk (mk_dstate (d_reads st ++ rs1) (d_out st ++ out1)))
    as (rs2 & H2 & F2).
  exists (rs1 ++ rs2). split.
  - rewrite (dbind_ret _ _ _ _ _ H1), H2. cbn [d_reads d_out].
    rewrite <- !app_assoc. reflexivity.
  - apply Forall_app. split; assumption.
Qed.

Lemma runs_widen {A : Type} (m : D A) (st : dstate) (v : A)
    (out : list msg) (lo hi lo' hi' : Z) :
  runs m st v out lo hi -> lo' <= lo -> hi <= hi' ->
  runs m st v out lo' hi'.
Proof.
  intros (rs & H & F) Hlo Hhi. exists rs. split; [ exact H | ].
  eapply Forall_impl; [ | exact F ]. cbv beta. intros r (? & ? & ?). lia.
Qed.

Lemma runs_emit (m : msg) (st : dstate) (lo hi : Z) :
  runs (emit m) st tt [m] lo hi.
Proof.
  exists []. split; [ | constructor ].
  unfold emit. rewrite app_nil_r. reflexivity.
Qed.

Lemma runs_rdb (d pre : list byte) (b : byte) (rest : list byte) (p : Z)
    (st : dstate) :
  d = pre ++ b :: rest -> p = len pre ->
  runs (rdb d p) st b [] p (p + 1).
Proof.
  intros Hd Hp. exists [(p, 1)]. split.
  - rewrite (rdb_ok d p b st (rd_layout d pre b rest p Hd Hp)).
    rewrite app_nil_r. reflexivity.
  - constructor; [ cbn [fst snd]; lia | constructor ].
Qed.

Lemma runs_rdblock (d pre blk rest : list byte) (p : Z) (st : dstate) :
  d = pre ++ blk ++ rest -> p = len pre ->
  runs (rdblock d p (len blk)) st blk [] p (p + len blk).
Proof.
  intros Hd Hp. exists [(p, len blk)]. split.
  - rewrite (rdblock_ok d pre blk rest p st Hd Hp).
    rewrite app_nil_r. reflexivity.
  - pose proof (len_nonneg blk).
    constructor; [ cbn [fst snd]; lia | constructor ].
Qed.

Lemma runs_bind_eq {A B : Type} (m : D A) (k : A -> D B) (st : dstate)
    (a : A) (b : B) (out1 out2 out : list msg) (lo hi : Z) :
  runs m st a out1 lo hi ->
  (forall st', runs (k a) st' b out2 lo hi) ->
  out = out1 ++ out2 ->
  runs (dbind m k) st b out lo hi.
Proof. intros H1 H2 ->. eapply runs_bind; eassumption. Qed.

Lemma runs_rdb_in (d pre : list byte) (b : byte) (rest : list byte)
    (p lo hi : Z) (st : dstate) :
  d = pre ++ b :: rest -> p = len pre -> lo <= p -> p + 1 <= hi ->
  runs (rdb d p) st b [] lo hi.
Proof.
  intros Hd Hp Hlo Hhi.
  apply (runs_widen _ _ _ _ p (p + 1)); [ | lia | lia ].
  eapply runs_rdb; eassumption.
Qed.

Lemma runs_rdblock_in (d pre blk rest : list byte) (p n lo hi : Z)
    (st : dstate) :
  d = pre ++ blk ++ rest -> p = len pre -> n = len blk ->
  lo <= p -> p + n <= hi ->
  runs (rdblock d p n) st blk [] lo hi.
Proof.
  intros Hd Hp -> Hlo Hhi.
  apply (runs_widen _ _ _ _ p (p + len blk)); [ | lia | lia ].
  eapply runs_rdblock; eassumption.
Qed.

Lemma getsmallvalue_runs (d pre : list byte) (n : byte) (v rest : list byte)
    (p lo hi : Z) (st : dstate) :
  d = pre ++ n :: v ++ rest -> p = len pre -> u8 n = len v ->
  lo <= p -> p + 1 + len v <= hi ->
  runs (getsmallvalue d p) st (p + 1 + len v, v) [] lo hi.
Proof.
  intros Hd Hp Hn Hlo Hhi. pose proof (len_nonneg v). unfold getsmallvalue.
  eapply runs_bind_eq;
    [ eapply (runs_rdb_in d pre n (v ++ rest)); eauto; lia | | reflexivity ].
  intros st1. rewrite Hn.
  eapply runs_bind_eq;
    [ eapply (runs_rdblock_in d (pre ++ [n]) v rest);
      [ rewrite Hd, <- app_assoc; reflexivity | len_norm; lia | reflexivity
      | lia | lia ]
    | | reflexivity ].
  intros st2. apply runs_ret.
Qed.

Lemma field_image_len (f : vpd_field) :
  len (field_image f) = 3 + len (vf_value f).
Proof. unfold field_image. len_norm. lia. Qed.

Lemma printVPDfield_runs (descs : list (list byte * list byte))
    (d pre : list byte) (f : vpd_field) (rest : list byte) (p lo hi : Z)
    (show_all : bool) (st : dstate) :
  d = pre ++ field_image f ++ rest -> p = len pre -> wf_field f ->
  lo <= p -> p + len (field_image f) <= hi ->
  runs (printVPDfield descs d p show_all) st (p + len (field_image f))
    (field_lines descs show_all f) lo hi.
Proof.
  intros Hd Hp Hwf Hlo Hhi. rewrite field_image_len in *.
  pose proof (len_nonneg (vf_value f)) as Hv. unfold wf_field in Hwf.
  unfold field_image in Hd. rewrite <- app_assoc in Hd. cbn [app] in Hd.
  unfold printVPDfield.
  eapply runs_bind_eq;
    [ eapply (runs_rdb_in d pre); eauto; lia | | reflexivity ].
  intros st1.
  eapply runs_bind_eq;
    [ eapply (runs_rdb_in d (pre ++ [vf_key0 f]));
      [ rewrite Hd, <- app_assoc; reflexivity | len_norm; lia | lia | lia ]
    | | reflexivity ].
  intros st2.
  eapply runs_bind_eq;
    [ eapply (getsmallvalue_runs d (pre ++ [vf_key0 f; vf_key1 f]) _
                (vf_value f) rest);
      [ rewrite Hd, <- app_assoc; reflexivity | len_norm; lia
      | apply u8_of_Z; lia | lia | lia ]
    | | reflexivity ].
  intros st3. cbv iota beta. unfold field_lines.
  replace (p + 2 + 1 + len (vf_value f)) with (p + (3 + len (vf_value f)))
    by lia.
  destruct (lookupfield descs [vf_key0 f; vf_key1 f]) as [ fname | ].
  - eapply runs_bind_eq; [ apply runs_emit | | reflexivity ].
    intros st4. apply runs_ret.
  - destruct show_all.
    + eapply runs_bind_eq; [ apply runs_emit | | reflexivity ].
      intros st4. apply runs_ret.
    + apply runs_ret.
Qed.

Lemma fields_image_cons (f : vpd_field) (fs : list vpd_field) :
  fields_image (f :: fs) = field_image f ++ fields_image fs.
Proof. reflexivity. Qed.

Lemma vpd_fields_runs (descs : list (list byte * list byte))
    (d : list byte) (show_all : bool) (vpd_endp lo hi : Z)
    (fs : list vpd_field) :
  Forall wf_field fs ->
  forall (fuel : nat) (pre rest : list byte) (p : Z) (st : dstate),
    d = pre ++ fields_image fs ++ rest -> p = len pre ->
    vpd_endp = p + len (fields_image fs) ->
    lo <= p -> vpd_endp <= hi ->
    (List.length fs < fuel)%nat ->
    runs (vpd_fields fuel descs d p vpd_endp show_all) st vpd_endp
      (flat_map (field_lines descs show_all) fs) lo hi.
Proof.
  induction 1 as [ | f fs Hf Hfs IH ];
    intros fuel pre rest p st Hd Hp Hend Hlo Hhi Hfuel;
    (destruct fuel as [ | fuel ]; [ simpl in Hfuel; lia | ]);
    cbn [vpd_fields].
  - cbn [fields_image flat_map] in Hend. rewrite len_nil, Z.add_0_r in Hend.
    subst vpd_endp. rewrite Z.ltb_irrefl. apply runs_ret.
  - rewrite fields_image_cons, len_app in Hend.
    pose proof (field_image_len f) as Hfl.
    pose proof (len_nonneg (vf_value f)).
    pose proof (len_nonneg (fields_image fs)).
    replace (p <? vpd_endp) with true by (symmetry; apply Z.ltb_lt; lia).
    rewrite fields_image_cons, <- app_assoc in Hd.
    cbn [flat_map].
    eapply runs_bind;
      [ eapply (printVPDfield_runs descs d pre f); eauto; lia | ].
    intros st1.
    eapply (IH fuel (pre ++ field_image f) rest);
      [ rewrite Hd, <- app_assoc; reflexivity | len_norm; lia | lia | lia
      | lia | simpl in Hfuel; lia ].
Qed.

Lemma block_image_len (b : vpd_block) :
  len (block_image b) = 3 + len (fields_image (vb_fields b)).
Proof. unfold block_image. len_norm. lia. Qed.

Lemma blocks_image_cons (b : vpd_block) (bs : list vpd_block) :
  blocks_image (b :: bs) = block_image b ++ blocks_image bs.
Proof. reflexivity. Qed.

Lemma vpd_blocks_runs (descs : list (list byte * list byte))
    (d : list byte) (show_all : bool) (lo hi : Z) (M : nat)
    (bs : list vpd_block) :
  Forall wf_block bs ->
  Forall (fun b => (List.length (vb_fields b) <= M)%nat) bs ->
  forall (fuel : nat) (pre rest : list byte) (p : Z) (st : dstate),
    d = pre ++ blocks_image bs ++ x79 :: rest -> p = len pre ->
    lo <= p -> p + len (blocks_image bs) + 1 <= hi ->
    (List.length bs + M < fuel)%nat ->
    runs (vpd_blocks fuel descs d p show_all) st (p + len (blocks_image bs))
      (flat_map (fun b => flat_map (field_lines descs show_all) (vb_fields b))
         bs) lo hi.
Proof.
  induction 1 as [ | b bs Hb Hbs IH ];
    intros HM fuel pre rest p st Hd Hp Hlo Hhi Hfuel;
    (destruct fuel as [ | fuel ]; [ simpl in Hfuel; lia | ]);
    cbn [vpd_blocks].
  - cbn [blocks_image flat_map app] in *. rewrite len_nil, Z.add_0_r in *.
    eapply runs_bind_eq;
      [ eapply (runs_rdb_in d pre x79 rest); eauto; lia | | reflexivity ].
    intros st1. change (u8 x79 =? 121) with true. cbv iota.
    apply runs_ret.
  - apply Forall_cons_iff in HM. destruct HM as [HMb HMbs].
    destruct Hb as (Htag & Hfs & Hlen).
    rewrite blocks_image_cons, len_app in *.
    pose proof (block_image_len b) as Hbl.
    pose proof (len_nonneg (fields_image (vb_fields b))) as Hf0.
    pose proof (len_nonneg (blocks_image bs)) as Hb0.
    rewrite <- app_assoc in Hd. unfold block_image in Hd.
    rewrite <- app_assoc in Hd. cbn [app] in Hd. cbn [flat_map].
    eapply runs_bind_eq;
      [ eapply (runs_rdb_in d pre (vb_tag b)); eauto; lia | | reflexivity ].
    intros st1. apply Z.eqb_neq in Htag. rewrite Htag.
    eapply runs_bind_eq;
      [ eapply (runs_rdb_in d (pre ++ [vb_tag b]));
        [ rewrite Hd, <- app_assoc; reflexivity | len_norm; lia | lia | lia ]
      | | reflexivity ].
    intros st2.
    eapply runs_bind_eq;
      [ eapply (runs_rdb_in d (pre ++ [vb_tag b; _]));
        [ rewrite Hd, <- app_assoc; reflexivity | len_norm; lia | lia | lia ]
      | | reflexivity ].
    intros st3. rewrite le16_join by lia.
    eapply runs_bind.
    + eapply (vpd_fields_runs descs d show_all _ lo hi (vb_fields b) Hfs fuel
                (pre ++ [vb_tag b; _; _]) (blocks_image bs ++ x79 :: rest));
        [ rewrite Hd, <- app_assoc; reflexivity | len_norm; lia | reflexivity
        | lia | lia | simpl in Hfuel; lia ].
    + intros st4.
      replace (p + (len (block_image b) + len (blocks_image bs)))
        with (p + 1 + 2 + len (fields_image (vb_fields b))
              + len (blocks_image bs)) by lia.
      eapply (IH HMbs fuel (pre ++ block_image b) rest);
        [ rewrite Hd; unfold block_image; rewrite <- !app_assoc; reflexivity
        | len_norm; rewrite Hbl; lia | lia | lia | simpl in Hfuel; lia ].
Qed.

Lemma getvalue_runs (d pre : list byte) (l0 l1 : byte) (blk rest : list byte)
    (p lo hi : Z) (st : dstate) :
  d = pre ++ l0 :: l1 :: blk ++ rest -> p = len pre ->
  Z.lor (u8 l0) (Z.shiftl (u8 l1) 8) = len blk ->
  len blk < 4096 ->
  lo <= p -> p + 2 + len blk <= hi ->
  runs (getvalue d p) st (p + 2 + len blk, blk) [] lo hi.
Proof.
  intros Hd Hp Hlen Hsmall Hlo Hhi. pose proof (len_nonneg blk).
  unfold getvalue.
  eapply runs_bind_eq;
    [ eapply (runs_rdb_in d pre l0); eauto; lia | | reflexivity ].
  intros st1.
  eapply runs_bind_eq;
    [ eapply (runs_rdb_in d (pre ++ [l0]) l1);
      [ rewrite Hd, <- app_assoc; reflexivity | len_norm; lia | lia | lia ]
    | | reflexivity ].
  intros st2. rewrite Hlen.
  eapply runs_bind_eq;
    [ eapply (runs_rdblock_in d (pre ++ [l0; l1]) blk rest);
      [ rewrite Hd, <- app_assoc; reflexivity | len_norm; lia | reflexivity
      | lia | lia ]
    | | reflexivity ].
  intros st3. apply Z.leb_gt in Hsmall. rewrite Hsmall. apply runs_ret.
Qed.

Lemma vpd_image_len (s : list byte) (bs : list vpd_block) (ck : byte) :
  len (vpd_image s bs ck) = len s + len (blocks_image bs) + 6.
Proof. unfold vpd_image. len_norm. lia. Qed.

(** The decoding of a well-formed payload: the lines printed, and the
    part of the image that is read. *)
Lemma vpd_decode_runs (descs : list (list byte * list byte))
    (d : list byte) (show_all : bool) (p p_end : Z) (M : nat)
    (pre s : list byte) (bs : list vpd_block) (ck : byte) (rest : list byte)
    (fuel : nat) (st : dstate) :
  d = pre ++ vpd_image s bs ck ++ rest -> p = len pre ->
  len s < 4096 ->
  Forall wf_block bs ->
  Forall (fun b => (List.length (vb_fields b) <= M)%nat) bs ->
  p + len (vpd_image s bs ck) <= p_end ->
  (List.length bs + M + 1 < fuel)%nat ->
  runs (vpd_decode fuel descs d p p_end show_all) st 0
    (vpd_lines descs show_all s bs) p (p + len (vpd_image s bs ck)).
Proof.
  intros Hd Hp Hs Hwf HM Hend Hfuel. rewrite vpd_image_len in *.
  pose proof (len_nonneg s) as Hs0.
  pose proof (len_nonneg (blocks_image bs)) as Hb0.
  unfold vpd_image in Hd. rewrite <- !app_assoc in Hd. cbn [app] in Hd.
  set (hi := p + (len s + len (blocks_image bs) + 6)).
  set (q := p + 1 + 2 + len s + len (blocks_image bs) + 1 + 1).
  assert (Hq : forall st', runs (rdb d q) st' x00 [] p hi).
  { intros st'.
    eapply (runs_rdb_in d (pre ++ [x82; _; _] ++ s ++ blocks_image bs
                             ++ [x79; ck]) x00 rest);
      [ rewrite Hd, <- !app_assoc; reflexivity
      | unfold q; len_norm; lia | unfold q; lia | unfold q, hi; lia ]. }
  destruct fuel as [ | fuel ]; [ simpl in Hfuel; lia | ].
  destruct fuel as [ | fuel ]; [ simpl in Hfuel; lia | ].
  unfold vpd_decode.
  eapply (runs_bind_eq _ _ _ q 0 (vpd_lines descs show_all s bs) []);
    [ | | rewrite app_nil_r; reflexivity ].
  - (* the loop *)
    remember (S fuel) as f eqn:Hf. cbn [vpd_descriptors].
    eapply runs_bind_eq;
      [ eapply (runs_rdb_in d pre x82); eauto; unfold hi; lia
      | | reflexivity ].
    intros st1.
    replace (negb (u8 x82 =? 0) && (p <? p_end)) with true
      by (symmetry; apply andb_true_iff; split;
          [ reflexivity | apply Z.ltb_lt; lia ]).
    change (u8 x82 =? 130) with true. cbv iota.
    eapply runs_bind_eq;
      [ eapply (getvalue_runs d (pre ++ [x82]) _ _ s
                  (blocks_image bs ++ x79 :: ck :: x00 :: rest));
        [ rewrite Hd, <- app_assoc; reflexivity | len_norm; lia
        | apply le16_join; lia | exact Hs | lia | unfold hi; lia ]
      | | reflexivity ].
    intros st2. cbv iota beta. unfold vpd_lines.
    eapply (runs_bind_eq _ _ _ tt _ [Out_id_string (cstr s)]);
      [ apply runs_emit | | reflexivity ].
    intros st3.
    eapply runs_bind_eq;
      [ eapply (vpd_blocks_runs descs d show_all p hi M bs Hwf HM f
                  (pre ++ [x82; _; _] ++ s) (ck :: x00 :: rest));
        [ rewrite Hd, <- !app_assoc; reflexivity | len_norm; lia | lia
        | unfold hi; lia | subst f; simpl in Hfuel; lia ]
      | | symmetry; apply app_nil_r ].
    intros st4. subst f. cbn [vpd_descriptors].
    fold q.
    eapply runs_bind_eq; [ apply Hq | | reflexivity ].
    intros st5. change (u8 x00 =? 0) with true. cbn [negb andb].
    apply runs_ret.
  - (* the test after the loop *)
    intros st1.
    eapply runs_bind_eq; [ apply Hq | | reflexivity ].
    intros st2. change (u8 x00 =? 0) with true. cbn [negb andb].
    apply runs_ret.
Qed.

Lemma runs_reads_within {A : Type} (m : D A) (v : A) (out : list msg)
    (lo hi e : Z) :
  runs m dstart v out lo hi -> hi <= e ->
  fst (m dstart) = Ret v
  /\ d_out (snd (m dstart)) = out
  /\ reads_beyond e (snd (m dstart)) = false.
Proof.
  intros (rs & H & F) He. rewrite H. cbn [fst snd d_out d_reads dstart app].
  split; [ reflexivity | split; [ reflexivity | ] ].
  unfold reads_beyond. cbn [d_reads]. clear H.
  induction F as [ | r rs (H1 & H2 & H3) F IH ]; [ reflexivity | ].
  cbn [existsb]. rewrite IH, orb_false_r.
  apply andb_false_iff. right. apply Z.ltb_ge. lia.
Qed.

(** C5 (amended): for every VPD payload that is well formed in the format
    the decoder reads (the tag 0x82, a two-byte length with the low byte
    first, the identification string, then keyword blocks, each a tag byte,
    a two-byte length and fields of a two-byte key, a one-byte length and
    the value, then the end tag 0x79, its checksum byte and an end byte 0)
    and that lies inside the declared end of the payload, [dump_vpd]
    returns 0, prints the identification string and the fields, and reads
    no byte past the end byte, hence none at or beyond the declared end; in
    particular for 0x82, 0x02, 0x00, 'I', 'D', 0x79, ck, 0x00 it prints
    exactly one line, "ID". *)
Theorem dump_vpd_well_formed
    (fuel : nat) (NVRAM_SIG_HW : byte) (descs : list (list byte * list byte))
    (nv : nvram) (show_all : bool) (phead : Z) (ph : partition_header)
    (M : nat) (pre s : list byte) (bs : list vpd_block) (ck : byte)
    (rest : list byte) :
  nvram_find_partition nv NVRAM_SIG_HW (Some (bytes "ibm,vpd")) None
  = Some (phead, ph) ->
  data nv = pre ++ vpd_image s bs ck ++ rest ->
  len pre = phead + 16 ->
  len s < 4096 ->
  Forall wf_block bs ->
  Forall (fun b => (List.length (vb_fields b) <= M)%nat) bs ->
  phead + 16 + len (vpd_image s bs ck) <= phead + ph_length ph * 16 ->
  (List.length bs + M + 1 < fuel)%nat ->
  fst (dump_vpd fuel NVRAM_SIG_HW descs nv show_all dstart) = Ret 0
  /\ d_out (snd (dump_vpd fuel NVRAM_SIG_HW descs nv show_all dstart))
     = vpd_lines descs show_all s bs
  /\ reads_beyond (phead + 16 + len (vpd_image s bs ck))
       (snd (dump_vpd fuel NVRAM_SIG_HW descs nv show_all dstart))
     = false
  /\ reads_beyond (phead + ph_length ph * 16)
       (snd (dump_vpd fuel NVRAM_SIG_HW descs nv show_all dstart))
     = false.
Proof.
  intros Hfind Hdata Hpre Hs Hwf HM Hend Hfuel.
  unfold dump_vpd. rewrite Hfind.
  pose proof (vpd_decode_runs descs (data nv) show_all (phead + 16)
                (phead + ph_length ph * 16) M pre s bs ck rest fuel dstart
                Hdata (eq_sym Hpre) Hs Hwf HM Hend Hfuel) as Hrun.
  destruct (runs_reads_within _ _ _ _ _ _ Hrun (Z.le_refl _))
    as (H1 & H2 & H3).
  destruct (runs_reads_within _ _ _ _ _ _ Hrun Hend) as (_ & _ & H4).
  repeat split; assumption.
Qed.

Lemma dump_vpd_well_formed_witness :
  fst (dump_vpd 2 x52 [] (vpd_nvram x52 vpd_id_image) true dstart) = Ret 0
  /\ d_out (snd (dump_vpd 2 x52 [] (vpd_nvram x52 vpd_id_image) true dstart))
     = [Out_id_string (bytes "ID")]
  /\ reads_beyond 24
       (snd (dump_vpd 2 x52 [] (vpd_nvram x52 vpd_id_image) true dstart))
     = false.
Proof.
  pose proof (dump_vpd_well_formed 2 x52 [] (vpd_nvram x52 vpd_id_image)
                true 0 (vpd_header x52 2) 0
                (encode_header (vpd_header x52 2)) (bytes "ID") [] x00
                (repeat x00 8)
                eq_refl eq_refl eq_refl eq_refl
                (Forall_nil _) (Forall_nil _)
                ltac:(vm_compute; discriminate)
                ltac:(simpl; lia)) as H.
  split; [ exact (proj1 H) | ].
  split; [ exact (proj1 (proj2 H)) | exact (proj1 (proj2 (proj2 H))) ].
Defined.

(** A payload with one keyword block: the field SN is printed under the
    description the table gives it. *)
Lemma dump_vpd_sn_example :
  dump_vpd 4 x52 [(bytes "SN", bytes "Serial Number")]
    (vpd_nvram x52 vpd_sn_image) false dstart
  = (Ret 0,
     mk_dstate
       [(16, 1); (17, 1); (18, 1); (19, 2); (21, 1); (22, 1); (23, 1);
        (24, 1); (25, 1); (26, 1); (27, 2); (29, 1); (31, 1); (31, 1)]
       [Out_id_string (bytes "ID");
        Out_vpd_field (bytes "Serial Number") (bytes "ab")]).
Proof. vm_compute. reflexivity. Qed.

(** ** The error-log decoder *)

(** An offset that resolves outside the word span of the partition yields
    the NULL pointer; every block pointer of the header is made this
    way. *)
Lemma resolve_outside (p_addr p_max i raw : Z) :
  p_max <= raw / 2 + 1 + i -> resolve p_addr p_max i raw = 0.
Proof.
  intros H. unfold resolve.
  destruct (raw / 2 + 1 + i <? p_max) eqn:E; zbool; [ lia | reflexivity ].
Qed.

Lemma resolve_inside (p_addr p_max i raw : Z) :
  raw / 2 + 1 + i < p_max ->
  resolve p_addr p_max i raw = p_addr + 2 * (raw / 2 + 1 + i).
Proof.
  intros H. unfold resolve.
  destruct (raw / 2 + 1 + i <? p_max) eqn:E; zbool; [ reflexivity | lia ].
Qed.

Lemma resolve_clamped (p_addr p_max i raw : Z) :
  0 <= raw -> 0 <= i -> null_or_inside p_addr p_max (resolve p_addr p_max i raw).
Proof.
  intros Hraw Hi. unfold resolve, null_or_inside.
  assert (0 <= raw / 2) by (apply Z.div_pos; lia).
  destruct (raw / 2 + 1 + i <? p_max) eqn:E; zbool.
  - right. exists (raw / 2 + 1 + i). split; [ lia | reflexivity ].
  - left. reflexivity.
Qed.

Lemma word_at_range (d : list byte) (p_off i w : Z) :
  word_at d p_off i = Ret w -> 0 <= w < 65536.
Proof.
  unfold word_at, bind.
  destruct (rd_at d (p_off + 2 * i)) as [ hi | | ]; try discriminate.
  destruct (rd_at d (p_off + 2 * i + 1)) as [ lo | | ]; try discriminate.
  intros H. injection H as <-. apply be16_range.
Qed.

Lemma errlog_cpu_offsets_clamped (n : nat) (MAX_CPUS : Z) (d : list byte)
    (p_off p_addr p_max : Z) :
  forall (cpu i : Z) (acc : list Z) (i' : Z) (regs : list Z),
    0 <= i ->
    Forall (null_or_inside p_addr p_max) acc ->
    errlog_cpu_offsets n MAX_CPUS d p_off p_addr p_max cpu i acc
    = Ret (i', regs) ->
    0 <= i' /\ Forall (null_or_inside p_addr p_max) regs.
Proof.
  induction n as [ | n IH ]; intros cpu i acc i' regs Hi Hacc H;
    cbn [errlog_cpu_offsets] in H.
  - injection H as <- <-. split; assumption.
  - destruct (cpu <? MAX_CPUS).
    + unfold bind in H.
      destruct (word_at d p_off (i + 1)) as [ raw | | ] eqn:W;
        try discriminate.
      apply word_at_range in W.
      eapply IH; [ | | exact H ]; [ lia | ].
      apply Forall_app. split; [ exact Hacc | ].
      constructor; [ apply resolve_clamped; lia | constructor ].
    + eapply IH; [ | | exact H ]; [ lia | exact Hacc ].
Qed.

(** Every block pointer that [dump_errlog] takes from the header is NULL
    or points inside the payload: an offset that resolves outside the word
    span of the partition yields the absent pointer. *)
Lemma dump_errlog_pointers_clamped (MAX_CPUS : Z) (sig : byte)
    (data_addr : Z) (nv : nvram) (phead : Z) (ph : partition_header)
    (rc : Z) (out : list msg) (hdr : errlog_header) :
  nvram_find_partition nv sig (Some (bytes "ibm,err-log")) None
  = Some (phead, ph) ->
  dump_errlog MAX_CPUS sig data_addr nv = Ret (rc, out, Some hdr) ->
  null_or_inside (data_addr + (phead + 16)) (((ph_length ph - 1) * 16) / 2)
    (sys_regs hdr)
  /\ Forall (null_or_inside (data_addr + (phead + 16))
               (((ph_length ph - 1) * 16) / 2)) (cpu_regs hdr)
  /\ null_or_inside (data_addr + (phead + 16)) (((ph_length ph - 1) * 16) / 2)
       (memctrl_data hdr)
  /\ null_or_inside (data_addr + (phead + 16)) (((ph_length ph - 1) * 16) / 2)
       (ioctrl_data hdr).
Proof.
  intros Hfind H. unfold dump_errlog in H. rewrite Hfind in H.
  cbv beta iota zeta in H.
  set (p_max := ((ph_length ph - 1) * 16) / 2) in *.
  set (p_addr := data_addr + (phead + 16)) in *.
  destruct (p_max <? 4); [ discriminate | ].
  unfold bind in H.
  destruct (word_at (data nv) (phead + 16) 0) as [ w0 | | ]; try discriminate.
  destruct (word_at (data nv) (phead + 16) 1) as [ w1 | | ] eqn:W1;
    try discriminate.
  destruct (word_at (data nv) (phead + 16) 2) as [ w2 | | ]; try discriminate.
  destruct (errlog_cpu_offsets (Z.to_nat w2) MAX_CPUS (data nv) (phead + 16)
              p_addr p_max 0 2 []) as [ [i regs] | | ] eqn:Hc;
    try discriminate.
  apply errlog_cpu_offsets_clamped in Hc; [ | lia | constructor ].
  destruct Hc as [Hi Hregs].
  destruct (word_at (data nv) (phead + 16) (i + 1)) as [ nm | | ];
    try discriminate.
  destruct (word_at (data nv) (phead + 16) (i + 1 + 1)) as [ wm | | ] eqn:Wm;
    try discriminate.
  destruct (word_at (data nv) (phead + 16) (i + 1 + 1 + 1)) as [ ni | | ];
    try discriminate.
  destruct (word_at (data nv) (phead + 16) (i + 1 + 1 + 1 + 1))
    as [ wi | | ] eqn:Wi; try discriminate.
  injection H as _ _ <-. cbn [sys_regs cpu_regs memctrl_data ioctrl_data].
  apply word_at_range in W1, Wm, Wi.
  repeat split; try assumption; apply resolve_clamped; lia.
Qed.

Lemma errlog_dump_cpus_no_sys_regs (p_addr : Z) (regs : list Z) :
  forall cpu, ~ In Out_sys_regs (errlog_dump_cpus p_addr cpu regs).
Proof.
  induction regs as [ | this regs IH ]; intros cpu; cbn [errlog_dump_cpus].
  - intros [].
  - destruct regs as [ | next regs' ]; [ intros [] | ].
    intros [ H | H ]; [ discriminate H | ].
    apply in_app_or in H. destruct H as [ H | H ].
    + destruct (ptrdiff16 next this <? 4096); [ | destruct H ].
      destruct H as [ H | [] ]. discriminate H.
    + exact (IH _ H).
Qed.

(** The system-register block is dumped only under [if (sys_regs && ...)]:
    when its pointer is absent, "System Specific Registers" is not
    printed. *)
Lemma dump_errlog_absent_sys_regs (MAX_CPUS : Z) (sig : byte)
    (data_addr : Z) (nv : nvram) (rc : Z) (out : list msg)
    (hdr : errlog_header) :
  dump_errlog MAX_CPUS sig data_addr nv = Ret (rc, out, Some hdr) ->
  sys_regs hdr = 0 ->
  ~ In Out_sys_regs out.
Proof.
  intros H Hs. unfold dump_errlog in H.
  destruct (nvram_find_partition nv sig (Some (bytes "ibm,err-log")) None)
    as [ [phead ph] | ]; [ | discriminate ].
  cbv beta iota zeta in H.
  destruct (((ph_length ph - 1) * 16) / 2 <? 4); [ discriminate | ].
  unfold bind in H.
  repeat match type of H with
         | context [match word_at ?d ?p ?i with _ => _ end] =>
             destruct (word_at d p i); try discriminate H
         | context [match errlog_cpu_offsets ?a ?b ?c ?d ?e ?f ?g ?h ?i with _ => _ end] =>
             destruct (errlog_cpu_offsets a b c d e f g h i) as [ [? ?] | | ];
             try discriminate H
         end.
  injection H as _ <- <-. cbn [sys_regs] in Hs. rewrite Hs.
  cbn [Z.eqb negb andb].
  intros Hin. apply in_app_or in Hin. destruct Hin as [ Hin | Hin ].
  - repeat (apply in_app_or in Hin; destruct Hin as [ Hin | Hin ]);
      repeat (destruct Hin as [ Hin | Hin ]; [ discriminate Hin | ]);
      destruct Hin.
  - exact (errlog_dump_cpus_no_sys_regs _ _ _ Hin).
Qed.

Lemma errlog_header_matches (sig : byte) (blocks : Z) :
  partition_matches sig (Some (bytes "ibm,err-log"))
    (errlog_header_of sig blocks) = true.
Proof.
  unfold partition_matches. cbn [ph_signature errlog_header_of].
  rewrite Z.eqb_refl, orb_true_r. reflexivity.
Qed.

Lemma find_errlog_nvram (sig : byte) (ws : list Z) :
  nvram_find_partition (errlog_nvram sig ws) sig
    (Some (bytes "ibm,err-log")) None
  = Some (0, errlog_header_of sig 3).
Proof.
  unfold nvram_find_partition, errlog_nvram. cbn [parts skipn find_from snd].
  rewrite errlog_header_matches. reflexivity.
Qed.

(** C9 (the code at the failing input): one cpu whose offset resolves
    outside the 16 payload words, so that [cpu_regs[0]] is NULL, and an
    I/O-controller offset that resolves inside.  With the image at an
    address whose bit 32 is set, the length computed from the NULL pointer
    is negative as an [int], the test [len < 4096] passes, and
    [dump_raw_data] is called on the absent block, that is on the NULL
    pointer, where its loop is entered and reads address 0. *)
Theorem dump_errlog_dumps_absent_cpu (MAX_CPUS : Z) (sig : byte) :
  0 < MAX_CPUS ->
  dump_errlog MAX_CPUS sig mapped_data_addr (errlog_nvram sig errlog_absent_cpu)
  = Ret (0,
         [Out_checkstops 0; Out_cpus 1; Out_memctrls 0; Out_ioctrls 0;
          Out_cpu_regs 0 (-835780584) (-70367908397072);
          Out_raw_dump 0 (-835780584)],
         Some (mk_errlog 0 [0] 0 140735816794160))
  /\ dump_raw_data_first_read 0 (-835780584) = Some 0.
Proof.
  intros H. split; [ | reflexivity ].
  assert (H1 : (0 <? MAX_CPUS) = true) by (apply Z.ltb_lt; lia).
  assert (H2 : (1 >? MAX_CPUS) = false)
    by (rewrite Z.gtb_ltb; apply Z.ltb_ge; lia).
  unfold dump_errlog. rewrite find_errlog_nvram.
  cbv beta iota zeta.
  change (((ph_length (errlog_header_of sig 3) - 1) * 16) / 2) with 16.
  change (16 <? 4) with false. cbv iota.
  set (D := data (errlog_nvram sig errlog_absent_cpu)).
  assert (W0 : word_at D (0 + 16) 0 = Ret 0) by (vm_compute; reflexivity).
  assert (W1 : word_at D (0 + 16) 1 = Ret 65534) by (vm_compute; reflexivity).
  assert (W2 : word_at D (0 + 16) 2 = Ret 1) by (vm_compute; reflexivity).
  assert (W3 : word_at D (0 + 16) (2 + 1) = Ret 65534)
    by (vm_compute; reflexivity).
  assert (W4 : word_at D (0 + 16) (2 + 1 + 1) = Ret 0)
    by (vm_compute; reflexivity).
  assert (W5 : word_at D (0 + 16) (2 + 1 + 1 + 1) = Ret 65534)
    by (vm_compute; reflexivity).
  assert (W6 : word_at D (0 + 16) (2 + 1 + 1 + 1 + 1) = Ret 0)
    by (vm_compute; reflexivity).
  assert (W7 : word_at D (0 + 16) (2 + 1 + 1 + 1 + 1 + 1) = Ret 0)
    by (vm_compute; reflexivity).
  rewrite W0, W1, W2. cbn [bind].
  change (Z.to_nat 1) with 1%nat. cbn [errlog_cpu_offsets].
  rewrite H1, W3. cbn [bind]. rewrite W4, W5, W6, W7. cbn [bind].
  rewrite H2. vm_compute. reflexivity.
Qed.

Lemma dump_errlog_dumps_absent_cpu_witness :
  dump_errlog 128 x02 mapped_data_addr (errlog_nvram x02 errlog_absent_cpu)
  = Ret (0,
         [Out_checkstops 0; Out_cpus 1; Out_memctrls 0; Out_ioctrls 0;
          Out_cpu_regs 0 (-835780584) (-70367908397072);
          Out_raw_dump 0 (-835780584)],
         Some (mk_errlog 0 [0] 0 140735816794160)).
Proof.
  apply (dump_errlog_dumps_absent_cpu 128 x02). reflexivity.
Defined.

(** Wherever the image lies: when both a cpu block and the block that
    bounds it are absent, the length is 0, the test [len < 4096] passes and
    [dump_raw_data] is called on the NULL pointer of the absent block. *)
Lemma dump_errlog_calls_dump_on_null (MAX_CPUS : Z) (sig : byte)
    (data_addr : Z) :
  0 < MAX_CPUS ->
  dump_errlog MAX_CPUS sig data_addr
    (errlog_nvram sig errlog_absent_cpu_and_io)
  = Ret (0,
         [Out_checkstops 0; Out_cpus 1; Out_memctrls 0; Out_ioctrls 0;
          Out_cpu_regs 0 0 ((0 - (data_addr + (0 + 16))) / 2);
          Out_raw_dump 0 0],
         Some (mk_errlog 0 [0] 0 0)).
Proof.
  intros H.
  assert (H1 : (0 <? MAX_CPUS) = true) by (apply Z.ltb_lt; lia).
  assert (H2 : (1 >? MAX_CPUS) = false)
    by (rewrite Z.gtb_ltb; apply Z.ltb_ge; lia).
  unfold dump_errlog. rewrite find_errlog_nvram.
  cbv beta iota zeta.
  change (((ph_length (errlog_header_of sig 3) - 1) * 16) / 2) with 16.
  change (16 <? 4) with false. cbv iota.
  set (D := data (errlog_nvram sig errlog_absent_cpu_and_io)).
  assert (W0 : word_at D (0 + 16) 0 = Ret 0) by (vm_compute; reflexivity).
  assert (W1 : word_at D (0 + 16) 1 = Ret 65534) by (vm_compute; reflexivity).
  assert (W2 : word_at D (0 + 16) 2 = Ret 1) by (vm_compute; reflexivity).
  assert (W3 : word_at D (0 + 16) (2 + 1) = Ret 65534)
    by (vm_compute; reflexivity).
  assert (W4 : word_at D (0 + 16) (2 + 1 + 1) = Ret 0)
    by (vm_compute; reflexivity).
  assert (W5 : word_at D (0 + 16) (2 + 1 + 1 + 1) = Ret 65534)
    by (vm_compute; reflexivity).
  assert (W6 : word_at D (0 + 16) (2 + 1 + 1 + 1 + 1) = Ret 0)
    by (vm_compute; reflexivity).
  assert (W7 : word_at D (0 + 16) (2 + 1 + 1 + 1 + 1 + 1) = Ret 65534)
    by (vm_compute; reflexivity).
  rewrite W0, W1, W2. cbn [bind].
  change (Z.to_nat 1) with 1%nat. cbn [errlog_cpu_offsets].
  rewrite H1, W3. cbn [bind]. rewrite W4, W5, W6, W7. cbn [bind].
  rewrite H2.
  rewrite !resolve_outside by (vm_compute; discriminate).
  reflexivity.
Qed.


(** ** The raw dump *)

(** Inside the buffer the [j] loop prints the bytes it finds. *)
Lemma dump_hex_bytes_inside (g : list byte) :
  forall (pre post : list byte) (h end_ : Z),
    h = len pre -> h + len g <= end_ + 1 ->
    dump_hex_bytes (List.length g) (pre ++ g ++ post) h end_
    = Ret (h + len g, flat_map (fun b => hex 2 (u8 b)) g).
Proof.
  induction g as [ | b g IH ]; intros pre post h end_ Hh He.
  - cbn [List.length dump_hex_bytes flat_map]. len_norm.
    rewrite Z.add_0_r. reflexivity.
  - cbn [List.length dump_hex_bytes flat_map]. rewrite len_cons in He.
    pose proof (len_nonneg g).
    destruct (h <=? end_) eqn:E; zbool; [ | lia ].
    cbn [app]. rewrite rd_at_app by exact Hh. cbn [bind].
    specialize (IH (pre ++ [b]) post (h + 1) end_).
    rewrite <- app_assoc in IH. cbn [app] in IH.
    rewrite IH by (len_norm; lia). cbn [bind fst snd].
    len_norm. do 2 f_equal. lia.
Qed.

Lemma dump_ascii_inside (g : list byte) :
  forall (pre post : list byte) (a end_ : Z),
    a = len pre -> a + len g <= end_ + 1 ->
    dump_ascii (List.length g) (pre ++ g ++ post) a end_
    = Ret (a + len g, map printable g).
Proof.
  induction g as [ | b g IH ]; intros pre post a end_ Ha He.
  - cbn [List.length dump_ascii map]. len_norm.
    rewrite Z.add_0_r. reflexivity.
  - cbn [List.length dump_ascii map]. rewrite len_cons in He.
    pose proof (len_nonneg g).
    destruct (a <=? end_) eqn:E; zbool; [ | lia ].
    cbn [app]. rewrite rd_at_app by exact Ha. cbn [bind].
    specialize (IH (pre ++ [b]) post (a + 1) end_).
    rewrite <- app_assoc in IH. cbn [app] in IH.
    rewrite IH by (len_norm; lia). cbn [bind fst snd].
    len_norm. do 2 f_equal. lia.
Qed.

Lemma hex_mod (w : nat) : forall v : Z, hex w (v mod 16 ^ Z.of_nat w) = hex w v.
Proof.
  induction w as [ | w IH ]; intros v.
  - reflexivity.
  - cbn [hex]. rewrite Nat2Z.inj_succ, Z.pow_succ_r by lia.
    assert (Hp : 0 < 16 ^ Z.of_nat w) by (apply Z.pow_pos_nonneg; lia).
    rewrite Z.rem_mul_r by lia.
    pose proof (Z.mod_pos_bound v 16 ltac:(lia)) as Hm.
    set (X := (v / 16) mod 16 ^ Z.of_nat w).
    rewrite <- (Z.div_unique_pos (v mod 16 + 16 * X) 16 X (v mod 16))
      by (try exact Hm; lia).
    rewrite <- (Z.mod_unique_pos (v mod 16 + 16 * X) 16 X (v mod 16))
      by (try exact Hm; lia).
    subst X. rewrite IH. reflexivity.
Qed.

Lemma hex_wrap32 (v : Z) : hex 8 (wrap32 v) = hex 8 v.
Proof. unfold wrap32. exact (hex_mod 8 v). Qed.

Lemma hex_length (w : nat) : forall v : Z, List.length (hex w v) = w.
Proof.
  induction w as [ | w IH ]; intros v; cbn [hex].
  - reflexivity.
  - rewrite length_app, IH. cbn [List.length]. lia.
Qed.

(** The [i] loop on groups of four bytes that lie inside the buffer. *)
Lemma dump_hex_groups_inside (gs : list (list byte)) :
  Forall (fun g => List.length g = 4%nat) gs ->
  forall (pre post : list byte) (h end_ : Z),
    h = len pre -> h + len (List.concat gs) <= end_ + 1 ->
    dump_hex_groups (List.length gs) (pre ++ List.concat gs ++ post) h end_
    = Ret (h + len (List.concat gs), flat_map hexdump_group gs).
Proof.
  induction 1 as [ | g gs Hg Hgs IH ]; intros pre post h end_ Hh He.
  - cbn [List.length dump_hex_groups List.concat flat_map]. len_norm.
    rewrite Z.add_0_r. reflexivity.
  - cbn [List.length dump_hex_groups List.concat flat_map].
    cbn [List.concat] in He. rewrite len_app in He.
    pose proof (len_nonneg g). pose proof (len_nonneg (List.concat gs)).
    rewrite <- Hg at 1. rewrite <- app_assoc.
    rewrite dump_hex_bytes_inside by lia. cbn [bind fst snd].
    specialize (IH (pre ++ g) post (h + len g) end_).
    rewrite <- app_assoc in IH.
    rewrite IH by (len_norm; lia). cbn [bind fst snd].
    len_norm. unfold hexdump_group at 2. rewrite <- app_assoc.
    do 2 f_equal. lia.
Qed.

Lemma firstn_skipn_16 (row : list byte) :
  List.length row = 16%nat ->
  row = List.concat [firstn 4 row; firstn 4 (skipn 4 row);
                firstn 4 (skipn 8 row); firstn 4 (skipn 12 row)].
Proof.
  intros H. do 16 (destruct row as [ | ? row ]; [ discriminate H | ]).
  destruct row; [ reflexivity | discriminate H ].
Qed.

(** One full row. *)
Lemma dump_row_inside (d row pre post : list byte) (h end_ : Z) :
  d = pre ++ row ++ post ->
  List.length row = 16%nat -> h = len pre -> h + 16 <= end_ + 1 ->
  dump_hex_groups 4 d h end_
  = Ret (h + 16,
         hexdump_group (firstn 4 row)
         ++ hexdump_group (firstn 4 (skipn 4 row))
         ++ hexdump_group (firstn 4 (skipn 8 row))
         ++ hexdump_group (firstn 4 (skipn 12 row)))
  /\ dump_ascii 16 d h end_ = Ret (h + 16, map printable row).
Proof.
  intros -> Hrow Hh He.
  assert (Hl : len row = 16) by (unfold len; rewrite Hrow; reflexivity).
  split.
  - pose proof (dump_hex_groups_inside
                  [firstn 4 row; firstn 4 (skipn 4 row);
                   firstn 4 (skipn 8 row); firstn 4 (skipn 12 row)]) as H.
    rewrite <- (firstn_skipn_16 row Hrow) in H.
    cbn [List.length flat_map] in H. rewrite app_nil_r in H.
    rewrite <- Hl at 1. apply H; [ | exact Hh | lia ].
    repeat constructor; rewrite length_firstn, ?length_skipn; lia.
  - rewrite <- Hrow, <- Hl. apply dump_ascii_inside; [ exact Hh | lia ].
Qed.

(** The rows that lie inside the buffer come out as [hexdump] has them;
    the loop goes on behind them. *)
Lemma dump_raw_rows_inside (k : nat) :
  forall (d blk pre post : list byte) (fuel : nat) (h end_ offset : Z),
    d = pre ++ blk ++ post ->
    List.length blk = (16 * k)%nat -> h = len pre -> h + len blk <= end_ ->
    dump_raw_rows (k + fuel) d h h end_ offset
    = (rest <- dump_raw_rows fuel d (h + len blk) (h + len blk) end_
                 (offset + len blk) ;;
       Ret (hexdump k offset blk ++ rest)).
Proof.
  induction k as [ | k IH ]; intros d blk pre post fuel h end_ offset Hd Hb Hh He.
  - destruct blk; [ | discriminate Hb ]. len_norm. rewrite !Z.add_0_r.
    cbn [Nat.add hexdump app].
    destruct (dump_raw_rows fuel d h h end_ offset); reflexivity.
  - cbn [Nat.add dump_raw_rows hexdump].
    assert (Hrow : List.length (firstn 16 blk) = 16%nat)
      by (rewrite length_firstn; lia).
    assert (Hrest : List.length (skipn 16 blk) = (16 * k)%nat)
      by (rewrite length_skipn; lia).
    assert (Hl : len blk = 16 + len (skipn 16 blk)).
    { rewrite <- (firstn_skipn 16 blk) at 1. len_norm.
      unfold len at 1. rewrite Hrow. reflexivity. }
    pose proof (len_nonneg (skipn 16 blk)).
    assert (Hd' : d = pre ++ firstn 16 blk ++ skipn 16 blk ++ post)
      by (rewrite (app_assoc (firstn 16 blk)), firstn_skipn; exact Hd).
    destruct (h <? end_) eqn:E; zbool; [ | lia ].
    destruct (dump_row_inside d (firstn 16 blk) pre (skipn 16 blk ++ post)
                h end_ Hd' Hrow Hh ltac:(lia)) as [-> ->].
    cbn [bind fst snd].
    rewrite (IH d (skipn 16 blk) (pre ++ firstn 16 blk) post fuel (h + 16)
               end_ (offset + 16)).
    2:{ rewrite <- app_assoc. exact Hd'. }
    2:{ exact Hrest. }
    2:{ len_norm. unfold len at 2. rewrite Hrow. lia. }
    2:{ lia. }
    replace (h + 16 + len (skipn 16 blk)) with (h + len blk) by lia.
    replace (offset + 16 + len (skipn 16 blk)) with (offset + len blk) by lia.
    destruct (dump_raw_rows fuel d (h + len blk) (h + len blk) end_
                (offset + len blk)) as [ rest | f | ]; cbn [bind];
      [ | reflexivity | reflexivity ].
    unfold hexdump_row. rewrite hex_wrap32. rewrite <- !app_assoc.
    reflexivity.
Qed.

Lemma hexdump_row_length (offset : Z) (row : list byte) :
  List.length row = 16%nat -> List.length (hexdump_row offset row) = 67%nat.
Proof.
  intros H. do 16 (destruct row as [ | ? row ]; [ discriminate H | ]).
  destruct row; [ | discriminate H ].
  unfold hexdump_row, hexdump_group. cbn [firstn skipn flat_map map].
  repeat (rewrite ?length_app, ?hex_length; cbn [List.length bytes list_byte_of_string]).
  reflexivity.
Qed.

Lemma hexdump_length (k : nat) :
  forall (offset : Z) (blk : list byte),
    List.length blk = (16 * k)%nat ->
    List.length (hexdump k offset blk) = (67 * k)%nat.
Proof.
  induction k as [ | k IH ]; intros offset blk H; cbn [hexdump].
  - reflexivity.
  - rewrite length_app, hexdump_row_length, IH.
    + lia.
    + rewrite length_skipn. lia.
    + rewrite length_firstn. lia.
Qed.

Lemma rd_at_end (d : list byte) : rd_at d (len d) = Fault (OutOfBounds (len d)).
Proof.
  unfold rd_at, rd, len.
  destruct (0 <=? Z.of_nat (List.length d)); [ | reflexivity ].
  rewrite Nat2Z.id.
  destruct (nth_error d (List.length d)) eqn:E; [ | reflexivity ].
  assert (nth_error d (List.length d) <> None) as Hn by congruence.
  apply nth_error_Some in Hn. lia.
Qed.

Lemma dump_hex_bytes_ok (n : nat) :
  forall (d : list byte) (h end_ : Z),
    0 <= h -> h + Z.of_nat n <= len d -> h + Z.of_nat n <= end_ + 1 ->
    exists t, dump_hex_bytes n d h end_ = Ret (h + Z.of_nat n, t).
Proof.
  induction n as [ | n IH ]; intros d h end_ H0 Hd He.
  - exists []. cbn [dump_hex_bytes]. rewrite Z.add_0_r. reflexivity.
  - cbn [dump_hex_bytes]. destruct (h <=? end_) eqn:E; zbool; [ | lia ].
    destruct (rd_at_inside d h ltac:(lia)) as [b ->]. cbn [bind].
    destruct (IH d (h + 1) end_ ltac:(lia) ltac:(lia) ltac:(lia)) as [t ->].
    cbn [bind fst snd]. eexists. do 2 f_equal. lia.
Qed.

(** With [end] at the end of the image, a [j] loop that is asked for more
    bytes than are left reads the byte at [end]. *)
Lemma dump_hex_bytes_fault (n : nat) :
  forall (d : list byte) (h : Z),
    0 <= h <= len d -> len d - h < Z.of_nat n ->
    dump_hex_bytes n d h (len d) = Fault (OutOfBounds (len d)).
Proof.
  induction n as [ | n IH ]; intros d h Hh Hn.
  - lia.
  - cbn [dump_hex_bytes]. destruct (h <=? len d) eqn:E; zbool; [ | lia ].
    destruct (Z.eq_dec h (len d)) as [ -> | Hne ].
    + rewrite rd_at_end. reflexivity.
    + destruct (rd_at_inside d h ltac:(lia)) as [b ->]. cbn [bind].
      rewrite IH by lia. reflexivity.
Qed.

Lemma dump_hex_groups_fault (n : nat) :
  forall (d : list byte) (h : Z),
    0 <= h <= len d -> len d - h < 4 * Z.of_nat n ->
    dump_hex_groups n d h (len d) = Fault (OutOfBounds (len d)).
Proof.
  induction n as [ | n IH ]; intros d h Hh Hn.
  - lia.
  - cbn [dump_hex_groups].
    destruct (Z_lt_dec (len d - h) 4) as [ Hlt | Hge ].
    + rewrite dump_hex_bytes_fault by (try exact Hh; exact Hlt). reflexivity.
    + destruct (dump_hex_bytes_ok 4 d h (len d)) as [t ->]; [ lia .. | ].
      cbn [bind fst snd]. rewrite IH by lia. reflexivity.
Qed.

Lemma dump_raw_data_layout (pre blk post : list byte) (k : nat) :
  List.length blk = (16 * k)%nat ->
  dump_raw_data (pre ++ blk ++ post) (len pre) (len blk)
  = Ret (hexdump k 0 blk).
Proof.
  intros Hb. unfold dump_raw_data.
  replace (S (Z.to_nat (len blk))) with (k + S (15 * k))%nat
    by (unfold len; lia).
  rewrite (dump_raw_rows_inside k _ blk pre post)
    by (try reflexivity; try lia; exact Hb).
  cbn [dump_raw_rows]. rewrite Z.ltb_irrefl. cbn [bind].
  rewrite app_nil_r. reflexivity.
Qed.

(** X1: for a length that is a multiple of 16 the raw dump reads the
    [data_len] bytes of the buffer and nothing else (the bytes before and
    after it do not matter, and there need be none), and prints one row of
    67 characters per 16 bytes: the offset, four groups of four bytes in
    hexadecimal and the sixteen characters. *)
Theorem dump_raw_data_whole_rows (pre blk post : list byte) (k : nat) :
  List.length blk = (16 * k)%nat ->
  dump_raw_data (pre ++ blk ++ post) (len pre) (len blk)
  = Ret (hexdump k 0 blk)
  /\ len (hexdump k 0 blk) = 67 * Z.of_nat k.
Proof.
  intros Hb. split.
  - apply dump_raw_data_layout. exact Hb.
  - unfold len. rewrite (hexdump_length k 0 blk Hb). lia.
Qed.

Lemma dump_raw_data_whole_rows_witness :
  dump_raw_data (bytes "0123456789abcdef") 0 16
  = Ret (bytes "0x00000000  30313233 34353637 38396162 63646566 |0123456789abcdef|"
         ++ [nl])
  /\ len (bytes "0x00000000  30313233 34353637 38396162 63646566 |0123456789abcdef|"
          ++ [nl]) = 67.
Proof.
  exact (dump_raw_data_whole_rows [] (bytes "0123456789abcdef") [] 1 eq_refl).
Defined.

(** X2: for a positive length that is not a multiple of 16 the raw dump
    reads the byte at [data + data_len], one past the end of the buffer: on
    a buffer that ends where the image ends this is an access outside the
    image. *)
Theorem dump_raw_data_reads_past_end (pre blk : list byte) :
  len blk mod 16 <> 0 ->
  dump_raw_data (pre ++ blk) (len pre) (len blk)
  = Fault (OutOfBounds (len pre + len blk)).
Proof.
  intros Hm.
  pose proof (Z.div_mod (len blk) 16 ltac:(lia)) as Hdm.
  pose proof (Z.mod_pos_bound (len blk) 16 ltac:(lia)) as Hr.
  pose proof (len_nonneg blk) as Hb0.
  assert (Hq : 0 <= len blk / 16) by (apply Z.div_pos; lia).
  set (k := Z.to_nat (len blk / 16)).
  assert (Hk : Z.of_nat k = len blk / 16) by (unfold k; lia).
  assert (Hf : List.length (firstn (16 * k) blk) = (16 * k)%nat).
  { rewrite length_firstn. unfold len in *. lia. }
  assert (Hlf : len (firstn (16 * k) blk) = 16 * (len blk / 16)).
  { unfold len at 1. rewrite Hf. lia. }
  unfold dump_raw_data.
  replace (S (Z.to_nat (len blk))) with (k + S (Z.to_nat (len blk) - k))%nat
    by (unfold len in *; lia).
  rewrite (dump_raw_rows_inside k (pre ++ blk) (firstn (16 * k) blk) pre
             (skipn (16 * k) blk));
    [ | rewrite firstn_skipn; reflexivity | exact Hf | reflexivity | lia ].
  cbn [dump_raw_rows].
  pose proof (len_nonneg pre).
  destruct (len pre + len (firstn (16 * k) blk) <? len pre + len blk) eqn:E;
    zbool; [ | lia ].
  replace (len pre + len blk) with (len (pre ++ blk)) by (len_norm; lia).
  rewrite dump_hex_groups_fault; [ reflexivity | | ]; len_norm; lia.
Qed.

Lemma dump_raw_data_reads_past_end_witness :
  dump_raw_data (bytes "0123456789abcdefg") 0 17 = Fault (OutOfBounds 17).
Proof.
  apply (dump_raw_data_reads_past_end [] (bytes "0123456789abcdefg")).
  vm_compute. discriminate.
Defined.

(** ** Partitions of a parsed image *)

Lemma image_app (a b : list (partition_header * list byte)) :
  image (a ++ b) = image a ++ image b.
Proof. unfold image. apply flat_map_app. Qed.

Lemma image_len_table (ps : list (partition_header * list byte)) :
  Forall wf_partition ps ->
  forall base psa,
    table_from base (ps ++ psa)
    = table_from base ps ++ table_from (base + len (image ps)) psa.
Proof.
  induction 1 as [ | p ps Hp Hps IH ]; intros base psa.
  - cbn [app table_from image flat_map]. change (len []) with 0.
    rewrite Z.add_0_r. reflexivity.
  - cbn [app table_from]. rewrite IH, image_cons, len_app.
    rewrite (partition_image_len p Hp), Z.add_assoc. reflexivity.
Qed.

Lemma matches_by_name (name : list byte) (h : partition_header) :
  partition_matches x00 (Some name) h = (strncmp name (ph_name h) 12 =? 0).
Proof. reflexivity. Qed.

Lemma find_from_table_skip sig name (ps : list (partition_header * list byte)) :
  Forall (fun q => partition_matches sig name (fst q) = false) ps ->
  forall base tbl,
    find_from sig name (table_from base ps ++ tbl) = find_from sig name tbl.
Proof.
  induction 1 as [ | p ps Hp Hps IH ]; intros base tbl.
  - reflexivity.
  - cbn [table_from app find_from snd]. rewrite Hp. apply IH.
Qed.

(** The search by name in a parsed image: the first partition whose name
    compares equal, at the offset where its header lies. *)
Lemma find_partition_parsed (name : list byte)
    (psb : list (partition_header * list byte))
    (p : partition_header * list byte)
    (psa : list (partition_header * list byte)) :
  Forall wf_partition psb ->
  Forall (fun q => strncmp name (ph_name (fst q)) 12 <> 0) psb ->
  strncmp name (ph_name (fst p)) 12 = 0 ->
  nvram_find_partition (parsed (psb ++ p :: psa)) x00 (Some name) None
  = Some (len (image psb), fst p).
Proof.
  intros Hwf Hno Hyes. unfold nvram_find_partition, parsed. cbn [parts skipn].
  rewrite (image_len_table psb Hwf), find_from_table_skip.
  - cbn [table_from find_from snd]. rewrite matches_by_name, Hyes.
    reflexivity.
  - apply Forall_impl with (2 := Hno). intros q Hq.
    rewrite matches_by_name. apply Z.eqb_neq. exact Hq.
Qed.

Lemma find_partition_parsed_none (name : list byte)
    (ps : list (partition_header * list byte)) :
  Forall (fun q => strncmp name (ph_name (fst q)) 12 <> 0) ps ->
  nvram_find_partition (parsed ps) x00 (Some name) None = None.
Proof.
  intros Hno. unfold nvram_find_partition, parsed. cbn [parts skipn].
  rewrite <- (app_nil_r (table_from 0 ps)), find_from_table_skip.
  - reflexivity.
  - apply Forall_impl with (2 := Hno). intros q Hq.
    rewrite matches_by_name. apply Z.eqb_neq. exact Hq.
Qed.

(** X3: in a parsed image, the raw dump of a partition by name shows the
    first partition whose name compares equal: its header and its payload,
    sixteen bytes per row, [length] rows in all, and returns 0. *)
Theorem dump_raw_partition_shows_partition (nvram_cmdname name : list byte)
    (psb : list (partition_header * list byte))
    (p : partition_header * list byte)
    (psa : list (partition_header * list byte)) :
  Forall wf_partition (psb ++ p :: psa) ->
  Forall (fun q => strncmp name (ph_name (fst q)) 12 <> 0) psb ->
  strncmp name (ph_name (fst p)) 12 = 0 ->
  dump_raw_partition nvram_cmdname (parsed (psb ++ p :: psa)) name
  = Ret (0, hexdump (Z.to_nat (ph_length (fst p))) 0 (partition_image p), []).
Proof.
  intros Hwf Hno Hyes.
  apply Forall_app in Hwf. destruct Hwf as [Hwfb Hwf].
  apply Forall_cons_iff in Hwf. destruct Hwf as [Hp _].
  unfold dump_raw_partition.
  rewrite (find_partition_parsed name psb p psa Hwfb Hno Hyes).
  unfold parsed. cbn [data]. rewrite image_app, image_cons.
  pose proof (partition_image_len p Hp) as Hl.
  unfold NVRAM_BLOCK_SIZE. rewrite <- Hl.
  rewrite (dump_raw_data_layout (image psb) (partition_image p) (image psa)
             (Z.to_nat (ph_length (fst p)))).
  - reflexivity.
  - destruct Hp as (_ & H1 & _). unfold len in Hl. lia.
Qed.

Lemma raw_partitions_wf : Forall wf_partition raw_partitions.
Proof.
  repeat apply Forall_cons; [ | | apply Forall_nil ];
    (split; [ split; [ cbv; intuition discriminate | reflexivity ]
            | split; [ cbv; discriminate | reflexivity ] ]).
Qed.

Lemma dump_raw_partition_shows_partition_witness :
  dump_raw_partition (bytes "nvram") (parsed raw_partitions) (bytes "common")
  = Ret (0,
         bytes "0x00000000  70000003 636f6d6d 6f6e0000 00000000 |p...common......|"
         ++ [nl]
         ++ bytes "0x00000010  626f6f74 2d646576 6963653d 6469736b |boot-device=disk|"
         ++ [nl]
         ++ bytes "0x00000020  00000000 00000000 00000000 00000000 |................|"
         ++ [nl],
         []).
Proof.
  apply (dump_raw_partition_shows_partition (bytes "nvram") (bytes "common")
           [(header_70_1, [])]
           (mk_header x70 x00 3 (bytes "common" ++ repeat x00 6),
            bytes "boot-device=disk" ++ repeat x00 16) []).
  - exact raw_partitions_wf.
  - by_eval.
  - vm_compute. reflexivity.
Defined.

(** ** Config definitions: [parse_of_common] *)

(** The first loop copies a name that fits. *)
Lemma parse_name_steps (name : list byte) :
  forall (d pre rest : list byte) (fuel : nat) (p p_end : Z)
         (outname : list byte),
    d = pre ++ name ++ rest ->
    no_nul name -> no_eq name ->
    len outname + len name <= 32 ->
    p = len pre -> p + len name <= p_end ->
    parse_name (List.length name + fuel) d p p_end outname
    = parse_name fuel d (p + len name) p_end (outname ++ name).
Proof.
  induction name as [ | b name IH ];
    intros d pre rest fuel p p_end outname Hd Hnn Hne Hl Hp He.
  - cbn [List.length Nat.add]. len_norm.
    rewrite Z.add_0_r, app_nil_r. reflexivity.
  - cbn [List.length Nat.add parse_name]. cbn [app] in Hd.
    rewrite (rd_at_layout d pre b _ p Hd Hp). cbn [bind].
    apply Forall_cons_iff in Hnn. destruct Hnn as [Hb0 Hnn].
    apply Forall_cons_iff in Hne. destruct Hne as [Hb1 Hne].
    apply Z.eqb_neq in Hb0, Hb1. rewrite Hb0, Hb1. cbn [negb andb].
    rewrite len_cons in Hl, He. pose proof (len_nonneg name).
    pose proof (len_nonneg outname).
    rewrite len_app, len_cons, len_nil.
    destruct (len outname + (0 + 1) >? 32) eqn:E1; zbool; [ lia | ].
    destruct (p >=? p_end) eqn:E2; zbool; [ lia | ].
    rewrite (IH d (pre ++ [b]) rest fuel (p + 1) p_end (outname ++ [b]));
      [ | rewrite <- app_assoc; exact Hd | assumption | assumption
        | len_norm; lia | len_norm; lia | lia ].
    rewrite <- app_assoc. cbn [app]. len_norm.
    replace (p + 1 + len name) with (p + (len name + 1)) by lia. reflexivity.
Qed.

Lemma quote_length (t : token) : 0 < len (quote t).
Proof. destruct t; cbn [quote]; len_norm; lia. Qed.

Lemma land_128 (a : Z) :
  0 <= a < 256 -> (Z.land a 128 =? 0) = (a <? 128).
Proof.
  intros Ha.
  assert (H : forallb (fun k => Bool.eqb (Z.land (Z.of_nat k) 128 =? 0)
                                  (Z.of_nat k <? 128)) (seq 0 256) = true)
    by (vm_compute; reflexivity).
  rewrite forallb_forall in H. specialize (H (Z.to_nat a)).
  rewrite Z2Nat.id in H by lia. apply Bool.eqb_prop. apply H.
  apply in_seq. lia.
Qed.

Lemma count_byte (hi : bool) (n : Z) :
  0 <= n < 128 ->
  Z.land (u8 (byte.of_Z (n + (if hi then 128 else 0)))) 127 = n
  /\ (Z.land (u8 (byte.of_Z (n + (if hi then 128 else 0)))) 128 =? 0)
     = negb hi.
Proof.
  intros Hn. rewrite u8_of_Z by (destruct hi; lia).
  rewrite land_128 by (destruct hi; lia).
  change 127 with (Z.ones 7). rewrite Z.land_ones by lia.
  change (2 ^ 7) with 128.
  destruct hi; cbn [negb].
  - split.
    + replace (n + 128) with (n + 1 * 128) by lia.
      rewrite Z.mod_add by lia. apply Z.mod_small. lia.
    + apply Z.ltb_ge. lia.
  - rewrite Z.add_0_r. split.
    + apply Z.mod_small. lia.
    + apply Z.ltb_lt. lia.
Qed.

(** The second loop on a value that is made of tokens and fits. *)
Lemma parse_value_steps (toks : list token) :
  forall (d pre rest : list byte) (fuel : nat) (p p_end : Z)
         (outval : list byte),
    d = pre ++ flat_map quote toks ++ rest ->
    Forall wf_token toks ->
    len outval + len (flat_map unquote toks) <= 4096 ->
    p = len pre -> p + len (flat_map quote toks) <= p_end ->
    parse_value (List.length toks + fuel) d p p_end outval
    = parse_value fuel d (p + len (flat_map quote toks)) p_end
        (outval ++ flat_map unquote toks).
Proof.
  induction toks as [ | t toks IH ];
    intros d pre rest fuel p p_end outval Hd Hwf Hl Hp He.
  - cbn [List.length Nat.add flat_map]. len_norm.
    rewrite Z.add_0_r, app_nil_r. reflexivity.
  - cbn [List.length Nat.add]. cbn [flat_map] in *.
    rewrite !len_app in *. rewrite <- app_assoc in Hd.
    apply Forall_cons_iff in Hwf. destruct Hwf as [Ht Hwf].
    pose proof (len_nonneg outval). pose proof (len_nonneg (flat_map quote toks)).
    pose proof (len_nonneg (flat_map unquote toks)).
    cbn [parse_value].
    destruct t as [ b | hi n ]; cbn [quote unquote wf_token] in *.
    + destruct Ht as [Hb0 Hb1]. cbn [app] in Hd.
      rewrite (rd_at_layout d pre b _ p Hd Hp). cbn [bind].
      apply Z.eqb_neq in Hb0, Hb1. rewrite Hb0, Hb1.
      rewrite len_cons, len_nil in *. rewrite len_app, len_cons, len_nil.
      destruct (len outval + (0 + 1) >? 4096) eqn:E1; zbool; [ lia | ].
      destruct (p >=? p_end) eqn:E2; zbool; [ lia | ].
      rewrite (IH d (pre ++ [b]) rest fuel (p + 1) p_end (outval ++ [b]));
        [ | rewrite <- app_assoc; exact Hd | assumption | len_norm; lia
          | len_norm; lia | lia ].
      rewrite <- app_assoc. cbn [app].
      replace (p + 1 + len (flat_map quote toks))
        with (p + (0 + 1 + len (flat_map quote toks))) by lia.
      reflexivity.
    + cbn [app] in Hd.
      rewrite (rd_at_layout d pre xff _ p Hd Hp). cbn [bind].
      change (u8 xff) with 255. cbn [Z.eqb Pos.eqb].
      rewrite !len_cons, len_nil in *.
      destruct (p + 1 >=? p_end) eqn:E0; zbool; [ lia | ].
      rewrite (rd_at_layout d (pre ++ [xff])
                 (byte.of_Z (n + (if hi then 128 else 0)))
                 (flat_map quote toks ++ rest) (p + 1));
        [ | rewrite <- app_assoc; exact Hd | len_norm; lia ].
      cbn [bind]. destruct (count_byte hi n Ht) as [-> ->].
      assert (Hrl : len (repeat (if hi then xff else x00) (Z.to_nat n)) = n)
        by (unfold len; rewrite repeat_length; lia).
      rewrite Hrl in Hl.
      destruct (len outval + n >? 4096) eqn:E1; zbool; [ lia | ].
      destruct (p + 1 >=? p_end) eqn:E2; zbool; [ lia | ].
      rewrite (IH d (pre ++ [xff; byte.of_Z (n + (if hi then 128 else 0))])
                 rest fuel (p + 1 + 1) p_end
                 (outval ++ repeat (if negb hi then x00 else xff) (Z.to_nat n)));
        [ | rewrite <- app_assoc; exact Hd | assumption
          | len_norm; unfold len at 2; rewrite repeat_length; lia
          | len_norm; lia | lia ].
      rewrite <- app_assoc.
      replace (p + 1 + 1 + len (flat_map quote toks))
        with (p + (0 + 1 + 1 + len (flat_map quote toks))) by lia.
      destruct hi; reflexivity.
Qed.

Lemma fuel_for (n : nat) (d : list byte) :
  Z.of_nat n <= len d -> exists f, S (List.length d) = (n + S f)%nat.
Proof. intros H. exists (List.length d - n)%nat. unfold len in H. lia. Qed.

Lemma quoted_tokens_length (toks : list token) :
  Z.of_nat (List.length toks) <= len (flat_map quote toks).
Proof.
  induction toks as [ | t toks IH ]; cbn [flat_map List.length].
  - reflexivity.
  - rewrite len_app. pose proof (quote_length t). lia.
Qed.

(** X4: a definition [name=value] whose name has at most 32 bytes and whose
    value, made of plain bytes and of runs (0xff and a count byte), expands
    to at most 4096 bytes is parsed in full: the function returns the
    number of bytes up to the terminating NUL, [outname] holds the name and
    [outval] the value with every run expanded to its 0xff or 0x00 bytes,
    each closed by a NUL. *)
Theorem parse_of_common_unquotes (pre name : list byte) (toks : list token)
    (rest : list byte) (data_len : Z) :
  no_nul name -> no_eq name -> len name <= 32 ->
  Forall wf_token toks ->
  len (flat_map unquote toks) <= 4096 ->
  len name + 1 + len (flat_map quote toks) <= data_len ->
  parse_of_common (pre ++ name ++ x3d :: flat_map quote toks ++ x00 :: rest)
    (len pre) data_len
  = Ret (len name + 1 + len (flat_map quote toks),
         name ++ [x00], flat_map unquote toks ++ [x00], []).
Proof.
  intros Hnn Hne Hl Hwf Hu Hd.
  remember (pre ++ name ++ x3d :: flat_map quote toks ++ x00 :: rest) as d
    eqn:Ed.
  pose proof (len_nonneg pre). pose proof (len_nonneg name).
  pose proof (len_nonneg rest).
  pose proof (len_nonneg (flat_map quote toks)) as Hq0.
  pose proof (quoted_tokens_length toks) as Hqt.
  assert (Hlen : len d = len pre + len name + 1 + len (flat_map quote toks)
                         + 1 + len rest)
    by (rewrite Ed; len_norm; lia).
  unfold parse_of_common.
  destruct (fuel_for (List.length name) d) as [f Hf]; [ unfold len in *; lia | ].
  destruct (fuel_for (List.length toks) d) as [f' Hf']; [ lia | ].
  rewrite Hf at 1.
  rewrite (parse_name_steps name d pre _ (S f) (len pre) _ [] Ed)
    by (try assumption; try reflexivity; len_norm; lia).
  cbn [parse_name app].
  rewrite (rd_at_layout d (pre ++ name) x3d
             (flat_map quote toks ++ x00 :: rest));
    [ | rewrite <- app_assoc; exact Ed | len_norm; lia ].
  cbn [bind]. change (u8 x3d) with 61. cbn [Z.eqb Pos.eqb negb andb bind].
  rewrite (rd_at_layout d (pre ++ name) x3d
             (flat_map quote toks ++ x00 :: rest));
    [ | rewrite <- app_assoc; exact Ed | len_norm; lia ].
  cbn [bind]. change (u8 x3d) with 61. cbn [Z.eqb Pos.eqb negb].
  rewrite Hf'.
  rewrite (parse_value_steps toks d (pre ++ name ++ [x3d]) (x00 :: rest));
    [ | rewrite <- !app_assoc; exact Ed | assumption | len_norm; lia
      | len_norm; lia | lia ].
  cbn [parse_value app].
  rewrite (rd_at_layout d (pre ++ name ++ x3d :: flat_map quote toks) x00
             rest);
    [ | rewrite <- !app_assoc; exact Ed | len_norm; lia ].
  cbn [bind]. rewrite u8_x00. cbn [Z.eqb bind].
  rewrite (rd_at_layout d (pre ++ name ++ x3d :: flat_map quote toks) x00
             rest);
    [ | rewrite <- !app_assoc; exact Ed | len_norm; lia ].
  cbn [bind]. rewrite u8_x00. cbn [Z.eqb negb].
  replace (len pre + len name + 1 + len (flat_map quote toks) - len pre)
    with (len name + 1 + len (flat_map quote toks)) by lia.
  reflexivity.
Qed.

Lemma parse_of_common_unquotes_witness :
  parse_of_common
    (bytes "boot-file=a" ++ [xff; x83] ++ bytes "b" ++ [xff; x02; x00]) 0 16
  = Ret (16, bytes "boot-file" ++ [x00],
         bytes "a" ++ [xff; xff; xff] ++ bytes "b" ++ [x00; x00] ++ [x00], []).
Proof.
  apply (parse_of_common_unquotes [] (bytes "boot-file")
           [Lit "a"; Run true 3; Lit "b"; Run false 2] [] 16); by_eval.
  all: cbn; lia.
Defined.

(** What the loops leave in the buffers. *)
Lemma parse_name_bound (fuel : nat) :
  forall (d : list byte) (p p_end : Z) (outname : list byte) (r : name_scan),
    len outname <= 32 ->
    parse_name fuel d p p_end outname = Ret r ->
    match r with
    | Name_ran_off o => len o <= 32
    | Name_end p' o =>
        len o <= 32
        \/ (len o = 33 /\ exists b, rd_at d p' = Ret b /\ u8 b <> 61)
    end.
Proof.
  induction fuel as [ | fuel IH ]; intros d p p_end outname r Hl H.
  - discriminate H.
  - cbn [parse_name] in H.
    destruct (rd_at d p) as [ b | | ] eqn:Eb; cbn [bind] in H;
      try discriminate H.
    destruct (negb (u8 b =? 0) && negb (u8 b =? 61)) eqn:Ec.
    + apply andb_true_iff in Ec. destruct Ec as [_ Ec].
      apply negb_true_iff in Ec. zbool.
      rewrite len_app, len_cons, len_nil in H.
      destruct (len outname + (0 + 1) >? 32) eqn:E1; zbool.
      * injection H as <-. right. split; [ len_norm; lia | ].
        exists b. split; assumption.
      * destruct (p >=? p_end) eqn:E2.
        -- injection H as <-. len_norm. lia.
        -- apply (IH d (p + 1) p_end (outname ++ [b]) r); [ len_norm; lia | exact H ].
    + injection H as <-. left. exact Hl.
Qed.

Lemma parse_value_bound (fuel : nat) :
  forall (d : list byte) (p p_end : Z) (outval : list byte) (r : value_scan),
    len outval <= 4096 ->
    parse_value fuel d p p_end outval = Ret r ->
    match r with
    | Value_ran_off_quoted o => len o <= 4096
    | Value_ran_off o => len o <= 4096
    | Value_end p' o =>
        len o <= 4096
        \/ (len o = 4097 /\ exists b, rd_at d p' = Ret b /\ u8 b <> 0)
    end.
Proof.
  induction fuel as [ | fuel IH ]; intros d p p_end outval r Hl H.
  - discriminate H.
  - cbn [parse_value] in H.
    destruct (rd_at d p) as [ b | | ] eqn:Eb; cbn [bind] in H;
      try discriminate H.
    destruct (u8 b =? 0) eqn:E0.
    { injection H as <-. left. exact Hl. }
    destruct (u8 b =? 255) eqn:E255.
    + destruct (p + 1 >=? p_end) eqn:E1.
      { injection H as <-. exact Hl. }
      destruct (rd_at d (p + 1)) as [ c | | ] eqn:Ec; cbn [bind] in H;
        try discriminate H.
      assert (Hn : 0 <= Z.land (u8 c) 127)
        by (apply Z.land_nonneg; right; lia).
      destruct (len outval + Z.land (u8 c) 127 >? 4096) eqn:E2; zbool.
      { injection H as <-. left. exact Hl. }
      assert (Hl' : len (outval
                         ++ repeat (if Z.land (u8 c) 128 =? 0 then x00 else xff)
                              (Z.to_nat (Z.land (u8 c) 127))) <= 4096).
      { len_norm. unfold len at 2. rewrite repeat_length. lia. }
      apply (IH d (p + 1 + 1) p_end _ r Hl' H).
    + rewrite len_app, len_cons, len_nil in H.
      destruct (len outval + (0 + 1) >? 4096) eqn:E1; zbool.
      * injection H as <-. right. split; [ len_norm; lia | ].
        exists b. split; assumption.
      * destruct (p >=? p_end) eqn:E2.
        -- injection H as <-. len_norm. lia.
        -- apply (IH d (p + 1) p_end (outval ++ [b]) r); [ len_norm; lia | exact H ].
Qed.

(** X5: whatever the input, [parse_of_common] writes at most 34 bytes to
    [outname] and at most 4098 bytes to [outval], the closing NULs
    included; when it reports no error, at most 33 and 4097. *)
Theorem parse_of_common_output_bounds (d : list byte) (data data_len : Z)
    (rc : Z) (outname outval : list byte) (errs : list note) :
  parse_of_common d data data_len = Ret (rc, outname, outval, errs) ->
  len outname <= 34 /\ len outval <= 4098
  /\ (errs = [] -> len outname <= 33 /\ len outval <= 4097).
Proof.
  unfold parse_of_common. intros H.
  destruct (parse_name (S (List.length d)) d data (data + data_len) [])
    as [ rn | | ] eqn:En; cbn [bind] in H; try discriminate H.
  apply parse_name_bound in En; [ | len_norm; lia ].
  destruct rn as [ o | p o ].
  { injection H as <- <- <- <-. len_norm.
    split; [ lia | split; [ lia | discriminate ] ]. }
  destruct (rd_at d p) as [ b | | ] eqn:Eb; cbn [bind] in H;
    try discriminate H.
  destruct (negb (u8 b =? 61)) eqn:E61.
  { injection H as <- <- <- <-. len_norm.
    split; [ lia | split; [ lia | discriminate ] ]. }
  apply negb_false_iff in E61. zbool.
  assert (Ho : len o <= 32).
  { destruct En as [ Ho | (_ & b' & Hb' & Hne) ]; [ exact Ho | ].
    try rewrite Eb in Hb'. injection Hb' as <-. contradiction. }
  destruct (parse_value (S (List.length d)) d (p + 1) (data + data_len) [])
    as [ rv | | ] eqn:Ev; cbn [bind] in H; try discriminate H.
  apply parse_value_bound in Ev; [ | len_norm; lia ].
  destruct rv as [ v | v | p' v ].
  - injection H as <- <- <- <-. len_norm.
    split; [ lia | split; [ lia | discriminate ] ].
  - injection H as <- <- <- <-. len_norm.
    split; [ lia | split; [ lia | discriminate ] ].
  - destruct (rd_at d p') as [ b0 | | ] eqn:Eb0; cbn [bind] in H;
      try discriminate H.
    destruct (negb (u8 b0 =? 0)) eqn:E0.
    + injection H as <- <- <- <-. len_norm.
      split; [ lia | split; [ lia | discriminate ] ].
    + injection H as <- <- <- <-. len_norm.
      apply negb_false_iff in E0. zbool.
      assert (Hv : len v <= 4096).
      { destruct Ev as [ Hv | (_ & b' & Hb' & Hne) ]; [ exact Hv | ].
        try rewrite Eb0 in Hb'. injection Hb' as <-. contradiction. }
      split; [ lia | split; [ lia | intros _; lia ] ].
Qed.

Lemma parse_of_common_output_bounds_witness :
  len (repeat x61 33 ++ [x00]) <= 34 /\ len (@nil byte) <= 4098
  /\ ([Err_no_eq_sign] = [] ->
      len (repeat x61 33 ++ [x00]) <= 33 /\ len (@nil byte) <= 4097).
Proof.
  apply (parse_of_common_output_bounds (repeat x61 40) 0 40 0).
  vm_compute. reflexivity.
Defined.

(** X6: a name of 33 bytes or more is refused: the function copies 33
    bytes and a NUL to [outname], reports that no ['='] was found and
    returns 0.  (A name of 32 bytes is accepted.) *)
Theorem parse_of_common_long_name (pre name rest : list byte) (data_len : Z) :
  len name = 33 -> no_nul name -> no_eq name -> 32 <= data_len ->
  parse_of_common (pre ++ name ++ rest) (len pre) data_len
  = Ret (0, name ++ [x00], [], [Err_no_eq_sign]).
Proof.
  intros Hl Hnn Hne Hd.
  destruct (exists_last (l := name)) as (name32 & b & ->).
  { intros ->. discriminate Hl. }
  rewrite len_app, len_cons, len_nil in Hl.
  apply Forall_app in Hnn. destruct Hnn as [Hnn Hb0].
  apply Forall_app in Hne. destruct Hne as [Hne Hb1].
  apply Forall_cons_iff in Hb0. destruct Hb0 as [Hb0 _].
  apply Forall_cons_iff in Hb1. destruct Hb1 as [Hb1 _].
  remember (pre ++ (name32 ++ [b]) ++ rest) as d eqn:Ed.
  assert (Ed' : d = pre ++ name32 ++ b :: rest)
    by (rewrite Ed, <- !app_assoc; reflexivity).
  pose proof (len_nonneg pre). pose proof (len_nonneg rest).
  assert (Hlen : len d = len pre + len name32 + 1 + len rest)
    by (rewrite Ed'; len_norm; lia).
  unfold parse_of_common.
  destruct (fuel_for (List.length name32) d) as [f Hf]; [ unfold len in *; lia | ].
  rewrite Hf.
  rewrite (parse_name_steps name32 d pre (b :: rest) (S f) (len pre) _ [] Ed')
    by (try assumption; try reflexivity; len_norm; lia).
  cbn [parse_name app].
  rewrite (rd_at_layout d (pre ++ name32) b rest);
    [ | rewrite <- app_assoc; exact Ed' | len_norm; lia ].
  cbn [bind]. apply Z.eqb_neq in Hb0, Hb1. rewrite Hb0, Hb1.
  cbn [negb andb]. rewrite len_app, len_cons, len_nil.
  destruct (len name32 + (0 + 1) >? 32) eqn:E; zbool; [ | lia ].
  cbn [bind].
  rewrite (rd_at_layout d (pre ++ name32) b rest);
    [ | rewrite <- app_assoc; exact Ed' | len_norm; lia ].
  cbn [bind]. apply Z.eqb_neq in Hb1. rewrite Hb1. reflexivity.
Qed.

Lemma parse_of_common_long_name_witness :
  parse_of_common (bytes "a-name-of-thirty-three-characters=1" ++ [x00]) 0 36
  = Ret (0, bytes "a-name-of-thirty-three-characters" ++ [x00], [],
         [Err_no_eq_sign]).
Proof.
  apply (parse_of_common_long_name []
           (bytes "a-name-of-thirty-three-characters") (bytes "=1" ++ [x00]) 36);
    by_eval.
Defined.

(** X7: a value whose last byte is 0xff makes the function take the
    terminating NUL for the count byte of a run and go on behind the
    definition: where the image ends there it reads outside the image. *)
Theorem parse_of_common_trailing_quote (pre name : list byte)
    (toks : list token) (data_len : Z) :
  no_nul name -> no_eq name -> len name <= 32 ->
  Forall wf_token toks ->
  len (flat_map unquote toks) <= 4096 ->
  len name + 1 + len (flat_map quote toks) + 2 <= data_len ->
  parse_of_common (pre ++ name ++ x3d :: flat_map quote toks ++ [xff; x00])
    (len pre) data_len
  = Fault (OutOfBounds
             (len pre + len name + 1 + len (flat_map quote toks) + 2)).
Proof.
  intros Hnn Hne Hl Hwf Hu Hd.
  remember (pre ++ name ++ x3d :: flat_map quote toks ++ [xff; x00]) as d
    eqn:Ed.
  set (toks' := toks ++ [Run false 0]).
  assert (Hq : flat_map quote toks' = flat_map quote toks ++ [xff; x00]).
  { unfold toks'. rewrite flat_map_app. cbn [flat_map quote app].
    rewrite Z.add_0_r. reflexivity. }
  assert (Hu' : flat_map unquote toks' = flat_map unquote toks).
  { unfold toks'. rewrite flat_map_app. cbn [flat_map unquote Z.to_nat repeat app].
    apply app_nil_r. }
  assert (Hwf' : Forall wf_token toks').
  { unfold toks'. apply Forall_app. split; [ exact Hwf | ].
    constructor; [ cbn; lia | constructor ]. }
  assert (Ed' : d = pre ++ name ++ x3d :: flat_map quote toks' ++ [])
    by (rewrite Hq, app_nil_r; exact Ed).
  pose proof (len_nonneg pre). pose proof (len_nonneg name).
  pose proof (len_nonneg (flat_map quote toks)) as Hq0.
  pose proof (quoted_tokens_length toks') as Hqt.
  assert (Hlq : len (flat_map quote toks') = len (flat_map quote toks) + 2)
    by (rewrite Hq; len_norm; lia).
  assert (Hlen : len d = len pre + len name + 1 + len (flat_map quote toks) + 2)
    by (rewrite Ed; len_norm; lia).
  unfold parse_of_common.
  destruct (fuel_for (List.length name) d) as [f Hf]; [ unfold len in *; lia | ].
  destruct (fuel_for (List.length toks') d) as [f' Hf']; [ lia | ].
  rewrite Hf at 1.
  rewrite (parse_name_steps name d pre _ (S f) (len pre) _ [] Ed')
    by (try assumption; try reflexivity; len_norm; lia).
  cbn [parse_name app].
  rewrite (rd_at_layout d (pre ++ name) x3d (flat_map quote toks' ++ []));
    [ | rewrite <- app_assoc; exact Ed' | len_norm; lia ].
  cbn [bind]. change (u8 x3d) with 61. cbn [Z.eqb Pos.eqb negb andb bind].
  rewrite (rd_at_layout d (pre ++ name) x3d (flat_map quote toks' ++ []));
    [ | rewrite <- app_assoc; exact Ed' | len_norm; lia ].
  cbn [bind]. change (u8 x3d) with 61. cbn [Z.eqb Pos.eqb negb].
  rewrite Hf'.
  rewrite (parse_value_steps toks' d (pre ++ name ++ [x3d]) []);
    [ | rewrite <- !app_assoc; exact Ed' | assumption | rewrite Hu'; len_norm; lia
      | len_norm; lia | len_norm; lia ].
  cbn [parse_value].
  replace (len pre + len name + 1 + len (flat_map quote toks')) with (len d)
    by lia.
  rewrite rd_at_end. cbn [bind]. rewrite Hlen. reflexivity.
Qed.

Lemma parse_of_common_trailing_quote_witness :
  parse_of_common (bytes "a=b" ++ [xff; x00]) 0 5 = Fault (OutOfBounds 5).
Proof.
  apply (parse_of_common_trailing_quote [] (bytes "a") [Lit "b"] 5); by_eval.
  all: cbn; lia.
Defined.

(** ** Printing config variables *)

Lemma value_of_iff (var r v : list byte) :
  value_of var r = Some v <-> r = var ++ x3d :: v.
Proof.
  revert r. induction var as [ | c var IH ]; intros r.
  - destruct r as [ | b r ]; cbn [value_of app].
    + split; discriminate.
    + destruct (u8 b =? 61) eqn:E; zbool.
      * assert (b = x3d) as -> by (apply u8_inj; exact E).
        split; intros H; injection H as ->; reflexivity.
      * split; [ discriminate | ]. intros H. injection H as -> _.
        contradiction E. reflexivity.
  - destruct r as [ | b r ]; cbn [value_of app].
    + split; discriminate.
    + destruct (u8 b =? u8 c) eqn:E; zbool.
      * apply u8_inj in E. subst b. rewrite IH.
        split; [ intros ->; reflexivity | intros H; injection H as ->; reflexivity ].
      * split; [ discriminate | ]. intros H. injection H as -> _.
        contradiction E. reflexivity.
Qed.

Lemma print_config_vars_layout (recs : list (list byte)) :
  Forall wf_record recs ->
  forall (d pre rest : list byte) (fuel : nat) (data_ : Z),
    d = pre ++ records_image recs ++ x00 :: rest ->
    data_ = len pre ->
    (List.length recs < fuel)%nat ->
    print_config_vars fuel d data_
    = Ret (flat_map (fun r => r ++ [nl]) recs).
Proof.
  induction 1 as [ | r recs [Hne Hnn] Hwf IH ];
    intros d pre rest fuel data_ Hd Hp Hf.
  - destruct fuel as [ | fuel ]; [ cbn in Hf; lia | ].
    cbn [print_config_vars flat_map]. cbn [records_image flat_map app] in Hd.
    rewrite (rd_at_layout d pre x00 rest data_ Hd Hp). cbn [bind].
    rewrite u8_x00. reflexivity.
  - destruct fuel as [ | fuel ]; [ cbn in Hf; lia | ].
    cbn [List.length] in Hf. cbn [print_config_vars flat_map].
    rewrite records_image_cons, <- !app_assoc in Hd. cbn [app] in Hd.
    destruct r as [ | b r ]; [ contradiction | ].
    rewrite (rd_at_layout d pre b (r ++ x00 :: records_image recs ++ x00 :: rest)
               data_ Hd Hp).
    cbn [bind].
    pose proof Hnn as Hnn'. apply Forall_cons_iff in Hnn'.
    destruct Hnn' as [Hb _]. apply Z.eqb_neq in Hb. rewrite Hb.
    rewrite (strlen_at_layout d pre (b :: r) (records_image recs ++ x00 :: rest)
               data_ Hd Hp Hnn).
    cbn [bind].
    rewrite (IH d (pre ++ (b :: r) ++ [x00]) rest fuel (data_ + len (b :: r) + 1));
      [ | rewrite <- !app_assoc; exact Hd | len_norm; lia | lia ].
    cbn [bind]. rewrite Hd, Hp, from_app.
    change (b :: r ++ x00 :: records_image recs ++ x00 :: rest)
      with ((b :: r) ++ x00 :: records_image recs ++ x00 :: rest).
    rewrite (cstr_no_nul (b :: r) _ Hnn), <- app_assoc. reflexivity.
Qed.

(** X8: for a partition that holds the records [recs], closed by an empty
    record, [print_of_config_part] prints the title, a line of
    [strlen(pname) + 15] dashes, every record on a line of its own, in
    order, and an empty line, and returns 0. *)
Theorem print_of_config_part_lists_records
    (nv : nvram) (pname : list byte) (phead : Z) (ph : partition_header)
    (pre : list byte) (recs : list (list byte)) (rest : list byte) :
  nvram_find_partition nv x00 (Some pname) None = Some (phead, ph) ->
  data nv = pre ++ records_image recs ++ x00 :: rest ->
  len pre = phead + 16 ->
  Forall wf_record recs ->
  print_of_config_part nv pname
  = Ret (0, config_part_title pname
            ++ flat_map (fun r => r ++ [nl]) recs ++ [nl]).
Proof.
  intros Hfind Hd Hp Hwf. unfold print_of_config_part. rewrite Hfind.
  cbv zeta.
  rewrite (print_config_vars_layout recs Hwf (data nv) pre rest _ (phead + 16) Hd);
    [ reflexivity | lia | ].
  rewrite Hd. pose proof (records_image_len_ge recs) as H.
  rewrite !length_app. unfold len in H. lia.
Qed.

Lemma print_of_config_part_lists_records_witness :
  print_of_config_part common_nvram (bytes "common")
  = Ret (0, [x22] ++ bytes "common" ++ [x22] ++ bytes " Partition" ++ [nl]
            ++ bytes "---------------------" ++ [nl]
            ++ bytes "foo=1" ++ [nl] ++ bytes "bar=2" ++ [nl] ++ [nl]).
Proof.
  apply (print_of_config_part_lists_records common_nvram (bytes "common") 0
           common_header (encode_header common_header)
           [bytes "foo=1"; bytes "bar=2"] (repeat x00 3)); by_eval.
Defined.

(** [strncmp] over the whole length of a string that holds no NUL. *)
Lemma strncmp_prefix (var : list byte) :
  no_nul var ->
  forall s, strncmp var s (List.length var) = 0 <-> exists t, s = var ++ t.
Proof.
  induction 1 as [ | c var Hc Hvar IH ]; intros s.
  - cbn [strncmp List.length app]. split; [ intros _; exists s | ]; reflexivity.
  - cbn [strncmp List.length hd tl app].
    destruct (u8 c =? u8 (hd x00 s)) eqn:E; zbool.
    + apply u8_inj in E. apply Z.eqb_neq in Hc. rewrite Hc. rewrite IH.
      destruct s as [ | b s ]; cbn [hd tl] in *.
      * subst c. discriminate Hc.
      * subst c. split; intros [t Ht]; exists t.
        -- rewrite Ht. reflexivity.
        -- injection Ht as Ht. exact Ht.
    + split; [ lia | ]. intros [t ->]. cbn [hd] in E. contradiction E.
      reflexivity.
Qed.

Lemma no_nul_prefix (a : list byte) :
  no_nul a ->
  forall r t rest, no_nul r -> a ++ t = r ++ x00 :: rest ->
  exists v, r = a ++ v /\ t = v ++ x00 :: rest.
Proof.
  induction 1 as [ | c a Hc Ha IH ]; intros r t rest Hr H.
  - exists r. split; [ reflexivity | exact H ].
  - destruct r as [ | b r ]; cbn [app] in H.
    + injection H as -> _. contradiction Hc. reflexivity.
    + injection H as -> H. apply Forall_cons_iff in Hr. destruct Hr as [_ Hr].
      destruct (IH r t rest Hr H) as (v & -> & ->).
      exists v. split; reflexivity.
Qed.

(** The test of the lookup loop on one record: it holds exactly for a
    definition of [var]. *)
Lemma config_var_test (d pre r rest var : list byte) (data_ : Z) :
  d = pre ++ r ++ x00 :: rest -> data_ = len pre ->
  no_nul r -> no_nul var -> len var <= len r + len rest ->
  exists e,
    rd_at d (data_ + len var) = Ret e
    /\ (u8 e =? 61) && (strncmp var (from d data_) (Z.to_nat (len var)) =? 0)
       = match value_of var r with Some _ => true | None => false end.
Proof.
  intros Hd Hp Hr Hvar Hl.
  destruct (rd_at_inside d (data_ + len var)) as [e He].
  { rewrite Hd, Hp. len_norm. pose proof (len_nonneg pre).
    pose proof (len_nonneg var). lia. }
  exists e. split; [ exact He | ].
  rewrite Hd, Hp, from_app. unfold len. rewrite Nat2Z.id.
  destruct (value_of var r) as [ v | ] eqn:Ev.
  - apply value_of_iff in Ev. subst r.
    assert (e = x3d) as ->.
    { rewrite Hd, Hp in He. rewrite <- !app_assoc in He. cbn [app] in He.
      rewrite app_assoc in He. rewrite rd_at_app in He by (len_norm; lia).
      injection He as <-. reflexivity. }
    replace (strncmp var ((var ++ x3d :: v) ++ x00 :: rest) (List.length var))
      with 0.
    + reflexivity.
    + symmetry. apply strncmp_prefix; [ exact Hvar | ].
      rewrite <- app_assoc. eexists. reflexivity.
  - apply andb_false_iff.
    destruct (strncmp var (r ++ x00 :: rest) (List.length var) =? 0) eqn:Es;
      [ | right; reflexivity ].
    left. zbool. apply (strncmp_prefix var Hvar) in Es. destruct Es as [t Ht].
    symmetry in Ht.
    destruct (no_nul_prefix var Hvar r t rest Hr Ht) as (v & -> & ->).
    apply Z.eqb_neq. intros H61.
    rewrite Hd, Hp, <- !app_assoc in He.
    destruct v as [ | b v ].
    + cbn [app] in He. rewrite app_assoc in He.
      rewrite rd_at_app in He by (len_norm; lia).
      injection He as <-. discriminate H61.
    + cbn [app] in He. rewrite app_assoc in He.
      rewrite rd_at_app in He by (len_norm; lia).
      injection He as <-.
      assert (b = x3d) as -> by (apply u8_inj; exact H61).
      assert (value_of var (var ++ x3d :: v) = Some v)
        by (apply value_of_iff; reflexivity).
      congruence.
Qed.

Lemma print_config_var_layout (var : list byte) (recs : list (list byte)) :
  Forall wf_record recs -> no_nul var ->
  forall (d pre rest : list byte) (fuel : nat) (data_ rc : Z),
    d = pre ++ records_image recs ++ x00 :: rest ->
    data_ = len pre ->
    len var <= len rest ->
    (List.length recs < fuel)%nat ->
    print_config_var fuel d var data_ rc
    = Ret (if defines var recs then 0 else rc, value_lines var recs).
Proof.
  intros Hwf Hvar. induction Hwf as [ | r recs [Hne Hnn] Hwf IH ];
    intros d pre rest fuel data_ rc Hd Hp Hl Hf.
  - destruct fuel as [ | fuel ]; [ cbn in Hf; lia | ].
    cbn [print_config_var]. cbn [records_image flat_map app] in Hd.
    rewrite (rd_at_layout d pre x00 rest data_ Hd Hp). cbn [bind].
    rewrite u8_x00. reflexivity.
  - destruct fuel as [ | fuel ]; [ cbn in Hf; lia | ].
    cbn [List.length] in Hf. cbn [print_config_var].
    rewrite records_image_cons, <- !app_assoc in Hd. cbn [app] in Hd.
    pose proof (len_nonneg (records_image recs)) as Hri.
    destruct (config_var_test d pre r (records_image recs ++ x00 :: rest) var
                data_ Hd Hp Hnn Hvar) as (e & He & Htest).
    { len_norm. pose proof (len_nonneg r). lia. }
    destruct r as [ | b r ]; [ contradiction | ].
    rewrite (rd_at_layout d pre b (r ++ x00 :: records_image recs ++ x00 :: rest)
               data_ Hd Hp).
    cbn [bind].
    pose proof Hnn as Hnn'. apply Forall_cons_iff in Hnn'.
    destruct Hnn' as [Hb _]. apply Z.eqb_neq in Hb. rewrite Hb.
    rewrite He. cbn [bind]. rewrite Htest.
    unfold defines, value_lines. cbn [existsb flat_map].
    fold (defines var recs). fold (value_lines var recs).
    rewrite (strlen_at_layout d pre (b :: r) (records_image recs ++ x00 :: rest)
               data_ Hd Hp Hnn).
    destruct (value_of var (b :: r)) as [ v | ] eqn:Ev.
    + apply value_of_iff in Ev.
      assert (Hv : no_nul v).
      { rewrite Ev in Hnn. apply no_nul_app in Hnn. destruct Hnn as [_ Hnn].
        apply Forall_cons_iff in Hnn. exact (proj2 Hnn). }
      assert (Hd' : d = (pre ++ var ++ [x3d]) ++ v
                        ++ x00 :: records_image recs ++ x00 :: rest).
      { rewrite Hd. change (b :: r ++ ?t) with ((b :: r) ++ t).
        rewrite Ev, <- !app_assoc. reflexivity. }
      rewrite (strlen_at_layout d _ v _ (data_ + len var + 1) Hd')
        by (try assumption; len_norm; lia).
      cbn [bind orb].
      rewrite (IH d (pre ++ (b :: r) ++ [x00]) rest fuel
                 (data_ + len (b :: r) + 1) 0);
        [ | rewrite <- !app_assoc; exact Hd | len_norm; lia | exact Hl | lia ].
      cbn [bind fst snd].
      rewrite Hd' at 1.
      replace (data_ + len var + 1) with (len (pre ++ var ++ [x3d]))
        by (len_norm; lia).
      rewrite from_app, (cstr_no_nul v _ Hv), <- app_assoc.
      destruct (defines var recs); reflexivity.
    + cbn [bind orb app].
      apply (IH d (pre ++ (b :: r) ++ [x00]) rest fuel
               (data_ + len (b :: r) + 1) rc);
        [ rewrite <- !app_assoc; exact Hd | len_norm; lia | exact Hl | lia ].
Qed.

(** X9: looking a variable up in a named partition prints the value of
    every record of the form [var=value], in the order of the records (a
    variable that is defined twice gives two lines), and returns 0; when no
    record defines it the function prints nothing, gives no message and
    returns -1.  The image reaches at least [strlen(var)] bytes behind the
    records. *)
Theorem print_of_config_prints_values (nvram_cmdname : list byte)
    (nv : nvram) (var pname : list byte) (phead : Z) (ph : partition_header)
    (pre : list byte) (recs : list (list byte)) (rest : list byte) :
  nvram_find_partition nv x00 (Some pname) None = Some (phead, ph) ->
  data nv = pre ++ records_image recs ++ x00 :: rest ->
  len pre = phead + 16 ->
  Forall wf_record recs -> no_nul var -> len var <= len rest ->
  print_of_config nvram_cmdname nv (Some var) (Some pname)
  = Ret (if defines var recs then 0 else -1, value_lines var recs, []).
Proof.
  intros Hfind Hd Hp Hwf Hvar Hl. unfold print_of_config. rewrite Hfind.
  rewrite (print_config_var_layout var recs Hwf Hvar (data nv) pre rest _
             (phead + 16) (-1) Hd);
    [ reflexivity | lia | exact Hl | ].
  rewrite Hd. pose proof (records_image_len_ge recs) as H.
  rewrite !length_app. unfold len in H. lia.
Qed.

Lemma print_of_config_prints_values_witness :
  print_of_config (bytes "nvram") twice_nvram (Some (bytes "foo"))
    (Some (bytes "common"))
  = Ret (0, bytes "1" ++ [nl] ++ bytes "3" ++ [nl], []).
Proof.
  apply (print_of_config_prints_values (bytes "nvram") twice_nvram
           (bytes "foo")
           (bytes "common") 0
           (mk_header x70 x00 3 (bytes "common" ++ repeat x00 6))
           (encode_header (mk_header x70 x00 3 (bytes "common" ++ repeat x00 6)))
           [bytes "foo=1"; bytes "bar=2"; bytes "foo=3"]
           (repeat x00 13 ++ encode_header header_70_1)); by_eval.
Defined.

(** X10: the lookup reads [data[varlen]] before it compares anything: when
    the name of the variable is longer than what is left of the image
    behind the first record, that read is outside the image. *)
Theorem print_of_config_long_name_overread (nvram_cmdname : list byte)
    (nv : nvram) (var pname : list byte) (phead : Z) (ph : partition_header)
    (pre r rest : list byte) :
  nvram_find_partition nv x00 (Some pname) None = Some (phead, ph) ->
  data nv = pre ++ r ++ rest ->
  len pre = phead + 16 ->
  r <> [] -> no_nul r ->
  len r + len rest <= len var ->
  print_of_config nvram_cmdname nv (Some var) (Some pname)
  = Fault (OutOfBounds (phead + 16 + len var)).
Proof.
  intros Hfind Hd Hp Hne Hnn Hl. unfold print_of_config. rewrite Hfind.
  cbn [print_config_var].
  destruct r as [ | b r ]; [ contradiction | ].
  cbn [app] in Hd.
  rewrite (rd_at_layout (data nv) pre b (r ++ rest) (phead + 16) Hd)
    by lia.
  cbn [bind]. apply Forall_cons_iff in Hnn. destruct Hnn as [Hb _].
  apply Z.eqb_neq in Hb. rewrite Hb. cbv zeta.
  unfold rd_at at 1, rd.
  pose proof (len_nonneg pre). pose proof (len_nonneg var).
  destruct (0 <=? phead + 16 + len var) eqn:E; zbool; [ | lia ].
  rewrite (proj2 (nth_error_None _ _)); [ reflexivity | ].
  rewrite Hd. rewrite length_app. cbn [List.length]. rewrite length_app.
  rewrite len_cons in Hl. unfold len in *. lia.
Qed.

Lemma print_of_config_long_name_overread_witness :
  print_of_config (bytes "nvram") common_nvram
    (Some (bytes "a-name-of-thirty-three-characters")) (Some (bytes "common"))
  = Fault (OutOfBounds 49).
Proof.
  apply (print_of_config_long_name_overread (bytes "nvram") common_nvram
           (bytes "a-name-of-thirty-three-characters") (bytes "common") 0
           common_header (encode_header common_header) (bytes "foo=1")
           ([x00] ++ bytes "bar=2" ++ repeat x00 5)); by_eval.
Defined.

(** X11: printing all the variables of a partition works for the three
    names of [name_value_parts] only: with any other name the function
    prints nothing, reports that there is no such Open Firmware partition
    and returns -1, whether the image holds a partition of that name or
    not.  The name is such that the message fits the [MAXLINE] bytes of the
    buffer of [_msg]. *)
Theorem print_of_config_other_partition_refused (nvram_cmdname : list byte)
    (nv : nvram) (pname : list byte) :
  ~ In (cstr pname) name_value_parts ->
  msg_bytes nvram_cmdname (bytes "ERROR: ") (no_of_partition_text pname)
    <= MAXLINE ->
  print_of_config nvram_cmdname nv None (Some pname)
  = Ret (-1, [], [Err_no_of_partition pname]).
Proof.
  intros Hn Hfits. unfold print_of_config, name_value_parts.
  cbn [print_named_part]. unfold cstr_eqb.
  repeat match goal with
  | |- context [list_eq_dec ?dec ?a ?b] =>
      destruct (list_eq_dec dec a b) as [ E | _ ];
        [ exfalso; apply Hn; rewrite E; cbn; tauto | ]
  end.
  cbn [bind fst snd Z.eqb negb]. rewrite (err_msg_fits _ _ Hfits).
  reflexivity.
Qed.

Lemma print_of_config_other_partition_refused_witness :
  print_of_config (bytes "nvram") twice_nvram None
    (Some (bytes "lnx,oops-log"))
  = Ret (-1, [], [Err_no_of_partition (bytes "lnx,oops-log")]).
Proof.
  apply (print_of_config_other_partition_refused (bytes "nvram") twice_nvram
           (bytes "lnx,oops-log")).
  - intros H. cbn in H. intuition discriminate.
  - vm_compute. discriminate.
Defined.

(** X12: with one of the three names and no partition of that name in the
    image, printing all variables prints nothing, gives no message and
    returns 0. *)
Theorem print_of_config_missing_partition_succeeds
    (nvram_cmdname : list byte) (nv : nvram) (pname : list byte) :
  In pname name_value_parts ->
  nvram_find_partition nv x00 (Some pname) None = None ->
  print_of_config nvram_cmdname nv None (Some pname) = Ret (0, [], []).
Proof.
  intros Hin Hfind. unfold print_of_config.
  unfold name_value_parts in *. cbn [In] in Hin.
  destruct Hin as [ <- | [ <- | [ <- | [] ] ] ];
    cbn [print_named_part]; unfold print_of_config_part;
    repeat match goal with
    | |- context [cstr_eqb ?a ?b] =>
        let v := eval vm_compute in (cstr_eqb a b) in
        change (cstr_eqb a b) with v; cbv iota
    end;
    rewrite Hfind; reflexivity.
Qed.

Lemma print_of_config_missing_partition_succeeds_witness :
  print_of_config (bytes "nvram") twice_nvram None (Some (bytes "of-config"))
  = Ret (0, [], []).
Proof.
  apply (print_of_config_missing_partition_succeeds (bytes "nvram")
           twice_nvram (bytes "of-config")).
  - cbn. tauto.
  - vm_compute. reflexivity.
Defined.

(** ** The backing store during an update *)

Lemma sys_lseek_cur_bytes (f : fdstate) (offset : Z) :
  f_bytes (snd (sys_lseek_cur f offset)) = f_bytes f.
Proof. unfold sys_lseek_cur. destruct (f_pos f + offset <? 0); reflexivity. Qed.

Lemma sys_lseek_set_bytes (f : fdstate) (offset : Z) :
  f_bytes (snd (sys_lseek_set f offset)) = f_bytes f.
Proof. unfold sys_lseek_set. destruct (offset <? 0); reflexivity. Qed.

(** The header walk neither writes to the store nor touches the image in
    memory. *)
Lemma find_fd_loop_keeps (fuel : nat) :
  forall (w : world) (name : list byte) (r : option Z) (w' : world),
    find_fd_loop fuel w name = Ret (r, w') ->
    w_nvram w' = w_nvram w /\ f_bytes (w_fd w') = f_bytes (w_fd w).
Proof.
  induction fuel as [ | fuel IH ]; intros w name r w' H.
  - discriminate H.
  - cbn [find_fd_loop] in H. unfold sys_read in H. cbn [w_fd with_fd] in H.
    match type of H with
    | context [len ?b =? 0] => destruct (len b =? 0)
    end.
    { injection H as <- <-. split; reflexivity. }
    match type of H with
    | context [negb (len ?b =? 16)] => destruct (negb (len b =? 16))
    end.
    { injection H as <- <-. split; reflexivity. }
    match type of H with
    | context [read_header ?b 0] => destruct (read_header b 0) as [ phead | ]
    end; [ | discriminate H ].
    match type of H with
    | context [strncmp ?a ?b ?n =? 0] => destruct (strncmp a b n =? 0)
    end.
    { injection H as <- <-. split; reflexivity. }
    match type of H with
    | context [sys_lseek_cur ?f ?o] =>
        pose proof (sys_lseek_cur_bytes f o) as Hb;
        destruct (sys_lseek_cur f o) as [ rr f' ]
    end.
    cbn [snd f_bytes] in Hb.
    destruct (rr =? -1).
    { injection H as <- <-. split; reflexivity. }
    apply IH in H. cbn [with_fd w_nvram w_fd] in H.
    destruct H as [H1 H2]. split; [ exact H1 | ]. rewrite H2. exact Hb.
Qed.

Lemma nvram_find_fd_partition_keeps (fuel : nat) (w : world) (name : list byte)
    (rc : Z) (w' : world) :
  nvram_find_fd_partition fuel w name = Ret (rc, w') ->
  w_nvram w' = w_nvram w /\ f_bytes (w_fd w') = f_bytes (w_fd w).
Proof.
  unfold nvram_find_fd_partition. intros H.
  pose proof (sys_lseek_set_bytes (w_fd w) 0) as Hs.
  destruct (sys_lseek_set (w_fd w) 0) as [ r f ]. cbn [snd] in Hs.
  destruct (r =? -1).
  { injection H as <- <-. split; reflexivity. }
  destruct (find_fd_loop fuel (with_fd w f) name) as [ [ro w1] | | ] eqn:El;
    cbn [bind] in H; try discriminate H.
  apply find_fd_loop_keeps in El. cbn [with_fd w_nvram w_fd] in El.
  destruct El as [E1 E2].
  destruct ro as [ rc' | ].
  { injection H as <- <-. split; [ exact E1 | ]. rewrite E2. exact Hs. }
  pose proof (sys_lseek_cur_bytes (w_fd w1) (-16)) as Hc.
  destruct (sys_lseek_cur (w_fd w1) (-16)) as [ r2 f2 ]. cbn [snd] in Hc.
  destruct (r2 =? -1).
  - injection H as <- <-. cbn [say w_nvram w_fd]. split; [ exact E1 | ].
    rewrite E2. exact Hs.
  - injection H as <- <-. cbn [with_fd w_nvram w_fd]. split; [ exact E1 | ].
    rewrite Hc, E2. exact Hs.
Qed.

Lemma update_prepare_refused (nvram_cmdname : list byte) (w : world)
    (config_var pname : list byte) (rc : Z) (w' : world) :
  update_prepare nvram_cmdname w config_var pname = Ret (Refused rc w') ->
  rc = -1 /\ exists m, w' = say w m.
Proof.
  unfold update_prepare.
  destruct (nvram_find_partition (w_nvram w) x00 (Some pname) None)
    as [ [phead ph] | ].
  2:{ intros H. unfold bind in H.
      destruct (err_msg _ _); try discriminate H.
      injection H as <- <-. split; [ reflexivity | eexists; reflexivity ]. }
  intros H. unfold bind in H.
  repeat match type of H with
         | context [match ?x with _ => _ end] => destruct x; try discriminate H
         end;
    injection H as <- <-; (split; [ reflexivity | eexists; reflexivity ]).
Qed.

(** X13: [update_of_config_var] never changes the image in memory, and when
    it returns -1 it has not written a byte to the backing store. *)
Theorem update_failure_writes_nothing
    (nvram_cmdname filename : list byte)
    (fuel : nat) (w : world) (config_var pname : list byte)
    (rc : Z) (w' : world) :
  update_of_config_var nvram_cmdname filename fuel w config_var pname
  = Ret (rc, w') ->
  w_nvram w' = w_nvram w
  /\ (rc = 0 \/ rc = -1)
  /\ (rc = -1 -> f_bytes (w_fd w') = f_bytes (w_fd w)).
Proof.
  unfold update_of_config_var. intros H.
  destruct (update_prepare nvram_cmdname w config_var pname)
    as [ [ rc0 w0 | np sz nh ] | | ] eqn:Ep; cbn [bind] in H;
    try discriminate H.
  - injection H as <- <-.
    destruct (update_prepare_refused _ _ _ _ _ _ Ep) as (-> & m & ->).
    cbn [say w_nvram w_fd]. split; [ reflexivity | ].
    split; [ right; reflexivity | reflexivity ].
  - unfold update_commit in H.
    destruct (nvram_find_fd_partition fuel w (ph_name nh)) as [ [rc1 w1] | | ]
      eqn:Ef; cbn [bind] in H; try discriminate H.
    apply nvram_find_fd_partition_keeps in Ef. destruct Ef as [E1 E2].
    destruct (negb (rc1 =? 0)).
    + injection H as <- <-. split; [ exact E1 | ].
      split; [ right; reflexivity | intros _; exact E2 ].
    + destruct (sys_write (w_fd w1) np) as [ n f ].
      destruct (negb (n =? sz)).
      * unfold bind in H. destruct (err_msg _ _); try discriminate H.
        injection H as <- <-.
        split; [ exact E1 | ]. split; [ left; reflexivity | discriminate ].
      * injection H as <- <-.
        split; [ exact E1 | ]. split; [ left; reflexivity | discriminate ].
Qed.

Lemma update_failure_writes_nothing_witness :
  w_nvram (mk_world common_nvram (mk_fd common_image 0 32)
             [Err_no_config_var (bytes "baz=2222") (bytes "common")])
  = w_nvram (common_world 32)
  /\ (-1 = 0 \/ -1 = -1)
  /\ (-1 = -1 ->
      f_bytes (w_fd (mk_world common_nvram (mk_fd common_image 0 32)
                       [Err_no_config_var (bytes "baz=2222") (bytes "common")]))
      = f_bytes (w_fd (common_world 32))).
Proof.
  apply (update_failure_writes_nothing (bytes "nvram") (bytes "/dev/nvram") 5
           (common_world 32) (bytes "baz=2222") (bytes "common")).
  vm_compute. reflexivity.
Defined.

(** ** The two searches for a partition *)

Lemma strncmp_zero_sym (a b : list byte) (n : nat) :
  strncmp a b n = 0 <-> strncmp b a n = 0.
Proof. rewrite !strncmp_eq_iff. split; intros H; symmetry; exact H. Qed.

Lemma strncmp_zero_trans (a b c : list byte) (n : nat) :
  strncmp a b n = 0 -> strncmp b c n = 0 -> strncmp a c n = 0.
Proof. rewrite !strncmp_eq_iff. intros -> ->. reflexivity. Qed.

Lemma read_header_front (h : partition_header) (rest : list byte) :
  wf_header h -> read_header (encode_header h ++ rest) 0 = Some h.
Proof. intros Hwf. exact (read_header_encode [] rest h Hwf). Qed.

Lemma read_header_alone (h : partition_header) :
  wf_header h -> read_header (encode_header h) 0 = Some h.
Proof.
  intros Hwf. pose proof (read_header_encode [] [] h Hwf) as H.
  cbn [app] in H. rewrite app_nil_r in H. exact H.
Qed.

Lemma sys_read_header (bytes_ pre post : list byte)
    (p : partition_header * list byte) (room : Z) :
  bytes_ = pre ++ partition_image p ++ post -> wf_partition p ->
  sys_read (mk_fd bytes_ (len pre) room) 16
  = (encode_header (fst p), mk_fd bytes_ (len pre + 16) room).
Proof.
  intros -> (Hwf & _ & _). unfold sys_read. cbn [f_bytes f_pos f_room].
  rewrite from_app. unfold partition_image. rewrite <- !app_assoc.
  change (Z.to_nat 16) with 16%nat.
  rewrite (firstn_exact 16 (encode_header (fst p)))
    by (apply encode_header_length; exact Hwf).
  unfold len at 2. rewrite (encode_header_length _ Hwf). reflexivity.
Qed.

(** One round of the header walk, on the header of a partition. *)
Lemma find_fd_loop_step (nv : nvram) (bytes_ pre post : list byte)
    (q : partition_header * list byte) (room : Z) (out : list msg)
    (fuel : nat) (name : list byte) :
  bytes_ = pre ++ partition_image q ++ post -> wf_partition q ->
  find_fd_loop (S fuel) (mk_world nv (mk_fd bytes_ (len pre) room) out) name
  = if strncmp (ph_name (fst q)) name 12 =? 0
    then Ret (None, mk_world nv (mk_fd bytes_ (len pre + 16) room) out)
    else find_fd_loop fuel
           (mk_world nv
              (mk_fd bytes_ (len pre + ph_length (fst q) * 16) room) out) name.
Proof.
  intros Hb Hq. cbn [find_fd_loop w_fd].
  rewrite (sys_read_header bytes_ pre post q room Hb Hq).
  pose proof Hq as (Hwq & Hl1 & Hpay).
  assert (Hl16 : len (encode_header (fst q)) = 16)
    by (unfold len; rewrite (encode_header_length _ Hwq); reflexivity).
  rewrite !Hl16. cbn [Z.eqb negb].
  rewrite (read_header_alone _ Hwq).
  destruct (strncmp (ph_name (fst q)) name 12 =? 0); [ reflexivity | ].
  unfold sys_lseek_cur, NVRAM_BLOCK_SIZE.
  cbn [with_fd w_nvram w_out w_fd f_pos f_bytes f_room].
  pose proof (len_nonneg pre).
  destruct (len pre + 16 + (ph_length (fst q) * 16 - 16) <? 0) eqn:E; zbool;
    [ lia | ].
  destruct (len pre + 16 + (ph_length (fst q) * 16 - 16) =? -1) eqn:E1; zbool;
    [ lia | ].
  cbn [with_fd w_nvram w_out].
  replace (len pre + 16 + (ph_length (fst q) * 16 - 16))
    with (len pre + ph_length (fst q) * 16) by lia.
  reflexivity.
Qed.

(** The header walk steps over the partitions whose name differs. *)
Lemma find_fd_loop_skips (name : list byte)
    (psb : list (partition_header * list byte)) :
  Forall wf_partition psb ->
  Forall (fun q => strncmp (ph_name (fst q)) name 12 <> 0) psb ->
  forall (nv : nvram) (bytes_ pre post : list byte) (room : Z)
         (out : list msg) (fuel : nat),
    bytes_ = pre ++ image psb ++ post ->
    find_fd_loop (List.length psb + fuel)
      (mk_world nv (mk_fd bytes_ (len pre) room) out) name
    = find_fd_loop fuel
        (mk_world nv (mk_fd bytes_ (len pre + len (image psb)) room) out) name.
Proof.
  induction 1 as [ | q psb Hq Hwf IH ]; intros Hno nv bytes_ pre post room out fuel Hb.
  - cbn [List.length Nat.add image flat_map]. len_norm.
    rewrite Z.add_0_r. reflexivity.
  - apply Forall_cons_iff in Hno. destruct Hno as [Hnq Hno].
    cbn [List.length Nat.add].
    rewrite image_cons, <- app_assoc in Hb.
    rewrite (find_fd_loop_step nv bytes_ pre (image psb ++ post) q room out _
               name Hb Hq).
    apply Z.eqb_neq in Hnq. rewrite Hnq.
    rewrite image_cons, len_app, (partition_image_len q Hq).
    specialize (IH Hno nv bytes_ (pre ++ partition_image q) post room out fuel).
    rewrite len_app, (partition_image_len q Hq) in IH.
    rewrite IH by (rewrite <- app_assoc; exact Hb).
    rewrite Z.add_assoc. reflexivity.
Qed.

Lemma nvram_find_fd_partition_image (name : list byte)
    (psb : list (partition_header * list byte))
    (p : partition_header * list byte)
    (psa : list (partition_header * list byte))
    (nv : nvram) (pos room : Z) (out : list msg) (fuel : nat) :
  Forall wf_partition (psb ++ p :: psa) ->
  Forall (fun q => strncmp (ph_name (fst q)) name 12 <> 0) psb ->
  strncmp (ph_name (fst p)) name 12 = 0 ->
  (List.length psb < fuel)%nat ->
  nvram_find_fd_partition fuel
    (mk_world nv (mk_fd (image (psb ++ p :: psa)) pos room) out) name
  = Ret (0, mk_world nv
              (mk_fd (image (psb ++ p :: psa)) (len (image psb)) room) out).
Proof.
  intros Hwf Hno Hyes Hfuel.
  apply Forall_app in Hwf. destruct Hwf as [Hwfb Hwf].
  apply Forall_cons_iff in Hwf. destruct Hwf as [Hp _].
  unfold nvram_find_fd_partition, sys_lseek_set. cbn [w_fd f_bytes f_room].
  cbn [Z.ltb Z.compare Z.eqb with_fd w_nvram w_out].
  destruct (fuel_split _ _ Hfuel) as [f ->].
  rewrite image_app, image_cons.
  change 0 with (len []) at 1.
  unfold with_fd at 1. cbn [w_nvram w_out].
  rewrite (find_fd_loop_skips name psb Hwfb Hno nv _ [] (partition_image p ++ image psa))
    by reflexivity.
  change (len [] + len (image psb)) with (len (image psb)).
  rewrite (find_fd_loop_step nv _ (image psb) (image psa) p room out f name)
    by (try reflexivity; exact Hp).
  rewrite Hyes. cbn [Z.eqb bind].
  unfold sys_lseek_cur. cbn [f_pos f_bytes f_room w_fd].
  pose proof (len_nonneg (image psb)).
  destruct (len (image psb) + 16 + -16 <? 0) eqn:E; zbool; [ lia | ].
  destruct (len (image psb) + 16 + -16 =? -1) eqn:E1; zbool; [ lia | ].
  cbn [with_fd w_nvram w_out].
  replace (len (image psb) + 16 + -16) with (len (image psb)) by lia.
  reflexivity.
Qed.

(** X14: on a backing store that holds the image that was parsed, the
    search through the file and the search through the table agree: the
    file position is left at the offset of the header that
    [nvram_find_partition] answers for the same name, the first partition
    whose name compares equal. *)
Theorem fd_search_agrees_with_table (name : list byte)
    (psb : list (partition_header * list byte))
    (p : partition_header * list byte)
    (psa : list (partition_header * list byte))
    (pos room : Z) (out : list msg) (fuel : nat) :
  Forall wf_partition (psb ++ p :: psa) ->
  Forall (fun q => strncmp (ph_name (fst q)) name 12 <> 0) psb ->
  strncmp (ph_name (fst p)) name 12 = 0 ->
  (List.length psb < fuel)%nat ->
  nvram_find_fd_partition fuel
    (mk_world (parsed (psb ++ p :: psa))
       (mk_fd (image (psb ++ p :: psa)) pos room) out) name
  = Ret (0, mk_world (parsed (psb ++ p :: psa))
              (mk_fd (image (psb ++ p :: psa)) (len (image psb)) room) out)
  /\ nvram_find_partition (parsed (psb ++ p :: psa)) x00 (Some name) None
     = Some (len (image psb), fst p).
Proof.
  intros Hwf Hno Hyes Hfuel. split.
  - apply nvram_find_fd_partition_image; assumption.
  - apply Forall_app in Hwf. destruct Hwf as [Hwfb _].
    apply find_partition_parsed; [ exact Hwfb | | ].
    + apply Forall_impl with (2 := Hno). intros q Hq Hc. apply Hq.
      apply strncmp_zero_sym. exact Hc.
    + apply strncmp_zero_sym. exact Hyes.
Qed.

Lemma fd_search_agrees_with_table_witness :
  nvram_find_fd_partition 2
    (mk_world (parsed raw_partitions) (mk_fd (image raw_partitions) 40 0) [])
    (bytes "common")
  = Ret (0, mk_world (parsed raw_partitions)
              (mk_fd (image raw_partitions) 16 0) [])
  /\ nvram_find_partition (parsed raw_partitions) x00 (Some (bytes "common"))
       None
     = Some (16, mk_header x70 x00 3 (bytes "common" ++ repeat x00 6)).
Proof.
  apply (fd_search_agrees_with_table (bytes "common") [(header_70_1, [])]
           (mk_header x70 x00 3 (bytes "common" ++ repeat x00 6),
            bytes "boot-device=disk" ++ repeat x00 16) [] 40 0 [] 2).
  - exact raw_partitions_wf.
  - by_eval.
  - vm_compute. reflexivity.
  - cbn. lia.
Defined.

(** ** A successful update *)

Lemma skipn_repeat_zeros (k n : nat) :
  skipn k (repeat x00 n) = repeat x00 (n - k).
Proof.
  revert n. induction k as [ | k IH ]; intros n.
  - rewrite Nat.sub_0_r. reflexivity.
  - destruct n as [ | n ]; [ reflexivity | ]. cbn [repeat skipn Nat.sub].
    apply IH.
Qed.

(** Copying into the zeroed part of a buffer. *)
Lemma poke_zeros (a src : list byte) (n : nat) (off : Z) :
  off = len a ->
  poke (a ++ repeat x00 n) off src
  = a ++ src ++ repeat x00 (n - List.length src).
Proof.
  intros ->. unfold poke, len. rewrite Nat2Z.id.
  rewrite firstn_exact by reflexivity.
  rewrite skipn_app, skipn_all2 by lia.
  replace (List.length a + List.length src - List.length a)%nat
    with (List.length src) by lia.
  rewrite skipn_repeat_zeros. reflexivity.
Qed.

(** The header with the checksum that [checksum] computes for it. *)
Lemma poke_checksum (h : partition_header) (rest : list byte) (c : byte) :
  poke (encode_header h ++ rest) 1 [c]
  = encode_header (mk_header (ph_signature h) c (ph_length h) (ph_name h))
    ++ rest.
Proof. reflexivity. Qed.

Lemma checksum_ignores_stored (h : partition_header) (c : byte) :
  checksum (mk_header (ph_signature h) c (ph_length h) (ph_name h))
  = checksum h.
Proof.
  unfold checksum, header_sum, sp. cbn [ph_signature ph_length ph_name].
  reflexivity.
Qed.

Lemma records_image_app (a b : list (list byte)) :
  records_image (a ++ b) = records_image a ++ records_image b.
Proof. unfold records_image. apply flat_map_app. Qed.

(** The new image of the partition, as the first part of the function
    builds it. *)
Lemma update_prepare_layout
    (nvram_cmdname : list byte) (w : world) (config_var pname : list byte)
    (phead : Z) (ph : partition_header)
    (pre : list byte) (before : list (list byte)) (old : list byte)
    (tail : list (list byte)) (rest post : list byte) :
  nvram_find_partition (w_nvram w) x00 (Some pname) None = Some (phead, ph) ->
  data (w_nvram w)
  = pre ++ encode_header ph
        ++ (records_image before ++ old ++ x00 :: records_image tail
              ++ x00 :: rest) ++ post ->
  len pre = phead -> wf_header ph ->
  16 + len (records_image before ++ old ++ x00 :: records_image tail
              ++ x00 :: rest) = ph_length ph * 16 ->
  Forall wf_record before -> no_nul old -> Forall wf_record tail ->
  no_nul config_var ->
  name_portion config_var <> None ->
  Forall (fun r => name_portion r <> name_portion config_var) before ->
  name_portion old = name_portion config_var ->
  len (records_image (before ++ config_var :: tail)) + 1
    <= ph_length ph * 16 - 16 ->
  update_prepare nvram_cmdname w config_var pname
  = Ret (Image (encode_header (updated_header ph)
                ++ updated_payload before config_var tail
                     (ph_length ph * 16 - 16))
           (ph_length ph * 16) ph).
Proof.
  intros Hfind Hdata Hpre Hwfh Hsize Hwfb Hold Hwft Hnn Hname Hnone Hsame Hfit.
  unfold update_prepare. rewrite Hfind.
  destruct (name_portion config_var) as [ nm | ] eqn:Hnp; [ | contradiction ].
  apply name_portion_iff in Hnp. destruct Hnp as (v & -> & Hne).
  apply name_portion_iff in Hsame. destruct Hsame as (v' & -> & _).
  rewrite (index_of_eq_app nm v Hne). cbv zeta.
  pose proof (no_match_strncmp nm v before Hnn Hne Hwfb Hnone) as Hs.
  remember (nm ++ x3d :: v) as cfg eqn:Hcfg.
  remember (nm ++ x3d :: v') as old eqn:Hold'.
  remember (data (w_nvram w)) as d eqn:Hd.
  rewrite records_image_app, records_image_cons in Hfit.
  repeat (rewrite len_app in Hfit, Hsize || rewrite len_cons in Hfit, Hsize
          || rewrite len_app in Hsize || rewrite len_cons in Hsize).
  remember (len (records_image before)) as lb eqn:Hlb.
  remember (len (records_image tail)) as lt eqn:Hlt.
  assert (Hh16 : len (encode_header ph) = 16)
    by (unfold len; rewrite (encode_header_length _ Hwfh); reflexivity).
  assert (Hlen : len d = len pre + 16 + lb + len old + 1 + lt + 1 + len rest
                         + len post).
  { rewrite Hdata. len_norm. lia. }
  pose proof (len_nonneg pre). pose proof (len_nonneg old).
  pose proof (len_nonneg rest). pose proof (len_nonneg post).
  pose proof (len_nonneg cfg).
  pose proof (records_image_len_ge before) as Hgb. rewrite <- Hlb in Hgb.
  pose proof (records_image_len_ge tail) as Hgt. rewrite <- Hlt in Hgt.
  assert (Hm : strncmp (old ++ x00 :: records_image tail ++ x00 :: rest ++ post)
                 cfg (Z.to_nat (len nm + 1)) = 0).
  { subst cfg old.
    apply strncmp_config_name; [ exact Hold | exact Hnn | exists v'; reflexivity ]. }
  assert (Hd1 : d = (pre ++ encode_header ph) ++ records_image before ++ old
                    ++ x00 :: records_image tail ++ x00 :: rest ++ post).
  { rewrite Hdata. repeat (rewrite <- app_assoc || rewrite <- app_comm_cons).
    reflexivity. }
  (* the scan for the variable *)
  rewrite (find_config_var_layout_found d cfg _ _ (pre ++ encode_header ph)
             before old (records_image tail ++ x00 :: rest ++ post)
             (phead + 16) Hd1);
    [ | len_norm; lia | assumption | assumption
      | subst old; destruct nm; discriminate | assumption | assumption
      | unfold len in Hlen, Hgb; lia ].
  cbn [bind negb]. unfold NVRAM_BLOCK_SIZE. rewrite <- Hlb.
  replace (phead + 16 + lb - phead) with (16 + lb) by lia.
  destruct (ph_length ph * 16 <? 16 + lb) eqn:E1; zbool; [ lia | ].
  destruct (16 + lb + len cfg + 1 >=? ph_length ph * 16) eqn:E2; zbool;
    [ lia | ].
  (* the scan for the end of the records *)
  rewrite (strlen_at_layout d ((pre ++ encode_header ph) ++ records_image before)
             old (records_image tail ++ x00 :: rest ++ post));
    [ | rewrite Hd1, <- !app_assoc; reflexivity
      | len_norm; lia | assumption ].
  cbn [bind].
  rewrite (skip_config_vars_layout d _
             (((pre ++ encode_header ph) ++ records_image before) ++ old ++ [x00])
             tail (rest ++ post));
    [ | rewrite Hd1, <- !app_assoc; reflexivity
      | len_norm; lia | assumption
      | unfold len in Hlen, Hgt; lia ].
  cbn [bind]. rewrite <- Hlt.
  destruct (rd_at_inside d (phead + 16 + lb + len old + 1 + lt - 1))
    as [b1 Hb1]; [ lia | ].
  rewrite Hb1. cbn [bind].
  rewrite (rd_at_layout d
             ((((pre ++ encode_header ph) ++ records_image before)
                 ++ old ++ [x00]) ++ records_image tail) x00 (rest ++ post));
    [ | rewrite Hd1, <- !app_assoc; reflexivity
      | len_norm; lia ].
  cbn [bind]. rewrite u8_x00. cbn [Z.eqb negb]. rewrite andb_false_r.
  destruct (16 + lb + len cfg + 1
            + (phead + 16 + lb + len old + 1 + lt + 1
               - (phead + 16 + lb + len old + 1)) >? ph_length ph * 16) eqn:E3;
    zbool; [ lia | ].
  (* the copies into the new image *)
  replace (block d phead (16 + lb))
    with (encode_header ph ++ records_image before).
  2:{ symmetry.
      replace (16 + lb) with (len (encode_header ph ++ records_image before))
        by (len_norm; lia).
      apply (block_layout d pre _
               (old ++ x00 :: records_image tail ++ x00 :: rest ++ post));
        [ rewrite Hd1, <- !app_assoc; reflexivity | lia ]. }
  replace (block d (phead + 16 + lb + len old + 1)
             (phead + 16 + lb + len old + 1 + lt + 1
              - (phead + 16 + lb + len old + 1)))
    with (records_image tail ++ [x00]).
  2:{ symmetry.
      replace (phead + 16 + lb + len old + 1 + lt + 1
               - (phead + 16 + lb + len old + 1))
        with (len (records_image tail ++ [x00])) by (len_norm; lia).
      apply (block_layout d
               (((pre ++ encode_header ph) ++ records_image before)
                  ++ old ++ [x00]) _ (rest ++ post));
        [ rewrite Hd1, <- !app_assoc; reflexivity | len_norm; lia ]. }
  set (N := Z.to_nat (ph_length ph * 16)).
  change (repeat x00 N) with ([] ++ repeat x00 N).
  rewrite (poke_zeros [] _ N 0) by reflexivity.
  cbn [app].
  rewrite (poke_zeros (encode_header ph ++ records_image before) (cfg ++ [x00]))
    by (len_norm; lia).
  rewrite app_assoc.
  rewrite (poke_zeros ((encode_header ph ++ records_image before) ++ cfg ++ [x00])
             (records_image tail ++ [x00]))
    by (len_norm; lia).
  rewrite <- !app_assoc.
  rewrite (read_header_front ph _ Hwfh).
  rewrite poke_checksum. unfold updated_header, updated_payload.
  rewrite records_image_app, records_image_cons.
  do 2 f_equal. f_equal. rewrite <- !app_assoc. cbn [app].
  match goal with
  | |- context [x00 :: repeat x00 ?k1] =>
      match goal with
      | |- context [records_image tail ++ repeat x00 ?k2] =>
          replace k2 with (S k1)
      end
  end.
  - reflexivity.
  - rewrite !length_app. cbn [List.length]. subst N. len_norm.
    rewrite <- Hlb, <- Hlt. unfold len in *. lia.
Qed.

Lemma updated_payload_len (before : list (list byte)) (cfg : list byte)
    (tail : list (list byte)) (n : Z) :
  len (records_image (before ++ cfg :: tail)) <= n ->
  len (updated_payload before cfg tail n) = n.
Proof.
  intros H. unfold updated_payload. rewrite len_app. unfold len at 2.
  rewrite repeat_length. pose proof (len_nonneg (records_image (before ++ cfg :: tail))).
  lia.
Qed.

Lemma poke_middle (d a b c src : list byte) (off : Z) :
  d = a ++ b ++ c -> off = len a -> List.length src = List.length b ->
  poke d off src = a ++ src ++ c.
Proof.
  intros -> -> Hl. unfold poke, len. rewrite Nat2Z.id.
  rewrite firstn_exact by reflexivity.
  rewrite Hl, (app_assoc a b c), <- length_app.
  rewrite skipn_app, skipn_all, Nat.sub_diag. reflexivity.
Qed.

Lemma strncmp_refl (a : list byte) (n : nat) : strncmp a a n = 0.
Proof. apply strncmp_eq_iff. reflexivity. Qed.

(** The world after a successful [update_of_config_var]. *)
Lemma update_of_config_var_layout
    (nvram_cmdname filename config_var pname : list byte)
    (psb : list (partition_header * list byte)) (ph : partition_header)
    (before : list (list byte)) (old : list byte) (tail : list (list byte))
    (rest : list byte) (psa : list (partition_header * list byte))
    (pos room : Z) (out : list msg) (fuel : nat) :
  Forall wf_partition
    (psb ++ (ph, config_payload before old tail rest) :: psa) ->
  Forall (fun q => strncmp pname (ph_name (fst q)) 12 <> 0) psb ->
  strncmp pname (ph_name ph) 12 = 0 ->
  Forall wf_record before -> no_nul old -> Forall wf_record tail ->
  no_nul config_var ->
  name_portion config_var <> None ->
  Forall (fun r => name_portion r <> name_portion config_var) before ->
  name_portion old = name_portion config_var ->
  len (records_image (before ++ config_var :: tail)) + 1
    <= len (config_payload before old tail rest) ->
  ph_length ph * 16 <= room ->
  (List.length psb < fuel)%nat ->
  update_of_config_var nvram_cmdname filename fuel
    (mk_world
       (parsed (psb ++ (ph, config_payload before old tail rest) :: psa))
       (mk_fd (image (psb ++ (ph, config_payload before old tail rest) :: psa))
          pos room) out)
    config_var pname
  = Ret (0, mk_world
              (parsed (psb ++ (ph, config_payload before old tail rest) :: psa))
              (mk_fd
                 (image (psb
                         ++ (updated_header ph,
                             updated_payload before config_var tail
                               (len (config_payload before old tail rest)))
                         :: psa))
                 (len (image psb) + ph_length ph * 16)
                 (room - ph_length ph * 16)) out).
Proof.
  intros Hwf Hno Hyes Hwfb Hold Hwft Hnn Hname Hnone Hsame Hfit Hroom Hfuel.
  set (payload := config_payload before old tail rest) in *.
  set (ps := psb ++ (ph, payload) :: psa) in *.
  pose proof Hwf as Hwf'. apply Forall_app in Hwf'. destruct Hwf' as [Hwfpsb Hwf'].
  apply Forall_cons_iff in Hwf'. destruct Hwf' as [Hp _].
  pose proof Hp as (Hwfh & Hl1 & Hpay). cbn [fst snd] in Hwfh, Hl1, Hpay.
  assert (Hdata : image ps = image psb ++ encode_header ph ++ payload ++ image psa).
  { unfold ps. rewrite image_app, image_cons. unfold partition_image.
    cbn [fst snd]. rewrite <- app_assoc. reflexivity. }
  unfold update_of_config_var.
  rewrite (update_prepare_layout _ _ config_var pname (len (image psb)) ph
             (image psb) before old tail rest (image psa));
    [ | apply (find_partition_parsed pname psb (ph, payload) psa); assumption
      | exact Hdata | reflexivity | exact Hwfh
      | fold (config_payload before old tail rest); fold payload; lia
      | assumption | assumption | assumption | assumption | assumption
      | assumption | assumption | lia ].
  cbn [bind]. unfold update_commit. cbn [updated_header ph_name].
  pose proof (nvram_find_fd_partition_image (ph_name ph) psb (ph, payload) psa
                (parsed ps) pos room out fuel Hwf) as Hfd.
  fold ps in Hfd. rewrite Hfd; [ | | apply strncmp_refl | exact Hfuel ].
  2:{ apply Forall_impl with (2 := Hno). intros q Hq Hc. apply Hq.
      apply (strncmp_zero_trans _ (ph_name ph)); [ exact Hyes | ].
      apply strncmp_zero_sym. exact Hc. }
  clear Hfd.
  cbn [bind Z.eqb negb w_fd].
  unfold sys_write. cbn [f_room f_pos f_bytes].
  pose proof (len_nonneg (image psb)) as Hpb.
  assert (Hnew : len (encode_header (updated_header ph)
                      ++ updated_payload before config_var tail
                           (ph_length ph * 16 - 16)) = ph_length ph * 16).
  { rewrite len_app, updated_payload_len by lia. unfold len.
    rewrite (encode_header_length (updated_header ph)) by exact Hwfh. lia. }
  destruct (room <? 0) eqn:Er; zbool; [ lia | ].
  rewrite Hnew. rewrite Z.min_l by lia.
  rewrite firstn_all2 by (unfold len in Hnew; lia).
  replace (Z.to_nat (len (image psb)) - List.length (image ps))%nat with 0%nat.
  2:{ rewrite Hdata, length_app. unfold len. lia. }
  cbn [repeat]. rewrite app_nil_r.
  rewrite (poke_middle (image ps) (image psb) (encode_header ph ++ payload)
             (image psa));
    [ | rewrite Hdata, <- app_assoc; reflexivity | reflexivity | ].
  2:{ apply Nat2Z.inj. fold (len (encode_header ph ++ payload)).
      unfold len in Hnew. rewrite Hnew. len_norm. unfold len at 1.
      rewrite (encode_header_length _ Hwfh). lia. }
  cbn [with_fd w_nvram w_out]. rewrite ?Z.eqb_refl. cbn [negb].
  rewrite image_app, image_cons. unfold partition_image. cbn [fst snd].
  replace (ph_length ph * 16 - 16) with (len payload) by lia.
  rewrite <- !app_assoc. reflexivity.
Qed.

(** X15: in a parsed image whose backing store holds the same bytes and
    takes the whole partition in one write, updating a variable that the
    partition defines succeeds when the new record fits: the function
    returns 0 without a message and the store holds the same partitions
    except that, in the first partition of that name, the record is
    replaced by the new definition (the records before and after it are
    kept in order), the bytes behind the empty record are NULs and the
    header carries the checksum [checksum] computes for it; the file
    position is behind that partition and the image in memory is as it
    was. *)
Theorem update_of_config_var_replaces_record
    (nvram_cmdname filename config_var pname : list byte)
    (psb : list (partition_header * list byte)) (ph : partition_header)
    (before : list (list byte)) (old : list byte) (tail : list (list byte))
    (rest : list byte) (psa : list (partition_header * list byte))
    (pos room : Z) (out : list msg) (fuel : nat) :
  Forall wf_partition
    (psb ++ (ph, config_payload before old tail rest) :: psa) ->
  Forall (fun q => strncmp pname (ph_name (fst q)) 12 <> 0) psb ->
  strncmp pname (ph_name ph) 12 = 0 ->
  Forall wf_record before -> no_nul old -> Forall wf_record tail ->
  no_nul config_var ->
  name_portion config_var <> None ->
  Forall (fun r => name_portion r <> name_portion config_var) before ->
  name_portion old = name_portion config_var ->
  len (records_image (before ++ config_var :: tail)) + 1
    <= len (config_payload before old tail rest) ->
  ph_length ph * 16 <= room ->
  (List.length psb < fuel)%nat ->
  update_of_config_var nvram_cmdname filename fuel
    (mk_world
       (parsed (psb ++ (ph, config_payload before old tail rest) :: psa))
       (mk_fd (image (psb ++ (ph, config_payload before old tail rest) :: psa))
          pos room) out)
    config_var pname
  = Ret (0, mk_world
              (parsed (psb ++ (ph, config_payload before old tail rest) :: psa))
              (mk_fd
                 (image (psb
                         ++ (updated_header ph,
                             updated_payload before config_var tail
                               (len (config_payload before old tail rest)))
                         :: psa))
                 (len (image psb) + ph_length ph * 16)
                 (room - ph_length ph * 16)) out)
  /\ u8 (checksum (updated_header ph)) = u8 (ph_checksum (updated_header ph)).
Proof.
  intros. split.
  - apply update_of_config_var_layout; assumption.
  - unfold updated_header. rewrite checksum_ignores_stored.
    cbn [ph_checksum]. reflexivity.
Qed.

Lemma common_parsed : common_nvram = parsed [(common_header, common_payload)].
Proof. reflexivity. Qed.

Lemma update_of_config_var_replaces_record_witness :
  update_of_config_var (bytes "nvram") (bytes "/dev/nvram") 1
    (mk_world (parsed [(common_header, common_payload)])
       (mk_fd (image [(common_header, common_payload)]) 7 32) [])
    (bytes "bar=345") (bytes "common")
  = Ret (0, mk_world (parsed [(common_header, common_payload)])
              (mk_fd
                 (image
                    [(mk_header x70 xfd 2 (bytes "common" ++ repeat x00 6),
                      records_image [bytes "foo=1"; bytes "bar=345"]
                      ++ repeat x00 2)])
                 32 0) [])
  /\ u8 (checksum (updated_header common_header))
     = u8 (ph_checksum (updated_header common_header)).
Proof.
  apply (update_of_config_var_replaces_record (bytes "nvram")
           (bytes "/dev/nvram") (bytes "bar=345") (bytes "common")
           [] common_header [bytes "foo=1"] (bytes "bar=2") [] (repeat x00 3)
           [] 7 32 [] 1); by_eval.
  all: try (cbv; intuition discriminate).
  all: try (vm_compute; discriminate).
  all: cbn; lia.
Defined.

(** ** Loading the image *)

Lemma poke_at (a b src : list byte) (off : Z) :
  off = len a -> (List.length src <= List.length b)%nat ->
  poke (a ++ b) off src = a ++ src ++ skipn (List.length src) b.
Proof.
  intros -> Hl. unfold poke, len. rewrite Nat2Z.id.
  rewrite firstn_exact by reflexivity.
  rewrite skipn_app, skipn_all2 by lia.
  replace (List.length a + List.length src - List.length a)%nat
    with (List.length src) by lia.
  reflexivity.
Qed.

(** The loop on a file that fits into what is left of the buffer. *)
Lemma read_chunks_fits (fuel : nat) :
  forall (file done todo : list byte) (room : Z) (tailbuf : list byte)
         (n : Z),
    file = done ++ todo ->
    (List.length todo < fuel)%nat ->
    (List.length todo <= List.length tailbuf)%nat ->
    n = len done + len tailbuf ->
    read_chunks fuel (mk_fd file (len done) room) (done ++ tailbuf)
      (len done) (n - len done)
    = Ret (mk_fd file (len file) room,
           file ++ skipn (List.length todo) tailbuf, len file, n - len file).
Proof.
  induction fuel as [ | fuel IH ];
    intros file done todo room tailbuf n Hf Hfuel Hfit Hn.
  - lia.
  - cbn [read_chunks]. unfold sys_read. cbn [f_bytes f_pos f_room].
    assert (Hfrom : from file (len done) = todo)
      by (rewrite Hf; apply from_app).
    rewrite !Hfrom. clear Hfrom. change (Z.to_nat 512) with 512%nat.
    destruct (Nat.eq_dec (List.length todo) 0) as [ Hz | Hnz ].
    + apply length_zero_iff_nil in Hz. subst todo.
      rewrite firstn_nil. change (len []) with 0.
      cbn [Z.gtb Z.compare]. rewrite ?Z.add_0_r.
      rewrite app_nil_r in Hf. subst file. cbn [List.length skipn].
      reflexivity.
    + set (got := firstn 512 todo).
      assert (Hgot : todo = got ++ skipn 512 todo)
        by (symmetry; apply firstn_skipn).
      assert (Hlg : List.length got = Nat.min 512 (List.length todo))
        by (unfold got; apply length_firstn).
      assert (Hls : List.length (skipn 512 todo) = (List.length todo - 512)%nat)
        by apply length_skipn.
      destruct (len got >? 0) eqn:E0; zbool; [ | unfold len in E0; lia ].
      destruct (len done + len got >? len (done ++ tailbuf)) eqn:E1; zbool.
      { rewrite len_app in E1. unfold len in E1. lia. }
      rewrite poke_at by (try reflexivity; lia).
      destruct (n - len done <=? 0) eqn:E2; zbool.
      { unfold len in *. lia. }
      specialize (IH file (done ++ got) (skipn 512 todo) room
                    (skipn (List.length got) tailbuf) n).
      rewrite len_app, <- !app_assoc in IH.
      replace (n - len done - len got) with (n - (len done + len got)) by lia.
      rewrite IH.
      * rewrite skipn_skipn.
        replace (List.length (skipn 512 todo) + List.length got)%nat
          with (List.length todo) by lia.
        reflexivity.
      * rewrite <- Hgot. exact Hf.
      * lia.
      * rewrite !length_skipn. lia.
      * unfold len. rewrite length_skipn. unfold len in Hn. lia.
Qed.

Lemma read_chunks_whole (file buf : list byte) (room n : Z) :
  len file <= len buf -> n = len buf ->
  read_chunks (S (List.length file)) (mk_fd file 0 room) buf 0 n
  = Ret (mk_fd file (len file) room,
         file ++ skipn (List.length file) buf, len file, n - len file).
Proof.
  intros Hl Hn.
  pose proof (read_chunks_fits (S (List.length file)) file [] file room buf n
                eq_refl) as H.
  cbn [app] in H. change (len []) with 0 in H. rewrite Z.sub_0_r in H.
  apply H; [ lia | unfold len in Hl; lia | lia ].
Qed.

(** X16: with a buffer of [nbytes] bytes, [nbytes] other than
    [DEFAULT_NVRAM_SZ], and a backing store that holds no more than
    [nbytes] bytes, [nvram_read] returns 0 with the bytes of the store in
    the buffer, followed by NULs up to [nbytes]; it warns exactly when the
    store is shorter than [nbytes], and [nbytes] keeps its value. *)
Theorem nvram_read_loads_and_pads (DEFAULT_NVRAM_SZ : Z)
    (file buf : list byte) (n room : Z) (tbl : list (Z * partition_header))
    (out : list msg) :
  len buf = n -> len file <= n -> n <> DEFAULT_NVRAM_SZ ->
  nvram_read DEFAULT_NVRAM_SZ
    (mk_world (mk_nvram buf n tbl) (mk_fd file 0 room) out)
  = Ret (0,
         mk_world
           (mk_nvram (file ++ repeat x00 (Z.to_nat (n - len file))) n tbl)
           (mk_fd file (len file) room) out,
         if len file =? n then [] else [Warn_short_read n (len file)]).
Proof.
  intros Hb Hf Hn. unfold nvram_read.
  cbn [w_nvram w_fd w_out data nbytes parts f_bytes].
  rewrite (read_chunks_whole file buf room n) by lia.
  cbn [bind]. apply Z.eqb_neq in Hn. rewrite Hn.
  assert (Hs : len (skipn (List.length file) buf) = n - len file).
  { unfold len. rewrite length_skipn. unfold len in *. lia. }
  destruct (n - len file =? 0) eqn:E; zbool; cbn [negb].
  - replace (len file =? n) with true by (symmetry; apply Z.eqb_eq; lia).
    rewrite E. cbn [Z.to_nat repeat].
    replace (skipn (List.length file) buf) with (@nil byte); [ reflexivity | ].
    symmetry. apply length_zero_iff_nil. unfold len in *. lia.
  - replace (len file =? n) with false by (symmetry; apply Z.eqb_neq; lia).
    destruct (n - len file <? 0) eqn:E1; zbool; [ lia | ].
    cbn [orb].
    destruct (len file + (n - len file)
              >? len (file ++ skipn (List.length file) buf)) eqn:E2; zbool.
    { rewrite len_app, Hs in E2. lia. }
    rewrite poke_at by (try reflexivity; rewrite repeat_length;
                        unfold len in *; lia).
    rewrite repeat_length.
    rewrite skipn_all2 by (unfold len in *; lia).
    rewrite app_nil_r.
    replace (n - (n - len file)) with (len file) by lia. reflexivity.
Qed.

Lemma nvram_read_loads_and_pads_witness :
  nvram_read 1048576
    (mk_world (mk_nvram (repeat xff 8) 8 []) (mk_fd (bytes "nvram") 0 0) [])
  = Ret (0,
         mk_world (mk_nvram (bytes "nvram" ++ repeat x00 3) 8 [])
           (mk_fd (bytes "nvram") 5 0) [],
         [Warn_short_read 8 5]).
Proof.
  apply (nvram_read_loads_and_pads 1048576 (bytes "nvram") (repeat xff 8) 8 0
           [] []).
  - reflexivity.
  - cbn. lia.
  - lia.
Defined.

(** X17: when [nbytes] is [DEFAULT_NVRAM_SZ], [nvram_read] takes the size
    of the image from what it read: [nbytes] becomes the number of bytes
    of the backing store, no warning is given, and the rest of the buffer
    is left as it was. *)
Theorem nvram_read_default_size (DEFAULT_NVRAM_SZ : Z)
    (file buf : list byte) (room : Z) (tbl : list (Z * partition_header))
    (out : list msg) :
  len buf = DEFAULT_NVRAM_SZ -> len file <= DEFAULT_NVRAM_SZ ->
  nvram_read DEFAULT_NVRAM_SZ
    (mk_world (mk_nvram buf DEFAULT_NVRAM_SZ tbl) (mk_fd file 0 room) out)
  = Ret (0,
         mk_world
           (mk_nvram (file ++ skipn (List.length file) buf) (len file) tbl)
           (mk_fd file (len file) room) out,
         []).
Proof.
  intros Hb Hf. unfold nvram_read.
  cbn [w_nvram w_fd w_out data nbytes parts f_bytes].
  rewrite (read_chunks_whole file buf room DEFAULT_NVRAM_SZ) by lia.
  cbn [bind]. rewrite Z.eqb_refl.
  replace (DEFAULT_NVRAM_SZ
           - (DEFAULT_NVRAM_SZ - len file
              + (DEFAULT_NVRAM_SZ - (DEFAULT_NVRAM_SZ - len file)))) with 0
    by lia.
  cbn [Z.eqb negb].
  replace (DEFAULT_NVRAM_SZ - (DEFAULT_NVRAM_SZ - len file)) with (len file)
    by lia.
  reflexivity.
Qed.

Lemma nvram_read_default_size_witness :
  nvram_read 8
    (mk_world (mk_nvram (repeat xff 8) 8 []) (mk_fd (bytes "nvram") 0 0) [])
  = Ret (0,
         mk_world (mk_nvram (bytes "nvram" ++ repeat xff 3) 5 [])
           (mk_fd (bytes "nvram") 5 0) [],
         []).
Proof.
  apply (nvram_read_default_size 8 (bytes "nvram") (repeat xff 8) 0 [] []).
  - reflexivity.
  - cbn. lia.
Defined.

(** The loop on a file that holds more than what is left of the buffer:
    some [read] stores past the end of the buffer. *)
Lemma read_chunks_overruns (fuel : nat) :
  forall (file done todo : list byte) (room : Z) (buf : list byte),
    file = done ++ todo ->
    (List.length todo < fuel)%nat ->
    len done <= len buf ->
    len buf - len done < len todo ->
    exists a,
      len buf < a
      /\ read_chunks fuel (mk_fd file (len done) room) buf (len done)
           (len buf - len done)
         = Fault (BufferOverrun a).
Proof.
  induction fuel as [ | fuel IH ]; intros file done todo room buf Hf Hfuel Hd Ht.
  - lia.
  - cbn [read_chunks]. unfold sys_read. cbn [f_bytes f_pos f_room].
    assert (Hfrom : from file (len done) = todo)
      by (rewrite Hf; apply from_app).
    rewrite !Hfrom. clear Hfrom. change (Z.to_nat 512) with 512%nat.
    set (got := firstn 512 todo).
    assert (Hgot : todo = got ++ skipn 512 todo)
      by (symmetry; apply firstn_skipn).
    assert (Hlg : List.length got = Nat.min 512 (List.length todo))
      by (unfold got; apply length_firstn).
    assert (Hls : List.length (skipn 512 todo) = (List.length todo - 512)%nat)
      by apply length_skipn.
    destruct (len got >? 0) eqn:E0; zbool; [ | unfold len in *; lia ].
    destruct (len done + len got >? len buf) eqn:E1; zbool.
    { exists (len done + len got). split; [ lia | reflexivity ]. }
    destruct (len buf - len done <=? 0) eqn:E2; zbool; [ lia | ].
    assert (Hpl : len (poke buf (len done) got) = len buf).
    { unfold poke, len. rewrite !length_app, length_firstn, length_skipn.
      unfold len in *. lia. }
    specialize (IH file (done ++ got) (skipn 512 todo) room
                  (poke buf (len done) got)).
    rewrite len_app, Hpl in IH.
    replace (len buf - len done - len got) with (len buf - (len done + len got))
      by lia.
    apply IH.
    + rewrite <- app_assoc, <- Hgot. exact Hf.
    + unfold len in *. lia.
    + lia.
    + unfold len in *. lia.
Qed.

(** X18: when the backing store holds more bytes than the buffer of
    [nbytes] bytes, [nvram_read] lets [read] store past the end of the
    buffer: the test of [remaining] comes after the transfer. *)
Theorem nvram_read_overruns_buffer (DEFAULT_NVRAM_SZ : Z)
    (file buf : list byte) (n room : Z) (tbl : list (Z * partition_header))
    (out : list msg) :
  len buf = n -> n < len file ->
  exists a,
    n < a
    /\ nvram_read DEFAULT_NVRAM_SZ
         (mk_world (mk_nvram buf n tbl) (mk_fd file 0 room) out)
       = Fault (BufferOverrun a).
Proof.
  intros Hb Hf. unfold nvram_read.
  cbn [w_nvram w_fd w_out data nbytes parts f_bytes].
  destruct (read_chunks_overruns (S (List.length file)) file [] file room buf
              eq_refl) as (a & Ha & Hr).
  - lia.
  - change (len []) with 0. apply len_nonneg.
  - change (len []) with 0. lia.
  - change (len []) with 0 in Hr. rewrite Z.sub_0_r, Hb in Hr.
    exists a. split; [ lia | ]. rewrite Hr. reflexivity.
Qed.

Lemma nvram_read_overruns_buffer_witness :
  exists a,
    4 < a
    /\ nvram_read 1048576
         (mk_world (mk_nvram (repeat xff 4) 4 []) (mk_fd (bytes "nvram") 0 0) [])
       = Fault (BufferOverrun a).
Proof.
  apply (nvram_read_overruns_buffer 1048576 (bytes "nvram") (repeat xff 4) 4 0
           [] []).
  - reflexivity.
  - cbn. lia.
Defined.

(** ** An update, seen by the next run *)

(** A store that fills the buffer exactly is loaded as it is. *)
Lemma nvram_read_exact (DEFAULT_NVRAM_SZ : Z) (file buf : list byte)
    (room : Z) (tbl : list (Z * partition_header)) (out : list msg) :
  len buf = len file ->
  nvram_read DEFAULT_NVRAM_SZ
    (mk_world (mk_nvram buf (len file) tbl) (mk_fd file 0 room) out)
  = Ret (0, mk_world (mk_nvram file (len file) tbl)
              (mk_fd file (len file) room) out, []).
Proof.
  intros Hb. unfold nvram_read.
  cbn [w_nvram w_fd w_out data nbytes parts f_bytes].
  rewrite (read_chunks_whole file buf room (len file)) by lia.
  cbn [bind]. rewrite Z.sub_diag.
  assert (Hs : skipn (List.length file) buf = []).
  { apply skipn_all2. unfold len in Hb. lia. }
  rewrite Hs, app_nil_r.
  destruct (len file =? DEFAULT_NVRAM_SZ) eqn:E; zbool.
  - rewrite Z.sub_0_r, Z.add_0_l, E, Z.sub_diag. reflexivity.
  - reflexivity.
Qed.

Lemma parse_image (ps : list (partition_header * list byte)) (fuel : nat) :
  Forall wf_partition ps -> (List.length ps < fuel)%nat ->
  nvram_parse_partitions fuel (mk_nvram (image ps) (len (image ps)) [])
  = Ret (parsed ps, checksum_warnings ps, 0).
Proof.
  intros Hwf Hfuel. unfold nvram_parse_partitions. cbn [data nbytes parts].
  pose proof (parse_loop_image ps Hwf fuel [] [] [] Hfuel) as H.
  cbn [app] in H. change (len []) with 0 in H. rewrite H. reflexivity.
Qed.

Lemma value_lines_app (var : list byte) (a b : list (list byte)) :
  value_lines var (a ++ b) = value_lines var a ++ value_lines var b.
Proof. unfold value_lines. apply flat_map_app. Qed.

Lemma value_lines_none (nm : list byte) (recs : list (list byte)) :
  no_eq nm ->
  Forall (fun r => name_portion r <> Some nm) recs ->
  value_lines nm recs = [].
Proof.
  intros Hne. induction 1 as [ | r recs Hr Hrecs IH ]; [ reflexivity | ].
  unfold value_lines. cbn [flat_map]. fold (value_lines nm recs).
  rewrite IH, app_nil_r.
  destruct (value_of nm r) as [ v | ] eqn:E; [ | reflexivity ].
  apply value_of_iff in E. exfalso. apply Hr. apply name_portion_iff.
  exists v. split; assumption.
Qed.

Lemma defines_middle (nm v : list byte) (a b : list (list byte)) :
  defines nm (a ++ (nm ++ x3d :: v) :: b) = true.
Proof.
  unfold defines. rewrite existsb_app. cbn [existsb].
  replace (value_of nm (nm ++ x3d :: v)) with (Some v)
    by (symmetry; apply value_of_iff; reflexivity).
  cbn [orb]. apply orb_true_r.
Qed.

(** The lookup in the image that [update_of_config_var] writes. *)
Lemma print_of_config_updated (nvram_cmdname nm v pname : list byte)
    (psb : list (partition_header * list byte)) (ph : partition_header)
    (before tail : list (list byte)) (n : Z)
    (psa : list (partition_header * list byte)) :
  Forall wf_partition psb -> wf_header ph ->
  Forall (fun q => strncmp pname (ph_name (fst q)) 12 <> 0) psb ->
  strncmp pname (ph_name ph) 12 = 0 ->
  Forall wf_record before -> Forall wf_record tail ->
  no_nul (nm ++ x3d :: v) -> no_eq nm ->
  Forall (fun r => name_portion r <> Some nm) before ->
  len (records_image (before ++ (nm ++ x3d :: v) :: tail)) + 1 <= n ->
  len nm <= n - len (records_image (before ++ (nm ++ x3d :: v) :: tail)) - 1
            + len (image psa) ->
  print_of_config nvram_cmdname
    (parsed (psb ++ (updated_header ph,
                     updated_payload before (nm ++ x3d :: v) tail n) :: psa))
    (Some nm) (Some pname)
  = Ret (0, v ++ [nl] ++ value_lines nm tail, []).
Proof.
  intros Hwfb Hwfh Hno Hyes Hb Ht Hnn Hne Hnone Hfit Hlook.
  set (cfg := nm ++ x3d :: v) in *.
  set (recs := before ++ cfg :: tail) in *.
  unfold print_of_config.
  rewrite (find_partition_parsed pname psb
             (updated_header ph, updated_payload before cfg tail n) psa
             Hwfb Hno Hyes).
  cbn [fst].
  assert (Hk : exists k, Z.to_nat (n - len (records_image recs)) = S k
                         /\ Z.of_nat k = n - len (records_image recs) - 1).
  { exists (Z.to_nat (n - len (records_image recs) - 1)).
    pose proof (len_nonneg (records_image recs)). lia. }
  destruct Hk as (k & Hk & Hk').
  assert (Hdata : data (parsed (psb ++ (updated_header ph,
                                        updated_payload before cfg tail n)
                                :: psa))
                  = (image psb ++ encode_header (updated_header ph))
                    ++ records_image recs
                    ++ x00 :: (repeat x00 k ++ image psa)).
  { unfold parsed. cbn [data]. rewrite image_app, image_cons.
    unfold partition_image. cbn [fst snd]. unfold updated_payload.
    fold recs. rewrite Hk. cbn [repeat]. rewrite <- !app_assoc.
    reflexivity. }
  assert (Hwfr : Forall wf_record recs).
  { unfold recs. apply Forall_app. split; [ exact Hb | ].
    constructor; [ | exact Ht ].
    split; [ unfold cfg; destruct nm; discriminate | exact Hnn ]. }
  assert (Hnm : no_nul nm).
  { unfold cfg in Hnn. apply no_nul_app in Hnn. exact (proj1 Hnn). }
  rewrite (print_config_var_layout nm recs Hwfr Hnm _ _ _ _ _ (-1) Hdata).
  - cbn [bind fst snd]. unfold recs at 1 2.
    unfold cfg at 1 2. rewrite defines_middle.
    rewrite value_lines_app, (value_lines_none nm before Hne Hnone).
    unfold value_lines at 1. cbn [flat_map app].
    fold (value_lines nm tail).
    replace (value_of nm (nm ++ x3d :: v)) with (Some v)
      by (symmetry; apply value_of_iff; reflexivity).
    rewrite <- app_assoc. reflexivity.
  - assert (Hh16 : len (encode_header (updated_header ph)) = 16)
      by (unfold len; rewrite (encode_header_length (updated_header ph))
            by exact Hwfh; reflexivity).
    len_norm. lia.
  - assert (Hrk : len (repeat x00 k) = Z.of_nat k)
      by (unfold len; rewrite repeat_length; reflexivity).
    len_norm. lia.
  - rewrite Hdata. pose proof (records_image_len_ge recs) as H.
    rewrite !length_app. unfold len in H. lia.
Qed.



(** ** The partition table in print *)

Lemma print_partition_rows_table (ps : list (partition_header * list byte)) :
  forall i base,
    print_partition_rows i (table_from base ps)
    = partition_lines i (map fst ps).
Proof.
  induction ps as [ | p ps IH ]; intros i base.
  - reflexivity.
  - cbn [table_from print_partition_rows map partition_lines snd].
    rewrite IH. reflexivity.
Qed.

(** X20: parsing the image of N partitions and printing the table gives
    the heading and one line per partition, in the order of the image and
    numbered from 0: signature, stored checksum, length, and the name up to
    its first NUL. *)
Theorem print_partition_table_after_parse
    (ps : list (partition_header * list byte)) (fuel : nat) :
  Forall wf_partition ps ->
  (List.length ps < fuel)%nat ->
  exists nv warns,
    nvram_parse_partitions fuel (mk_nvram (image ps) (len (image ps)) [])
    = Ret (nv, warns, 0)
    /\ print_partition_table nv
       = bytes " # Sig Chk  Len  Name" ++ [nl]
         ++ partition_lines 0 (map fst ps).
Proof.
  intros Hwf Hfuel. exists (parsed ps), (checksum_warnings ps). split.
  - apply parse_image; assumption.
  - unfold print_partition_table, parsed. cbn [parts].
    rewrite print_partition_rows_table. reflexivity.
Qed.

Lemma print_partition_table_after_parse_witness :
  exists nv warns,
    nvram_parse_partitions 3
      (mk_nvram (image raw_partitions) (len (image raw_partitions)) [])
    = Ret (nv, warns, 0)
    /\ print_partition_table nv
       = bytes " # Sig Chk  Len  Name" ++ [nl]
         ++ bytes " 0  70  00  0001 " ++ [nl]
         ++ bytes " 1  70  00  0003 common" ++ [nl].
Proof.
  apply (print_partition_table_after_parse raw_partitions 3).
  - exact raw_partitions_wf.
  - cbn. lia.
Defined.

(** ** The event-scan log *)

Lemma find_partition_parsed_sig (sig : byte) (name : list byte)
    (psb : list (partition_header * list byte))
    (p : partition_header * list byte)
    (psa : list (partition_header * list byte)) :
  Forall wf_partition psb ->
  Forall (fun q => partition_matches sig (Some name) (fst q) = false) psb ->
  partition_matches sig (Some name) (fst p) = true ->
  nvram_find_partition (parsed (psb ++ p :: psa)) sig (Some name) None
  = Some (len (image psb), fst p).
Proof.
  intros Hwf Hno Hyes. unfold nvram_find_partition, parsed. cbn [parts skipn].
  rewrite (image_len_table psb Hwf), find_from_table_skip by exact Hno.
  cbn [table_from find_from snd]. rewrite Hyes. reflexivity.
Qed.

Lemma word32_at_bytes (d pre post : list byte) (b0 b1 b2 b3 : byte)
    (p_off i : Z) :
  d = pre ++ b0 :: b1 :: b2 :: b3 :: post ->
  p_off + 4 * i = len pre ->
  word32_at d p_off i
  = Ret (((u8 b0 * 256 + u8 b1) * 256 + u8 b2) * 256 + u8 b3).
Proof.
  intros Hd Hoff. unfold word32_at.
  rewrite (rd_at_layout d pre b0 (b1 :: b2 :: b3 :: post)) by assumption.
  cbn [bind].
  rewrite (rd_at_layout d (pre ++ [b0]) b1 (b2 :: b3 :: post)).
  2: { rewrite Hd, <- app_assoc. reflexivity. }
  2: { rewrite len_app, len_cons, len_nil. lia. }
  cbn [bind].
  rewrite (rd_at_layout d (pre ++ [b0; b1]) b2 (b3 :: post)).
  2: { rewrite Hd, <- app_assoc. reflexivity. }
  2: { rewrite len_app, !len_cons, len_nil. lia. }
  cbn [bind].
  rewrite (rd_at_layout d (pre ++ [b0; b1; b2]) b3 post).
  2: { rewrite Hd, <- app_assoc. reflexivity. }
  2: { rewrite len_app, !len_cons, len_nil. lia. }
  reflexivity.
Qed.

Lemma u8_of_Z_mod (v : Z) : u8 (byte.of_Z v) = v mod 256.
Proof. unfold u8. apply byte.unsigned_of_Z. Qed.

Lemma word32_bytes (w : Z) :
  0 <= w < 2 ^ 32 ->
  ((u8 (byte.of_Z (w / 16777216)) * 256 + u8 (byte.of_Z (w / 65536))) * 256
   + u8 (byte.of_Z (w / 256))) * 256 + u8 (byte.of_Z w) = w.
Proof.
  intros Hw. rewrite !u8_of_Z_mod.
  Z.to_euclidean_division_equations. lia.
Qed.

Lemma words32_image_app (a b : list Z) :
  words32_image (a ++ b) = words32_image a ++ words32_image b.
Proof. unfold words32_image. apply flat_map_app. Qed.

Lemma words32_image_len (ws : list Z) :
  len (words32_image ws) = 4 * Z.of_nat (List.length ws).
Proof.
  induction ws as [ | w ws IH ].
  - reflexivity.
  - change (words32_image (w :: ws))
      with ([byte.of_Z (w / 16777216); byte.of_Z (w / 65536);
             byte.of_Z (w / 256); byte.of_Z w] ++ words32_image ws).
    rewrite len_app, IH. cbn [List.length]. unfold len. cbn [List.length].
    lia.
Qed.

(** A word of the payload, read back. *)
Lemma word32_at_words (d pre post : list byte) (ws1 : list Z) (w : Z)
    (ws2 : list Z) (p_off i : Z) :
  d = pre ++ words32_image (ws1 ++ w :: ws2) ++ post ->
  p_off + 4 * i = len pre + 4 * Z.of_nat (List.length ws1) ->
  0 <= w < 2 ^ 32 ->
  word32_at d p_off i = Ret w.
Proof.
  intros Hd Hoff Hw.
  rewrite (word32_at_bytes d (pre ++ words32_image ws1)
             (words32_image ws2 ++ post)
             (byte.of_Z (w / 16777216)) (byte.of_Z (w / 65536))
             (byte.of_Z (w / 256)) (byte.of_Z w)).
  - rewrite word32_bytes by exact Hw. reflexivity.
  - rewrite Hd, words32_image_app, <- !app_assoc. reflexivity.
  - rewrite len_app, words32_image_len. exact Hoff.
Qed.

Lemma store_word_middle (a : list Z) (x : Z) (b : list Z) (v : Z) :
  store_word (a ++ x :: b) (Z.of_nat (List.length a)) v = Ret (a ++ v :: b).
Proof.
  unfold store_word. rewrite length_app. cbn [List.length].
  replace ((0 <=? Z.of_nat (List.length a))
           && (Z.of_nat (List.length a)
               <? Z.of_nat (List.length a + S (List.length b)))) with true.
  2: { symmetry. apply andb_true_iff.
       split; [ apply Z.leb_le | apply Z.ltb_lt ]; lia. }
  rewrite Nat2Z.id.
  rewrite firstn_app, Nat.sub_diag, firstn_all. cbn [firstn].
  rewrite app_nil_r.
  replace (S (List.length a)) with (List.length a + 1)%nat by lia.
  rewrite skipn_app, skipn_all2 by lia.
  replace (List.length a + 1 - List.length a)%nat with 1%nat by lia.
  reflexivity.
Qed.

Lemma gtb_false (a b : Z) : a <= b -> (a >? b) = false.
Proof. intros H. rewrite Z.gtb_ltb. apply Z.ltb_ge. exact H. Qed.

Lemma store_word_negative (a : list Z) (i v : Z) :
  i < 0 -> store_word a i v = Fault (BufferOverrun i).
Proof.
  intros Hi. unfold store_word.
  rewrite (proj2 (Z.leb_gt 0 i)) by lia. reflexivity.
Qed.

(** The first loop copies the header words it is asked for. *)
Lemma eventscan_headers_steps (d pre post : list byte) (p_off : Z)
    (hs1 : list Z) :
  forall (done more : list Z) (n0 : Z) (m : nat),
    d = pre ++ words32_image (n0 :: done ++ hs1 ++ more) ++ post ->
    p_off = len pre ->
    Forall (fun w => 0 <= w < 2 ^ 32) hs1 ->
    eventscan_headers (List.length hs1) d p_off (Z.of_nat (List.length done))
      (done ++ repeat 0 (List.length hs1 + m))
    = Ret (done ++ hs1 ++ repeat 0 m).
Proof.
  induction hs1 as [ | h hs1 IH ]; intros done more n0 m Hd Hoff Hws.
  - reflexivity.
  - apply Forall_cons_iff in Hws. destruct Hws as [Hh Hws].
    cbn [List.length eventscan_headers].
    rewrite (word32_at_words d pre post (n0 :: done) h (hs1 ++ more)).
    + cbn [bind Nat.add repeat]. rewrite store_word_middle. cbn [bind].
      specialize (IH (done ++ [h]) more n0 m).
      rewrite length_app in IH. cbn [List.length] in IH.
      replace (Z.of_nat (List.length done) + 1)
        with (Z.of_nat (List.length done + 1)) by lia.
      rewrite <- !app_assoc in IH. cbn [app] in IH.
      apply IH; assumption.
    + exact Hd.
    + cbn [List.length]. lia.
    + exact Hh.
Qed.

(** The second loop, when librtasevent prints every entry. *)
Lemma eventscan_entries_steps (print : list byte -> Z -> Z -> list byte)
    (d : list byte) (p_off : Z) (hs : list Z) :
  forall (done : list Z) (lst : Z) (tl : list Z),
    eventscan_entries (List.length hs)
      (Some (fun d a l => Some (print d a l))) d p_off
      (Z.of_nat (List.length done)) (done ++ hs ++ lst :: tl)
    = Ret (log_entries print d p_off (Z.of_nat (List.length done))
             (hs ++ [lst])).
Proof.
  induction hs as [ | h hs IH ]; intros done lst tl.
  - reflexivity.
  - cbn [List.length eventscan_entries dump_rtas_event_entry fst snd].
    cbn [Z.eqb bind].
    rewrite Nat2Z.id.
    replace (Z.to_nat (Z.of_nat (List.length done) + 1))
      with (List.length (done ++ [h])) by (rewrite length_app; cbn; lia).
    cbn [app]. rewrite nth_middle.
    replace (done ++ h :: hs ++ lst :: tl)
      with ((done ++ [h]) ++ hs ++ lst :: tl)
      by (rewrite <- app_assoc; reflexivity).
    replace (Z.of_nat (List.length done) + 1)
      with (Z.of_nat (List.length (done ++ [h])))
      by (rewrite length_app; cbn [List.length]; lia).
    rewrite IH. cbn [bind].
    assert (Hn : nth (List.length (done ++ [h]))
                   ((done ++ [h]) ++ hs ++ lst :: tl) 0
                 = hd 0 (hs ++ [lst])).
    { destruct hs as [ | h' hs ]; cbn [app hd]; apply nth_middle. }
    rewrite Hn.
    replace (Z.of_nat (List.length (done ++ [h])))
      with (Z.of_nat (List.length done) + 1)
      by (rewrite length_app; cbn [List.length]; lia).
    destruct hs as [ | h' hs ]; reflexivity.
Qed.

(** X21: an "ibm,es-logs" partition whose first word has its top bit set
    (an erased partition, say) announces a negative number of logs, which
    neither limit catches: the function then stores the artificial last
    header at [loghdr[num_logs]], before the start of the local array. *)
Theorem dump_eventscanlog_negative_count (sig : byte)
    (rtas : option (list byte -> Z -> Z -> option (list byte)))
    (psb : list (partition_header * list byte)) (ph : partition_header)
    (b0 b1 b2 b3 : byte) (rest : list byte)
    (psa : list (partition_header * list byte)) :
  Forall wf_partition (psb ++ (ph, b0 :: b1 :: b2 :: b3 :: rest) :: psa) ->
  Forall (fun q => partition_matches sig (Some (bytes "ibm,es-logs")) (fst q)
                   = false) psb ->
  partition_matches sig (Some (bytes "ibm,es-logs")) ph = true ->
  128 <= u8 b0 ->
  dump_eventscanlog sig rtas
    (parsed (psb ++ (ph, b0 :: b1 :: b2 :: b3 :: rest) :: psa))
  = Fault (BufferOverrun
             (((u8 b0 * 256 + u8 b1) * 256 + u8 b2) * 256 + u8 b3 - 2 ^ 32)).
Proof.
  intros Hwf Hno Hyes Hb0.
  apply Forall_app in Hwf. destruct Hwf as [Hwfb Hwf].
  apply Forall_cons_iff in Hwf. destruct Hwf as [Hp _].
  destruct Hp as (Hh & Hl1 & Hlen). cbn [fst snd] in Hh, Hl1, Hlen.
  unfold dump_eventscanlog.
  rewrite (find_partition_parsed_sig sig _ psb (ph, _) psa Hwfb Hno Hyes).
  cbn [fst].
  change (data (parsed (psb ++ (ph, b0 :: b1 :: b2 :: b3 :: rest) :: psa)))
    with (image (psb ++ (ph, b0 :: b1 :: b2 :: b3 :: rest) :: psa)).
  assert (Hl2 : 2 <= ph_length ph).
  { rewrite !len_cons in Hlen. pose proof (len_nonneg rest). lia. }
  assert (Hpm : (ph_length ph - 1) * 16 / 4 = 4 * (ph_length ph - 1)).
  { replace ((ph_length ph - 1) * 16) with (4 * (ph_length ph - 1) * 4)
      by lia.
    apply Z.div_mul. lia. }
  rewrite Hpm.
  rewrite (proj2 (Z.ltb_ge _ 1)) by lia.
  rewrite (word32_at_bytes _ (image psb ++ encode_header ph) (rest ++ image psa)
             b0 b1 b2 b3).
  2: { rewrite image_app, image_cons. unfold partition_image. cbn [fst snd].
       rewrite <- !app_assoc. reflexivity. }
  2: { rewrite len_app. unfold len at 3.
       rewrite (encode_header_length ph Hh). lia. }
  cbn [bind].
  set (w := ((u8 b0 * 256 + u8 b1) * 256 + u8 b2) * 256 + u8 b3).
  assert (Hw : 2 ^ 31 <= w < 2 ^ 32).
  { pose proof (byte.unsigned_range b0). pose proof (byte.unsigned_range b1).
    pose proof (byte.unsigned_range b2). pose proof (byte.unsigned_range b3).
    unfold w, u8 in *. lia. }
  assert (Hi : int32 w = w - 2 ^ 32).
  { unfold int32.
    replace (w + 2 ^ 31) with (w - 2 ^ 31 + 1 * 2 ^ 32) by lia.
    rewrite Z.mod_add by lia. rewrite Z.mod_small by lia. lia. }
  rewrite Hi. unfold MAX_EVENTLOGS.
  rewrite (gtb_false (w - 2 ^ 32) 100) by lia.
  rewrite (gtb_false (w - 2 ^ 32) (4 * (ph_length ph - 1) - 1)) by lia.
  replace (Z.to_nat (w - 2 ^ 32)) with 0%nat by lia.
  cbn [eventscan_headers bind].
  rewrite store_word_negative by lia. reflexivity.
Qed.

Lemma eslogs_erased_wf : Forall wf_partition eslogs_erased.
Proof.
  repeat apply Forall_cons; [ | | apply Forall_nil ];
    (split; [ split; [ cbv; intuition discriminate | reflexivity ]
            | split; [ cbv; discriminate | reflexivity ] ]).
Qed.

Lemma dump_eventscanlog_negative_count_witness :
  dump_eventscanlog x02 None (parsed eslogs_erased)
  = Fault (BufferOverrun (-1)).
Proof.
  apply (dump_eventscanlog_negative_count x02 None [(header_70_1, [])]
           eslogs_header xff xff xff xff (repeat xff 12) []).
  - exact eslogs_erased_wf.
  - by_eval.
  - vm_compute. reflexivity.
  - vm_compute. discriminate.
Defined.


Lemma eslogs_partitions_wf : Forall wf_partition eslogs_partitions.
Proof.
  repeat apply Forall_cons; [ | | apply Forall_nil ];
    (split; [ split; [ cbv; intuition discriminate | reflexivity ]
            | split; [ cbv; discriminate | reflexivity ] ]).
Qed.


(** ** The search through the file, without a match *)

Lemma sys_read_at_end (bytes_ : list byte) (room n : Z) :
  sys_read (mk_fd bytes_ (len bytes_) room) n
  = ([], mk_fd bytes_ (len bytes_) room).
Proof.
  assert (Hfrom : from bytes_ (len bytes_) = []).
  { pose proof (from_app bytes_ []) as H. rewrite app_nil_r in H. exact H. }
  unfold sys_read. cbv zeta. cbn [f_bytes f_pos f_room].
  rewrite !Hfrom, firstn_nil. change (len []) with 0. rewrite Z.add_0_r.
  reflexivity.
Qed.


